(** * LNhelperBot: the Magma liquidity chart core

    A shallow embedding of [liquiditychart/magma_liquidity_chart.py]:
    currency conversion, the offer classifier, chunk generation, the
    knapsack solver and the checkpoint annotations of the curve sampler,
    followed by the properties of the specification that concern them.

    Python integers are [Z]; Python floats are IEEE binary64 values, taken
    from the Standard Library's executable specification [SpecFloat];
    dictionaries with string keys are [gmap string _]; code that can raise
    runs in the [result] monad. *)

From Stdlib Require Import ZArith Lia Bool String Ascii List.
From Stdlib Require Import SpecFloat.
From stdpp Require Import base option list sorting gmap strings fin_maps.

Local Open Scope Z_scope.

(** ** Exceptions *)

Inductive exn : Set :=
  | ZeroDivisionError
  | OverflowError
  | ValueError
  | IndexError
  | KeyError.

Inductive result (A : Type) : Type :=
  | Ok (a : A)
  | Raise (e : exn).
Arguments Ok {A} a.
Arguments Raise {A} e.

#[global] Instance result_ret : MRet result := fun A a => Ok a.
#[global] Instance result_bind : MBind result := fun A B f m =>
  match m with
  | Ok a => f a
  | Raise e => Raise e
  end.

Definition is_ok {A} (r : result A) : bool :=
  match r with Ok _ => true | Raise _ => false end.

(** [for x in xs: acc = body(acc, x)], stopping at the first exception. *)
Fixpoint for_each {A S : Type} (body : S -> A -> result S) (xs : list A) (s : S)
  : result S :=
  match xs with
  | [] => Ok s
  | x :: xs' => s' ← body s x; for_each body xs' s'
  end.

(** ** Binary64 floats, the way Python uses them *)

Module F64.

Definition prec : Z := 53.
Definition emax : Z := 1024.

Definition float : Set := spec_float.

Definition is_finite (x : float) : bool :=
  match x with
  | S754_zero _ | S754_finite _ _ _ => true
  | S754_infinity _ | S754_nan => false
  end.

Definition is_zero (x : float) : bool :=
  match x with
  | S754_zero _ => true
  | _ => false
  end.

Definition ltb (x y : float) : bool := SFltb x y.
Definition leb (x y : float) : bool := SFleb x y.

(** The nearest double of an integer, ties to even. *)
Definition round_Z (a : Z) : float := binary_normalize prec emax a 0 false.

(** [float(a)], as done implicitly when an [int] meets a [float]. *)
Definition of_int (a : Z) : result float :=
  match round_Z a with
  | S754_infinity _ => Raise OverflowError
  | x => Ok x
  end.

(** [a / b] on two [int]s: the correctly rounded quotient. *)
Definition truediv_int (a b : Z) : result float :=
  if b =? 0 then Raise ZeroDivisionError
  else
    let s := xorb (a <? 0) (b <? 0) in
    if a =? 0 then Ok (S754_zero s)
    else
      let '(q, e, l) := SFdiv_core_binary prec emax (Z.abs a) 0 (Z.abs b) 0 in
      match binary_round_aux prec emax s q e l with
      | S754_infinity _ => Raise OverflowError
      | x => Ok x
      end.

(** [x * y] on two [float]s never raises. *)
Definition mul (x y : float) : float := SFmul prec emax x y.

(** [x / y] on two [float]s raises on a zero divisor only. *)
Definition div (x y : float) : result float :=
  if is_zero y then Raise ZeroDivisionError else Ok (SFdiv prec emax x y).

(** [int(x)]: truncation toward zero. *)
Definition to_int (x : float) : result Z :=
  match x with
  | S754_nan => Raise ValueError
  | S754_infinity _ => Raise OverflowError
  | S754_zero _ => Ok 0
  | S754_finite s m e =>
      Ok (cond_Zopp s (if 0 <=? e then Z.pos m * 2 ^ e
                       else Z.pos m / 2 ^ (- e)))
  end.

(** The mathematical floor of a finite double (0 on the others). *)
Definition floor (x : float) : Z :=
  match x with
  | S754_finite s m e =>
      if 0 <=? e then cond_Zopp s (Z.pos m) * 2 ^ e
      else cond_Zopp s (Z.pos m) / 2 ^ (- e)
  | _ => 0
  end.

(** Mixed arithmetic: the [int] operand is converted first. *)
Definition mul_int_l (a : Z) (y : float) : result float :=
  x ← of_int a; Ok (mul x y).
Definition mul_int_r (x : float) (b : Z) : result float :=
  y ← of_int b; Ok (mul x y).
Definition div_int_r (x : float) (b : Z) : result float :=
  y ← of_int b; div x y.

(** [x > 0] with the [int] literal [0]. *)
Definition gt0 (x : float) : bool := ltb (S754_zero false) x.

End F64.

(** ** Currency conversion (lines 71-77) *)

(** The amount is a Python float or, in the sampler, one of the NumPy
    integers of the coarse grid; the price is a Python float. *)
Inductive number : Set :=
  | PyFloat (x : F64.float)
  | NpInt64 (n : Z).

Definition to_double (a : number) : F64.float :=
  match a with
  | PyFloat x => x
  | NpInt64 n => F64.round_Z n
  end.

(** [a / p]: Python raises on a zero divisor; NumPy warns and returns the
    quotient of IEEE 754, an infinity or a NaN. *)
Definition truediv (a : number) (p : F64.float) : result F64.float :=
  match a with
  | PyFloat x => F64.div x p
  | NpInt64 n => Ok (SFdiv F64.prec F64.emax (F64.round_Z n) p)
  end.

Definition usd_to_sats (usd_amount : number) (btc_usd_price : F64.float) : result Z :=
  btc ← truediv usd_amount btc_usd_price;
  sats ← F64.mul_int_r btc 100000000;
  F64.to_int sats.

Definition sats_to_usd (sats : Z) (btc_usd_price : F64.float) : result F64.float :=
  p ← F64.mul_int_l sats btc_usd_price;
  F64.div_int_r p 100000000.

(** ** Data model

    Offers arrive as JSON objects of the shape the specification gives:
    integers for the sizes and fees, strings for the rest.  A field read
    with [int(offer[...])] is a plain field here, holding that integer; a
    field read with [.get(..., default)] is an [option], [None] standing
    for a missing key. *)

Module Condition.
Record t : Set := mk {
  condition : option string;
  operator : option string;
  value : option string
}.
End Condition.

Module Offer.
Record t : Set := mk {
  id : string;
  min_size : Z;
  max_size : Z;
  base_fee : Z;
  fee_rate : Z;
  amboss_fee_rate : option Z;
  account : option string;
  allow_parallel : option bool;
  conditions : option (list Condition.t)
}.
End Offer.

Module Chunk.
Record t : Set := mk {
  cost : Z;
  liquidity : Z;
  account : string
}.
End Chunk.

(** One table cell: the best liquidity and the orders per seller. *)
Abbreviation cell := (Z * gmap string Z)%type.

(** ** Python sequences *)

(** [l[i]], negative indices counting from the end. *)
Definition py_norm_index {A} (l : list A) (i : Z) : option nat :=
  let n := Z.of_nat (length l) in
  let j := if i <? 0 then i + n else i in
  if (0 <=? j) && (j <? n) then Some (Z.to_nat j) else None.

Definition py_getitem {A} (l : list A) (i : Z) : result A :=
  match py_norm_index l i with
  | Some j => match l !! j with Some x => Ok x | None => Raise IndexError end
  | None => Raise IndexError
  end.

Definition py_setitem {A} (l : list A) (i : Z) (x : A) : result (list A) :=
  match py_norm_index l i with
  | Some j => Ok (<[j := x]> l)
  | None => Raise IndexError
  end.

(** [range(start, stop, -1)] *)
Definition range_down (start stop : Z) : list Z :=
  (fun k => start - Z.of_nat k) <$> seq 0 (Z.to_nat (start - stop)).

(** [range(0, stop, step)] for a positive step, as [np.arange] gives it. *)
Definition arange (stop step : Z) : list Z :=
  (fun k => Z.of_nat k * step) <$> seq 0 (Z.to_nat ((stop + step - 1) / step)).

(** [a // b] *)
Definition py_floordiv (a b : Z) : result Z :=
  if b =? 0 then Raise ZeroDivisionError else Ok (a / b).

(** [max(dp, key=lambda x: x[0])]: the first cell of greatest liquidity. *)
Definition py_max_liq (dp : list cell) : result cell :=
  match dp with
  | [] => Raise ValueError
  | c :: rest => Ok (fold_left (fun best x => if best.1 <? x.1 then x else best) rest c)
  end.

(** ** Chunk generation (lines 107-123) *)

Definition offer_chunks (include_amboss_fee : bool) (offer : Offer.t)
  : result (list Chunk.t) :=
  let min_size := Offer.min_size offer in
  let max_size := Offer.max_size offer in
  let base_fee := Offer.base_fee offer in
  let fee_rate := Offer.fee_rate offer in
  let amboss_fee_rate :=
    if include_amboss_fee then default 0 (Offer.amboss_fee_rate offer) else 0 in
  let total_ppm := fee_rate + amboss_fee_rate in
  q ← F64.truediv_int (min_size * total_ppm) 1000000;
  fee_sats ← F64.to_int q;
  let cost := base_fee + fee_sats in
  let account := default "unknown"%string (Offer.account offer) in
  let allow_parallel := default false (Offer.allow_parallel offer) in
  max_chunks ← py_floordiv max_size min_size;
  let max_chunks := if negb allow_parallel then Z.min max_chunks 1 else max_chunks in
  Ok (replicate (Z.to_nat max_chunks) (Chunk.mk cost min_size account)).

Definition build_chunks (include_amboss_fee : bool) (offers : list Offer.t)
  : result (list Chunk.t) :=
  for_each (fun chunks offer =>
              cs ← offer_chunks include_amboss_fee offer; Ok (chunks ++ cs))
           offers [].

(** ** The knapsack table (lines 125-143) *)

(** [new_orders[acct] = new_orders.get(acct, 0) + 1] on a copy. *)
Definition add_order (acct : string) (orders : gmap string Z) : gmap string Z :=
  <[acct := default 0 (orders !! acct) + 1]> orders.

(** The body of the inner loop, at budget [b]. *)
Definition relax (chunk : Chunk.t) (dp : list cell) (b : Z) : result (list cell) :=
  '(prev_liq, prev_orders) ← py_getitem dp (b - Chunk.cost chunk);
  let new_liq := prev_liq + Chunk.liquidity chunk in
  cur ← py_getitem dp b;
  if cur.1 <? new_liq
  then py_setitem dp b (new_liq, add_order (Chunk.account chunk) prev_orders)
  else Ok dp.

(** The inner loop: budgets from high to low, in place. *)
Definition add_chunk (budget_sats : Z) (dp : list cell) (chunk : Chunk.t)
  : result (list cell) :=
  for_each (relax chunk) (range_down budget_sats (Chunk.cost chunk - 1)) dp.

Definition fill_table (budget_sats : Z) (chunks : list Chunk.t) : result (list cell) :=
  for_each (add_chunk budget_sats) chunks
           (replicate (Z.to_nat (budget_sats + 1)) (0, ∅)).

(** The cost of the first chunk of a seller. *)
Definition first_cost (chunks : list Chunk.t) (acct : string) : option Z :=
  Chunk.cost <$> find (fun c => bool_decide (Chunk.account c = acct)) chunks.

(** Lines 137-142.  The dictionary is walked in insertion order by Python
    and in key order here; the sum does not depend on it. *)
Definition total_cost_of (chunks : list Chunk.t) (seller_orders : gmap string Z) : Z :=
  map_fold (fun acct n total =>
              match first_cost chunks acct with
              | Some c => total + c * n
              | None => total
              end) 0 seller_orders.

(** Lines 125-143 on a chunk list. *)
Definition solve (budget_sats : Z) (chunks : list Chunk.t)
  : result (Z * Z * gmap string Z) :=
  dp ← fill_table budget_sats chunks;
  '(max_liq, seller_orders) ← py_max_liq dp;
  Ok (max_liq, total_cost_of chunks seller_orders, seller_orders).

Definition knapsack_liquidity (budget_sats : Z) (offers : list Offer.t)
    (include_amboss_fee : bool) : result (Z * Z * gmap string Z) :=
  chunks ← build_chunks include_amboss_fee offers;
  solve budget_sats chunks.

(** ** Offer classifier (lines 151-161) *)

(** [str.upper] on the bytes of a string: the letters a-z are raised and
    every other byte is kept.  Python raises the non-ASCII letters too, but
    the upper-case form of a non-ASCII character is never made of the
    letters of [TOR] or [CLEARNET] alone, so the two comparisons below
    are decided the same way. *)
Definition upper_ascii (c : ascii) : ascii :=
  let n := N_of_ascii c in
  if ((97 <=? n) && (n <=? 122))%N then ascii_of_N (n - 32) else c.

Fixpoint py_upper (s : string) : string :=
  match s with
  | EmptyString => EmptyString
  | String c s' => String (upper_ascii c) (py_upper s')
  end.

Definition cond_restricts (cond : Condition.t) : bool :=
  bool_decide (Condition.condition cond = Some "NODE_SOCKETS"%string)
  && ((bool_decide (Condition.operator cond = Some "NOT_EQUAL_TO"%string)
       && bool_decide (py_upper (default ""%string (Condition.value cond)) = "TOR"%string))
      || (bool_decide (Condition.operator cond = Some "CONTAINS"%string)
          && bool_decide (py_upper (default ""%string (Condition.value cond)) = "CLEARNET"%string))).

Fixpoint any_restricts (conds : list Condition.t) : bool :=
  match conds with
  | [] => false
  | cond :: rest => if cond_restricts cond then true else any_restricts rest
  end.

Definition is_tor_restricted (offer : Offer.t) : bool :=
  any_restricts (default [] (Offer.conditions offer)).

(** ** Sorting the offers by price (lines 171-180 and 215-216) *)

Definition offer_price_per_sat (offer : Offer.t) : result F64.float :=
  let min_size := Offer.min_size offer in
  let base_fee := Offer.base_fee offer in
  let fee_rate := Offer.fee_rate offer in
  amboss_fee_rate ←
    match Offer.amboss_fee_rate offer with
    | Some a => Ok a
    | None => Raise KeyError
    end;
  let total_fee_rate := fee_rate + amboss_fee_rate in
  let cost := base_fee + (min_size * total_fee_rate) / 1000000 in
  F64.truediv_int cost min_size.

Fixpoint with_keys {A K} (key : A -> result K) (xs : list A) : result (list (K * A)) :=
  match xs with
  | [] => Ok []
  | x :: xs' => k ← key x; rest ← with_keys key xs'; Ok ((k, x) :: rest)
  end.

(** Insertion after the entries whose key is not greater: the sort is
    stable, as [sorted] is. *)
Fixpoint insert_keyed {A} (k : F64.float) (x : A) (l : list (F64.float * A))
  : list (F64.float * A) :=
  match l with
  | [] => [(k, x)]
  | (k', y) :: rest =>
      if F64.ltb k k' then (k, x) :: l else (k', y) :: insert_keyed k x rest
  end.

Definition sort_keyed {A} (l : list (F64.float * A)) : list (F64.float * A) :=
  fold_left (fun acc kx => insert_keyed kx.1 kx.2 acc) l [].

(** [sorted(xs, key=key)]: the keys are computed first, once each. *)
Definition py_sorted {A} (key : A -> result F64.float) (xs : list A) : result (list A) :=
  keyed ← with_keys key xs;
  Ok ((sort_keyed keyed).*2).

(** ** Curve sampler (lines 213-230) and checkpoints (lines 258-272) *)

Record curves : Set := mk_curves {
  y_tor_coarse : list F64.float;
  y_clearnet_coarse : list F64.float;
  costs_tor_coarse : list F64.float;
  costs_clearnet_coarse : list F64.float
}.

(** [np.arange(0, 505, 25)] *)
Definition budgets_usd_coarse : list Z := arange 505 25.

Definition key_budgets : list Z := [10; 50; 100; 500].

(** One turn of the loop over the coarse budgets. *)
Definition coarse_point (btc_usd : F64.float)
    (offers_tor_sorted offers_clearnet_sorted : list Offer.t)
    (cv : curves) (usd : Z) : result curves :=
  budget_sats ← usd_to_sats (NpInt64 usd) btc_usd;
  '(liquidity_sats, total_cost_sats, _) ←
    knapsack_liquidity budget_sats offers_tor_sorted true;
  y_tor ← sats_to_usd liquidity_sats btc_usd;
  c_tor ← sats_to_usd total_cost_sats btc_usd;
  '(liquidity_sats, total_cost_sats, _) ←
    knapsack_liquidity budget_sats offers_clearnet_sorted true;
  y_clearnet ← sats_to_usd liquidity_sats btc_usd;
  c_clearnet ← sats_to_usd total_cost_sats btc_usd;
  Ok {| y_tor_coarse := y_tor_coarse cv ++ [y_tor];
        y_clearnet_coarse := y_clearnet_coarse cv ++ [y_clearnet];
        costs_tor_coarse := costs_tor_coarse cv ++ [c_tor];
        costs_clearnet_coarse := costs_clearnet_coarse cv ++ [c_clearnet] |}.

Definition sample_curves (btc_usd : F64.float) (offers : list Offer.t) : result curves :=
  let offers_tor := filter (fun o => is_tor_restricted o = false) offers in
  let offers_clearnet := offers in
  offers_tor_sorted ← py_sorted offer_price_per_sat offers_tor;
  offers_clearnet_sorted ← py_sorted offer_price_per_sat offers_clearnet;
  for_each (coarse_point btc_usd offers_tor_sorted offers_clearnet_sorted)
           budgets_usd_coarse (mk_curves [] [] [] []).

Inductive variant : Set := TorEligible | AllOffers.

#[global] Instance variant_eq_dec : EqDecision variant.
Proof. solve_decision. Defined.

(** What [plt.annotate] is given: the point and the percentage. *)
Record annotation : Set := mk_annotation {
  ann_variant : variant;
  ann_budget_usd : Z;
  ann_liquidity_usd : F64.float;
  ann_pct : F64.float
}.

(** [np.where(xs == key)[0]] *)
Definition np_where_eq (xs : list Z) (key : Z) : list nat :=
  (filter (fun ix => ix.2 = key) (imap pair xs)).*1.

(** [if y[i] > 0: pct = 100 * costs[i] / y[i]; plt.annotate(...)] *)
Definition annotate_point (v : variant) (ys costs : list F64.float) (i : nat)
    (anns : list annotation) : result (list annotation) :=
  y ← py_getitem ys (Z.of_nat i);
  if F64.gt0 y then
    c ← py_getitem costs (Z.of_nat i);
    n ← F64.mul_int_l 100 c;
    y' ← py_getitem ys (Z.of_nat i);
    pct ← F64.div n y';
    x ← py_getitem budgets_usd_coarse (Z.of_nat i);
    Ok (anns ++ [mk_annotation v x y' pct])
  else Ok anns.

Definition annotate_key (cv : curves) (anns : list annotation) (key_usd : Z)
  : result (list annotation) :=
  match np_where_eq budgets_usd_coarse key_usd with
  | [] => Ok anns
  | i :: _ =>
      anns ← annotate_point TorEligible (y_tor_coarse cv) (costs_tor_coarse cv) i anns;
      annotate_point AllOffers (y_clearnet_coarse cv) (costs_clearnet_coarse cv) i anns
  end.

Definition annotations (cv : curves) : result (list annotation) :=
  for_each (annotate_key cv) key_budgets [].


(** ** Fetching an offer (lines 37-69)

    The GraphQL query names the fields it wants and the server answers
    with those fields and no other; a field the query does not name is
    a missing key of the dictionary [get_offer_details] returns.  (When
    the request fails the function returns [None] and the offer is left
    out; what is modelled is the dictionary of a request that succeeds.) *)
Definition offer_query_fields : list string :=
  ["base_fee"; "fee_rate"; "amboss_fee_rate"; "min_size"; "max_size";
   "account"; "id"; "conditions"]%string.

Definition selected {A} (field : string) (v : option A) : option A :=
  if bool_decide (field ∈ offer_query_fields) then v else None.

Definition get_offer_details (server_offer : Offer.t) : Offer.t :=
  {| Offer.id := Offer.id server_offer;
     Offer.min_size := Offer.min_size server_offer;
     Offer.max_size := Offer.max_size server_offer;
     Offer.base_fee := Offer.base_fee server_offer;
     Offer.fee_rate := Offer.fee_rate server_offer;
     Offer.amboss_fee_rate := selected "amboss_fee_rate" (Offer.amboss_fee_rate server_offer);
     Offer.account := selected "account" (Offer.account server_offer);
     Offer.allow_parallel := selected "allow_parallel" (Offer.allow_parallel server_offer);
     Offer.conditions := selected "conditions" (Offer.conditions server_offer) |}.

(** ** Notions of the specification *)

(** Sums over a selection of chunks. *)
Definition sum_with {A} (f : A -> Z) (l : list A) : Z :=
  foldr (fun x acc => f x + acc) 0 l.

Definition total_cost (sel : list Chunk.t) : Z := sum_with Chunk.cost sel.
Definition total_liquidity (sel : list Chunk.t) : Z := sum_with Chunk.liquidity sel.

(** The allocation of a selection: how many chunks each seller gives. *)
Definition orders_of (sel : list Chunk.t) : gmap string Z :=
  foldr (fun c m => add_order (Chunk.account c) m) ∅ sel.

(** A selection is feasible when it is drawn from the chunks, each at most
    once, and fits the budget. *)
Definition feasible (budget_sats : Z) (chunks sel : list Chunk.t) : Prop :=
  sel ⊆+ chunks /\ total_cost sel <= budget_sats.

(** The cost of an allocation when [pc] is the cost per chunk of a seller. *)
Definition allocation_cost (pc : string -> Z) (orders : gmap string Z) : Z :=
  sum_with (fun an => an.2 * pc an.1) (map_to_list orders).

(** The sign of a double is not negative, and the double is a number. *)
Definition nonneg_number (x : F64.float) : bool :=
  match x with
  | S754_zero _ => true
  | S754_finite s _ _ => negb s
  | S754_infinity s => negb s
  | S754_nan => false
  end.

(** What one pass of the inner loop leaves at index [b] of the table. *)
Definition relaxed (chunk : Chunk.t) (dp : list cell) (b : nat) : option cell :=
  cur ← dp !! b;
  if Z.of_nat b <? Chunk.cost chunk then Some cur
  else
    '(prev_liq, prev_orders) ← dp !! Z.to_nat (Z.of_nat b - Chunk.cost chunk);
    if cur.1 <? prev_liq + Chunk.liquidity chunk
    then Some (prev_liq + Chunk.liquidity chunk,
               add_order (Chunk.account chunk) prev_orders)
    else Some cur.

(** A cell is right for budget [b] and the chunks seen so far when it
    records a feasible selection that no feasible selection beats. *)
Definition cell_ok (seen : list Chunk.t) (b : Z) (c : cell) : Prop :=
  (exists sel, feasible b seen sel /\ total_liquidity sel = c.1 /\ c.2 = orders_of sel)
  /\ (forall sel', feasible b seen sel' -> total_liquidity sel' <= c.1).

Definition table_ok (budget_sats : Z) (seen : list Chunk.t) (dp : list cell) : Prop :=
  length dp = Z.to_nat (budget_sats + 1)
  /\ Forall (fun c => 0 <= Chunk.cost c) seen
  /\ forall (b : nat) c, dp !! b = Some c -> cell_ok seen (Z.of_nat b) c.

(** While the inner loop runs, the cells above [budget - k] are done and
    the others untouched. *)
Definition half_done (budget_sats : Z) (chunk : Chunk.t) (dp : list cell)
    (k : nat) (dpk : list cell) : Prop :=
  length dpk = length dp
  /\ forall b : nat,
       dpk !! b = if decide (budget_sats - Z.of_nat k < Z.of_nat b)
                  then relaxed chunk dp b else dp !! b.

(** Chunks of one seller all cost the same. *)
Definition uniform_cost (chunks : list Chunk.t) : Prop :=
  forall c1 c2, c1 ∈ chunks -> c2 ∈ chunks ->
    Chunk.account c1 = Chunk.account c2 -> Chunk.cost c1 = Chunk.cost c2.

(** [pc] gives the cost per chunk of every seller of [chunks]. *)
Definition cost_per_chunk (chunks : list Chunk.t) (pc : string -> Z) : Prop :=
  forall c, c ∈ chunks -> pc (Chunk.account c) = Chunk.cost c.

Definition nan_or_nonneg (x : F64.float) : bool :=
  match x with
  | S754_nan => true
  | _ => nonneg_number x
  end.

(** An offer the pipeline accepts: a positive minimum size, fees that are
    not negative and present, and magnitudes whose quotients fit a double
    (beyond them Python raises [OverflowError]). *)
Definition well_formed (o : Offer.t) : Prop :=
  0 < Offer.min_size o
  /\ 0 <= Offer.base_fee o < 2 ^ 1000
  /\ 0 <= Offer.fee_rate o
  /\ (exists a, Offer.amboss_fee_rate o = Some a /\ 0 <= a)
  /\ Offer.min_size o * (Offer.fee_rate o + default 0 (Offer.amboss_fee_rate o))
     < 2 ^ 1000.

(** The chunks of an offer, none when generation raises. *)
Definition chunks_of (include_amboss_fee : bool) (o : Offer.t) : list Chunk.t :=
  match offer_chunks include_amboss_fee o with
  | Ok cs => cs
  | Raise _ => []
  end.

(** Equality of two strings when the case of the letters a-z is ignored. *)
Definition lower_ascii (c : ascii) : ascii :=
  let n := N_of_ascii c in
  if ((65 <=? n) && (n <=? 90))%N then ascii_of_N (n + 32) else c.

Fixpoint equals_ignoring_case (s t : string) : bool :=
  match s, t with
  | EmptyString, EmptyString => true
  | String c s', String d t' =>
      Ascii.eqb (lower_ascii c) (lower_ascii d) && equals_ignoring_case s' t'
  | _, _ => false
  end.

(** The condition the specification gives for a restricted offer. *)
Definition restricting (cond : Condition.t) : Prop :=
  Condition.condition cond = Some "NODE_SOCKETS"%string
  /\ ((Condition.operator cond = Some "NOT_EQUAL_TO"%string
       /\ equals_ignoring_case (default ""%string (Condition.value cond)) "TOR" = true)
      \/ (Condition.operator cond = Some "CONTAINS"%string
          /\ equals_ignoring_case (default ""%string (Condition.value cond)) "CLEARNET" = true)).

(** Two conditions, then two offers, that differ by the case of the
    [value] fields at most. *)
Definition same_but_value_case (c c' : Condition.t) : Prop :=
  Condition.condition c = Condition.condition c'
  /\ Condition.operator c = Condition.operator c'
  /\ option_Forall2 (fun v v' => equals_ignoring_case v v' = true)
       (Condition.value c) (Condition.value c').

Definition same_but_case (o o' : Offer.t) : Prop :=
  option_Forall2 (Forall2 same_but_value_case) (Offer.conditions o) (Offer.conditions o').

(** The series of one variant. *)
Definition liquidity_curve (v : variant) (cv : curves) : list F64.float :=
  match v with
  | TorEligible => y_tor_coarse cv
  | AllOffers => y_clearnet_coarse cv
  end.

Definition cost_curve (v : variant) (cv : curves) : list F64.float :=
  match v with
  | TorEligible => costs_tor_coarse cv
  | AllOffers => costs_clearnet_coarse cv
  end.

(** After [n] coarse budgets, every series has [n] points and the
    liquidities are numbers that are not negative. *)
Definition recorded (n : nat) (cv : curves) : Prop :=
  forall v, length (liquidity_curve v cv) = n
            /\ length (cost_curve v cv) = n
            /\ Forall (fun y => nonneg_number y = true) (liquidity_curve v cv).

(** The offers a variant is computed over (lines 213-214). *)
Definition variant_offers (v : variant) (offers : list Offer.t) : list Offer.t :=
  match v with
  | TorEligible => filter (fun o => is_tor_restricted o = false) offers
  | AllOffers => offers
  end.

(** The liquidity [y] and the cost [c], in USD, of what the solver buys
    with [usd] from the offers. *)
Definition sampled_point (btc_usd : F64.float) (offers_sorted : list Offer.t)
    (usd : Z) (y c : F64.float) : Prop :=
  exists budget_sats max_liq total_cost orders,
    usd_to_sats (NpInt64 usd) btc_usd = Ok budget_sats
    /\ knapsack_liquidity budget_sats offers_sorted true = Ok (max_liq, total_cost, orders)
    /\ sats_to_usd max_liq btc_usd = Ok y
    /\ sats_to_usd total_cost btc_usd = Ok c.

(** The curves hold, for the budgets done, the points of both variants. *)
Definition sampled (btc_usd : F64.float) (offers_sorted : variant -> list Offer.t)
    (done : list Z) (cv : curves) : Prop :=
  forall v,
    length (liquidity_curve v cv) = length done
    /\ length (cost_curve v cv) = length done
    /\ forall i usd, done !! i = Some usd ->
         exists y c, liquidity_curve v cv !! i = Some y
           /\ cost_curve v cv !! i = Some c
           /\ sampled_point btc_usd (offers_sorted v) usd y c.

(** The annotation of a variant at the grid index [i], if any. *)
Definition annotation_at (v : variant) (cv : curves) (i : nat) : option annotation :=
  y ← liquidity_curve v cv !! i;
  c ← cost_curve v cv !! i;
  x ← budgets_usd_coarse !! i;
  if F64.gt0 y
  then Some (mk_annotation v x y (SFdiv F64.prec F64.emax (F64.mul (F64.round_Z 100) c) y))
  else None.

Definition key_annotations (cv : curves) (key_usd : Z) : list annotation :=
  match np_where_eq budgets_usd_coarse key_usd with
  | [] => []
  | i :: _ => option_list (annotation_at TorEligible cv i)
              ++ option_list (annotation_at AllOffers cv i)
  end.

(** An annotation was drawn for this variant at this budget. *)
Definition annotated (anns : list annotation) (v : variant) (key_usd : Z) : Prop :=
  exists a, a ∈ anns /\ ann_variant a = v /\ ann_budget_usd a = key_usd.

(** ** Sample data *)

Definition free_chunk : Chunk.t := Chunk.mk 0 100 "A".

Definition paid_chunks : list Chunk.t :=
  [Chunk.mk 1000 50000 "A"; Chunk.mk 2000 120000 "B"; Chunk.mk 1000 50000 "A"].

Definition small_chunks : list Chunk.t :=
  [Chunk.mk 2 10 "A"; Chunk.mk 3 20 "B"; Chunk.mk 2 10 "A"].

Definition offer_a : Offer.t :=
  Offer.mk "a" 1000 3000 2 1000 (Some 500) (Some "A") None None.

Definition offer_b : Offer.t :=
  Offer.mk "b" 2000 3000 1 1000 (Some 500) (Some "B") None
    (Some [Condition.mk (Some "NODE_SOCKETS") (Some "CONTAINS") (Some "ClearNet")])%string.

Definition offer_b_upper : Offer.t :=
  Offer.mk "b" 2000 3000 1 1000 (Some 500) (Some "B") None
    (Some [Condition.mk (Some "NODE_SOCKETS") (Some "CONTAINS") (Some "CLEARNET")])%string.

Definition zero_offer : Offer.t :=
  Offer.mk "z" 0 250000 10 1000 (Some 500) (Some "A") None None.

(** A seller of 171.8 BTC at 999 999 ppm. *)
Definition large_offer : Offer.t :=
  Offer.mk "big" 17180000001 17180000001 0 999999 (Some 0) (Some "A") None None.

(** One BTC at 100 000 000 USD: one USD is one sat. *)
Definition sat_price : F64.float := F64.round_Z 100000000.

Definition sample_recorded :=
  Eval vm_compute in
    match sample_curves sat_price [offer_a; offer_b] with
    | Ok cv => cv
    | Raise _ => mk_curves [] [] [] []
    end.

Definition single_recorded :=
  Eval vm_compute in
    match sample_curves sat_price [offer_a] with
    | Ok cv => cv
    | Raise _ => mk_curves [] [] [] []
    end.

Definition single_annotations :=
  Eval vm_compute in
    match annotations single_recorded with
    | Ok anns => anns
    | Raise _ => []
    end.

(** * The rest of the chart module

    The functions of [liquiditychart/magma_liquidity_chart.py] that the
    first part leaves out: the identifiers written into the offers, the
    labels and one point of a curve. *)

From stdpp Require Import pretty.
Local Open Scope Z_scope.

(** ** Identifiers written back (lines 208-210)

    [for offer, offer_id in zip(offers, offer_ids): offer['id'] = offer_id]:
    the identifiers are written by position, as far as the shorter list
    goes. *)
Definition set_id (offer_id : string) (offer : Offer.t) : Offer.t :=
  {| Offer.id := offer_id;
     Offer.min_size := Offer.min_size offer;
     Offer.max_size := Offer.max_size offer;
     Offer.base_fee := Offer.base_fee offer;
     Offer.fee_rate := Offer.fee_rate offer;
     Offer.amboss_fee_rate := Offer.amboss_fee_rate offer;
     Offer.account := Offer.account offer;
     Offer.allow_parallel := Offer.allow_parallel offer;
     Offer.conditions := Offer.conditions offer |}.

Fixpoint assign_ids (offers : list Offer.t) (offer_ids : list string) : list Offer.t :=
  match offers, offer_ids with
  | offer :: offers', offer_id :: offer_ids' =>
      set_id offer_id offer :: assign_ids offers' offer_ids'
  | _, _ => offers
  end.

(** ** Labels (lines 94-104)

    A string is taken character by character, one [ascii] each. *)

Fixpoint string_take (n : nat) (s : string) : string :=
  match n, s with
  | S n', String c s' => String c (string_take n' s')
  | _, _ => EmptyString
  end.

(** [s[:stop]]: a negative [stop] counts from the end. *)
Definition py_str_slice_to (s : string) (stop : Z) : string :=
  string_take
    (Z.to_nat (if stop <? 0 then stop + Z.of_nat (String.length s) else stop)) s.

Definition py_slice_to {A} (l : list A) (stop : Z) : list A :=
  take (Z.to_nat (if stop <? 0 then stop + Z.of_nat (length l) else stop)) l.

(** [truncate(s, length)]; the default [length] is 8. *)
Definition truncate (s : string) (length : Z) : string :=
  if bool_decide (s = EmptyString) then "unknown"%string
  else if length <? Z.of_nat (String.length s)
       then (py_str_slice_to s length +:+ "...")%string
       else s.

(** [sorted(items, key=lambda x: x[1], reverse=True)]: descending counts,
    the sellers of one count in the order they had. *)
Fixpoint insert_by_count (x : string * Z) (l : list (string * Z)) : list (string * Z) :=
  match l with
  | [] => [x]
  | y :: rest => if y.2 <? x.2 then x :: l else y :: insert_by_count x rest
  end.

Definition sorted_by_count (items : list (string * Z)) : list (string * Z) :=
  fold_left (fun acc x => insert_by_count x acc) items [].

Definition newline : string := String (ascii_of_nat 10) EmptyString.

(** The dictionary comes as its items, in insertion order. *)
Definition top_sellers (seller_orders : list (string * Z)) (max_aliases : Z)
  : list (string * Z) :=
  py_slice_to (sorted_by_count seller_orders) max_aliases.

Definition label_lines (seller_orders : list (string * Z))
    (truncate_fn : string -> string) (max_aliases : Z) : list string :=
  let top := top_sellers seller_orders max_aliases in
  let lines := [("Orders " +:+ pretty (sum_with snd seller_orders))%string] in
  fold_left (fun lines alias_n => lines ++ [truncate_fn alias_n.1]) top lines.

Definition build_label (seller_orders : list (string * Z))
    (truncate_fn : string -> string) (max_aliases : Z) : string :=
  String.concat newline (label_lines seller_orders truncate_fn max_aliases).

(** ** One point of a curve (lines 182-186)

    [liquidity_for_budget(args)] with [args = (usd, btc_usd, offers)]. *)
Definition liquidity_for_budget (usd : number) (btc_usd : F64.float)
    (offers : list Offer.t) : result (F64.float * gmap string Z) :=
  budget_sats ← usd_to_sats usd btc_usd;
  '(liquidity_sats, _, num_orders) ← knapsack_liquidity budget_sats offers true;
  y ← sats_to_usd liquidity_sats btc_usd;
  Ok (y, num_orders).

(** * The bot ([bot.py])

    The handlers of the Telegram bot, as functions of the state they read
    and write.  A text is a string of characters, one [ascii] each.  What
    a handler sends is the list of its replies, by kind; what it asks of
    the network is an argument: the answer of the block explorer.  The
    handlers and the jobs are coroutines of one event loop; each is taken
    to run from its start to its end with no other in between.  The state
    file is taken to give back what was written to it. *)

(** ** The pattern of a transaction identifier (lines 70-71) *)

Module Re.

(** The regular expressions [is_valid_txid] needs: a class of character
    ranges and a counted repetition. *)
Inductive t : Set :=
  | Class (ranges : list (ascii * ascii))
  | Repeat (r : t) (n : nat).

Definition in_range (c : ascii) (r : ascii * ascii) : bool :=
  ((N_of_ascii r.1 <=? N_of_ascii c) && (N_of_ascii c <=? N_of_ascii r.2))%N.

(** What is left of [s] after a match of [r] at its start, one rest for
    every way to match. *)
Fixpoint matches (r : t) (s : string) : list string :=
  match r with
  | Class ranges =>
      match s with
      | String c s' => if existsb (in_range c) ranges then [s'] else []
      | EmptyString => []
      end
  | Repeat r' n => Nat.iter n (fun rests => rests ≫= matches r') [s]
  end.

(** [re.fullmatch(r, s)] as a truth value. *)
Definition fullmatch (r : t) (s : string) : bool :=
  bool_decide (EmptyString ∈ matches r s).

End Re.

Module Bot.

(** [[0-9a-fA-F]{64}] *)
Definition txid_pattern : Re.t :=
  Re.Repeat (Re.Class [("0", "9"); ("a", "f"); ("A", "F")]%char) 64.

Definition is_valid_txid (txid : string) : bool := Re.fullmatch txid_pattern txid.
Arguments is_valid_txid : simpl never.

(** [str.strip()]: the white space of [str.isspace] at both ends. *)
Definition is_space (c : ascii) : bool :=
  let n := N_of_ascii c in
  (((9 <=? n) && (n <=? 13)) || ((28 <=? n) && (n <=? 32))
   || (n =? 133) || (n =? 160))%N.

Fixpoint lstrip (s : string) : string :=
  match s with
  | String c s' => if is_space c then lstrip s' else s
  | EmptyString => EmptyString
  end.

Definition strip (s : string) : string :=
  String.rev (lstrip (String.rev (lstrip s))).

(** ** The block explorer (lines 90-114) *)

(** An answer: the status code and the decoded body, [None] when
    [resp.json()] raises. *)
Record response (A : Type) : Type := mk_response {
  status_code : Z;
  json : option A
}.
Arguments mk_response {A} _ _.
Arguments status_code {A} _.
Arguments json {A} _.

(** The fields [get_confirmations] reads, [None] for a missing key or a
    [null]. *)
Record tx_data : Set := mk_tx_data {
  confirmations : option Z;
  status_block_height : option Z;
  block_height : option Z
}.

Record block : Set := mk_block { height : Z }.

(** [x or y] on two values that are [None] or an [int]. *)
Definition py_or (x y : option Z) : option Z :=
  match x with
  | Some n => if n =? 0 then y else x
  | None => y
  end.

(** Lines 99-109: the confirmations counted from the height of the
    block; the request for the tip is an argument, [None] when
    [requests.get] raises. *)
Definition confirmations_from_height (data : tx_data)
    (blocks_resp : option (response (list block))) : option Z :=
  match py_or (status_block_height data) (block_height data) with
  | None => Some 0
  | Some block_height =>
      if block_height =? 0 then Some 0
      else
        match blocks_resp with
        | None => None
        | Some blocks_resp =>
            if status_code blocks_resp =? 200 then
              match json blocks_resp with
              | None => None
              | Some [] => Some 0
              | Some (tip :: _) => Some (Z.max 0 (height tip - block_height + 1))
              end
            else Some 0
        end
  end.

(** [get_confirmations(txid)], given the answers to its requests; the
    result [None] is Python's. *)
Definition get_confirmations (resp : option (response tx_data))
    (blocks_resp : option (response (list block))) : option Z :=
  match resp with
  | None => None
  | Some resp =>
      if status_code resp =? 200 then
        match json resp with
        | None => None
        | Some data =>
            match confirmations data with
            | Some c =>
                if 0 <? c then Some c else confirmations_from_height data blocks_resp
            | None => confirmations_from_height data blocks_resp
            end
        end
      else None
  end.

(** ** The state (lines 26-33 and 50-67) *)

Module Watcher.
Record t : Set := mk { chat_id : Z; notified : bool }.
End Watcher.

(** A dictionary with string keys, in insertion order. *)
Abbreviation dict V := (list (string * V)).

Fixpoint dict_get {V} (d : dict V) (k : string) : option V :=
  match d with
  | [] => None
  | (k', v) :: d' => if decide (k' = k) then Some v else dict_get d' k
  end.

(** [d[k] = v]: a key that is there keeps its place. *)
Fixpoint dict_set {V} (d : dict V) (k : string) (v : V) : dict V :=
  match d with
  | [] => [(k, v)]
  | (k', v') :: d' =>
      if decide (k' = k) then (k', v) :: d' else (k', v') :: dict_set d' k v
  end.

(** [del d[k]], for a key that is there. *)
Definition dict_del {V} (d : dict V) (k : string) : dict V :=
  filter (fun kv => kv.1 <> k) d.

(** The globals of the module and the state file, [None] when there is
    no file. *)
Record state : Type := mk_state {
  watched_tx : dict (list Watcher.t);
  block_notify_users : gset Z;
  last_block_height : option Z;
  state_file : option (dict (list Watcher.t) * gset Z)
}.

Definition initial : state := mk_state [] ∅ None None.

Definition set_watched_tx (st : state) (watched : dict (list Watcher.t)) : state :=
  mk_state watched (block_notify_users st) (last_block_height st) (state_file st).

Definition set_block_notify_users (st : state) (users : gset Z) : state :=
  mk_state (watched_tx st) users (last_block_height st) (state_file st).

Definition save_state (st : state) : state :=
  mk_state (watched_tx st) (block_notify_users st) (last_block_height st)
           (Some (watched_tx st, block_notify_users st)).

Definition load_state (st : state) : state :=
  match state_file st with
  | Some (watched, users) => mk_state watched users (last_block_height st) (state_file st)
  | None => st
  end.

(** A new process: the globals as the module sets them, then [load_state]
    (line 274). *)
Definition restart (st : state) : state :=
  load_state (mk_state [] ∅ None (state_file st)).

(** ** What the bot sends *)

Inductive reply : Set :=
  | NotATxid
  | AlreadyConfirmed (txid : string) (confirmations : Z)
  | CurrentlyHas (txid : string) (confirmations : Z)
  | CouldNotCheck
  | Monitoring (txid : string)
  | BlocksOn
  | BlocksOff
  | BlocksWereOff
  | RemoveUsage
  | NotATxidToRemove
  | StoppedMonitoring (txid : string)
  | NotMonitoring (txid : string)
  | NoTransactions
  | StatusLines (lines : list (string * option Z)).

Inductive notice : Set :=
  | Confirmed (chat_id : Z) (txid : string)
  | NewBlock (chat_id : Z) (height : Z).

(** ** A transaction identifier is sent (lines 116-140) *)

(** Lines 133-138. *)
Definition watch (st : state) (txid : string) (chat_id : Z) : state :=
  let watched :=
    if bool_decide (is_Some (dict_get (watched_tx st) txid)) then watched_tx st
    else dict_set (watched_tx st) txid [] in
  let watchers := default [] (dict_get watched txid) in
  if existsb (fun entry => Watcher.chat_id entry =? chat_id) watchers
  then set_watched_tx st watched
  else save_state
         (set_watched_tx st
            (dict_set watched txid (watchers ++ [Watcher.mk chat_id false]))).

(** [confirmations] is what [get_confirmations(txid)] returns. *)
Definition handle_txid (st : state) (text : string) (chat_id : Z)
    (confirmations : option Z) : state * list reply :=
  let txid := strip text in
  if negb (is_valid_txid txid) then (st, [NotATxid])
  else
    match confirmations with
    | Some c =>
        if 6 <=? c then (st, [AlreadyConfirmed txid c])
        else (watch st txid chat_id,
              [CurrentlyHas txid c] ++ (if c <? 6 then [Monitoring txid] else []))
    | None => (watch st txid chat_id, [CouldNotCheck; Monitoring txid])
    end.

(** ** Block notifications on and off (lines 142-155) *)

Definition notifyblocks (st : state) (chat_id : Z) : state * list reply :=
  (save_state (set_block_notify_users st ({[chat_id]} ∪ block_notify_users st)),
   [BlocksOn]).

Definition stopblocks (st : state) (chat_id : Z) : state * list reply :=
  if bool_decide (chat_id ∈ block_notify_users st)
  then (save_state (set_block_notify_users st (block_notify_users st ∖ {[chat_id]})),
        [BlocksOff])
  else (st, [BlocksWereOff]).

(** ** The confirmation job (lines 157-182) *)

(** [lookup txid] is what [get_confirmations(txid)] returns during the
    pass.  A send that fails is logged and the watcher counts as
    notified all the same: [sent] lists the sends that were tried. *)
Definition check_one (lookup : string -> option Z)
    (acc : state * list string * list notice) (item : string * list Watcher.t)
  : state * list string * list notice :=
  let '(st, to_remove, sent) := acc in
  let '(txid, watchers) := item in
  if forallb Watcher.notified watchers then (st, to_remove ++ [txid], sent)
  else
    match lookup txid with
    | Some confirmations =>
        if 6 <=? confirmations
        then (save_state
                (set_watched_tx st
                   (dict_set (watched_tx st) txid
                      ((fun w => Watcher.mk (Watcher.chat_id w) true) <$> watchers))),
              to_remove,
              sent ++ ((fun w => Confirmed (Watcher.chat_id w) txid)
                         <$> filter (fun w => Watcher.notified w = false) watchers))
        else acc
    | None => acc
    end.

Definition check_confirmations (st : state) (lookup : string -> option Z)
  : state * list notice :=
  let '(st', to_remove, sent) :=
    fold_left (check_one lookup) (watched_tx st) (st, [], []) in
  (fold_left (fun st txid => save_state (set_watched_tx st (dict_del (watched_tx st) txid)))
             to_remove st',
   sent).

(** ** The block job (lines 184-204) *)

Definition check_new_block (st : state) (resp : option (response (list block)))
  : state * list notice :=
  match resp with
  | None => (st, [])
  | Some resp =>
      if status_code resp =? 200 then
        match json resp with
        | None | Some [] => (st, [])
        | Some (tip :: _) =>
            let current_height := height tip in
            (mk_state (watched_tx st) (block_notify_users st) (Some current_height)
                      (state_file st),
             match last_block_height st with
             | Some last =>
                 if last <? current_height
                 then (fun chat_id => NewBlock chat_id current_height)
                        <$> elements (block_notify_users st)
                 else []
             | None => []
             end)
        end
      else (st, [])
  end.

(** ** /status (lines 235-248) *)

Definition user_txids (st : state) (chat_id : Z) : list string :=
  (filter (fun item : string * list Watcher.t =>
             existsb (fun w => (Watcher.chat_id w =? chat_id) && negb (Watcher.notified w))
                     item.2 = true)
          (watched_tx st)).*1.

Definition status (st : state) (chat_id : Z) (lookup : string -> option Z) : list reply :=
  match user_txids st chat_id with
  | [] => [NoTransactions]
  | txids => [StatusLines ((fun txid => (txid, lookup txid)) <$> txids)]
  end.

(** ** /remove (lines 250-271) *)

Definition remove (st : state) (args : list string) (chat_id : Z) : state * list reply :=
  match args with
  | [] => (st, [RemoveUsage])
  | arg :: _ =>
      let txid := strip arg in
      if negb (is_valid_txid txid) then (st, [NotATxidToRemove])
      else
        match dict_get (watched_tx st) txid with
        | Some watchers =>
            let before := length watchers in
            let kept := filter (fun w => Watcher.chat_id w <> chat_id) watchers in
            let watched := dict_set (watched_tx st) txid kept in
            let after := length kept in
            let watched := if (after =? 0)%nat then dict_del watched txid else watched in
            (save_state (set_watched_tx st watched),
             [if (before =? after)%nat then NotMonitoring txid else StoppedMonitoring txid])
        | None => (st, [NotMonitoring txid])
        end
  end.

(** ** The handlers and jobs as events (lines 273-294) *)

Inductive event : Type :=
  | Text (text : string) (chat_id : Z) (confirmations : option Z)
  | NotifyBlocks (chat_id : Z)
  | StopBlocks (chat_id : Z)
  | Remove (args : list string) (chat_id : Z)
  | ConfirmationJob (lookup : string -> option Z)
  | BlockJob (resp : option (response (list block))).

Definition step (st : state) (ev : event) : state :=
  match ev with
  | Text text chat_id confirmations => (handle_txid st text chat_id confirmations).1
  | NotifyBlocks chat_id => (notifyblocks st chat_id).1
  | StopBlocks chat_id => (stopblocks st chat_id).1
  | Remove args chat_id => (remove st args chat_id).1
  | ConfirmationJob lookup => (check_confirmations st lookup).1
  | BlockJob resp => (check_new_block st resp).1
  end.

Definition run (evs : list event) : state := fold_left step evs initial.

End Bot.

(** * Notions for the further properties *)

(** ** The chart module *)

(** The textbook recursion of the 0/1 knapsack: a chunk is left out, or,
    when the budget pays for it, taken once. *)
Fixpoint exhaustive (budget_sats : Z) (chunks : list Chunk.t) : Z :=
  match chunks with
  | [] => 0
  | c :: rest =>
      let skip := exhaustive budget_sats rest in
      if Chunk.cost c <=? budget_sats
      then Z.max skip (Chunk.liquidity c + exhaustive (budget_sats - Chunk.cost c) rest)
      else skip
  end.

(** How many chunks a seller has in a list. *)
Definition supply (acct : string) (chunks : list Chunk.t) : nat :=
  length (filter (fun c => Chunk.account c = acct) chunks).

(** The sizes on offer, added up. *)
Definition capacity (offers : list Offer.t) : Z :=
  sum_with (fun o => Z.max 0 (Offer.max_size o)) offers.

(** An offer of positive size and fees that are not negative, whose fee
    product stays below [2 ^ 52], where the fee is exact. *)
Definition modest (o : Offer.t) : Prop :=
  0 < Offer.min_size o
  /\ 0 <= Offer.base_fee o
  /\ 0 <= Offer.fee_rate o
  /\ 0 <= default 0 (Offer.amboss_fee_rate o)
  /\ Offer.min_size o * (Offer.fee_rate o + default 0 (Offer.amboss_fee_rate o)) < 2 ^ 52.

(** A chunk of the same liquidity that costs no more. *)
Definition no_dearer (c c' : Chunk.t) : Prop :=
  Chunk.liquidity c' = Chunk.liquidity c /\ Chunk.cost c' <= Chunk.cost c.

(** Two offers that differ by the identifier at most. *)
Definition same_but_id (o o' : Offer.t) : Prop := set_id (Offer.id o) o' = o.

(** The place of a double that is a number on the line of the doubles:
    the sign first, then the exponent, then the mantissa. *)
Definition rank (x : F64.float) : Z * Z * Z :=
  match x with
  | S754_infinity true => (-2, 0, 0)
  | S754_finite true m e => (-1, - e, - Z.pos m)
  | S754_zero _ | S754_nan => (0, 0, 0)
  | S754_finite false m e => (1, e, Z.pos m)
  | S754_infinity false => (2, 0, 0)
  end.

Definition lex_lt (a b : Z * Z * Z) : Prop :=
  a.1.1 < b.1.1
  \/ (a.1.1 = b.1.1 /\ (a.1.2 < b.1.2 \/ (a.1.2 = b.1.2 /\ a.2 < b.2))).

Definition is_number (x : F64.float) : bool :=
  match x with S754_nan => false | _ => true end.

(** The key of the second is not below the key of the first. *)
Definition ascending {A} (p q : F64.float * A) : Prop :=
  ~ lex_lt (rank q.1) (rank p.1).

(** Keyed lists that agree on the keys and, but for the identifiers, on
    the offers. *)
Definition same_keyed (p q : F64.float * Offer.t) : Prop :=
  p.1 = q.1 /\ same_but_id p.2 q.2.

(** A double that is neither a zero nor a NaN. *)
Definition nonzero_number (x : F64.float) : bool :=
  match x with
  | S754_finite _ _ _ | S754_infinity _ => true
  | S754_zero _ | S754_nan => false
  end.

(** The second seller has no more orders than the first. *)
Definition by_count (a b : string * Z) : Prop := b.2 <= a.2.

(** Offers in range: well formed, with sizes that add up to less than
    [2 ^ 1023] sats, and chunks whose number times their greatest cost
    stays below [2 ^ 1023] as well. *)
Definition in_range (offers : list Offer.t) : Prop :=
  Forall well_formed offers
  /\ capacity offers < 2 ^ 1023
  /\ exists bound,
       Forall (fun c => Chunk.cost c <= bound) (offers ≫= chunks_of true)
       /\ Z.of_nat (length (offers ≫= chunks_of true)) * bound < 2 ^ 1023.

(** ** The bot *)

(** The hexadecimal digits, both cases. *)
Definition hex_digits : list ascii :=
  ["0"; "1"; "2"; "3"; "4"; "5"; "6"; "7"; "8"; "9";
   "a"; "b"; "c"; "d"; "e"; "f"; "A"; "B"; "C"; "D"; "E"; "F"]%char.

Fixpoint characters (s : string) : list ascii :=
  match s with
  | EmptyString => []
  | String c s' => c :: characters s'
  end.

Fixpoint string_drop (n : nat) (s : string) : string :=
  match n, s with
  | S n', String _ s' => string_drop n' s'
  | _, _ => s
  end.

(** The first [n] characters are there and in the class. *)
Fixpoint starts_in (ranges : list (ascii * ascii)) (n : nat) (s : string) : bool :=
  match n, s with
  | O, _ => true
  | S n', String c s' => existsb (Re.in_range c) ranges && starts_in ranges n' s'
  | S _, EmptyString => false
  end.

(** The chats that watch a transaction. *)
Definition watchers_of (st : Bot.state) (txid : string) : list Bot.Watcher.t :=
  default [] (Bot.dict_get (Bot.watched_tx st) txid).

Definition watches (st : Bot.state) (chat_id : Z) (txid : string) : Prop :=
  chat_id ∈ Bot.Watcher.chat_id <$> watchers_of st txid.

#[global] Instance watches_dec st chat_id txid : Decision (watches st chat_id txid).
Proof. unfold watches. apply _. Defined.

(** The watch list is well kept: every key once, every key a transaction
    identifier, no key without a watcher, no chat twice under a key. *)
Definition well_kept (st : Bot.state) : Prop :=
  NoDup (Bot.watched_tx st).*1
  /\ Forall (fun item : string * list Bot.Watcher.t =>
               Bot.is_valid_txid item.1 = true
               /\ item.2 <> []
               /\ NoDup (Bot.Watcher.chat_id <$> item.2))
            (Bot.watched_tx st).

(** The state file holds the watch list and the subscriptions, or there
    is no file and nothing to hold. *)
Definition persisted (st : Bot.state) : Prop :=
  Bot.state_file st = Some (Bot.watched_tx st, Bot.block_notify_users st)
  \/ (Bot.state_file st = None
      /\ Bot.watched_tx st = [] /\ Bot.block_notify_users st = ∅).

(** A transaction has 6 confirmations or more. *)
Definition confirmed (lookup : string -> option Z) (txid : string) : bool :=
  match lookup txid with
  | Some confirmations => 6 <=? confirmations
  | None => false
  end.

(** Some watcher has not been notified. *)
Definition pending (watchers : list Bot.Watcher.t) : bool :=
  negb (forallb Bot.Watcher.notified watchers).

Definition mark_notified (watchers : list Bot.Watcher.t) : list Bot.Watcher.t :=
  (fun w => Bot.Watcher.mk (Bot.Watcher.chat_id w) true) <$> watchers.

(** What a pass makes of an entry it keeps, and what it sends for it. *)
Definition settle (lookup : string -> option Z) (item : string * list Bot.Watcher.t)
  : string * list Bot.Watcher.t :=
  if confirmed lookup item.1 && pending item.2
  then (item.1, mark_notified item.2) else item.

Definition notices_of (lookup : string -> option Z) (item : string * list Bot.Watcher.t)
  : list Bot.notice :=
  if confirmed lookup item.1 && pending item.2
  then (fun w => Bot.Confirmed (Bot.Watcher.chat_id w) item.1)
         <$> filter (fun w => Bot.Watcher.notified w = false) item.2
  else [].

(** The chat is among the watchers and has not been notified. *)
Definition awaits (chat_id : Z) (watchers : list Bot.Watcher.t) : bool :=
  existsb (fun w => (Bot.Watcher.chat_id w =? chat_id) && negb (Bot.Watcher.notified w))
          watchers.

(** ** Sample data for the bot, and the notions decided *)

#[global] Instance watcher_eq_dec : EqDecision Bot.Watcher.t.
Proof. solve_decision. Defined.

#[global] Instance well_kept_dec st : Decision (well_kept st).
Proof. unfold well_kept. apply _. Defined.

(** The coinbase transactions of blocks 0 and 1. *)
Definition sample_txid : string :=
  "4a5e1e4baab89f3a32518a88c31bc87f618f76673e2cc77ab2127b7afdeda33b".

Definition other_txid : string :=
  "0e3e2357e806b6cdb1f70b54c3a3a17b6714ee1f0e68bebb44a74b1efd512098".

Definition tip_at (height : Z) : option (Bot.response (list Bot.block)) :=
  Some (Bot.mk_response 200 (Some [Bot.mk_block height])).

(** Chat 7 watches a transaction and subscribes to blocks, chat 8 watches
    the same transaction, and the block job has seen block 800000. *)
Definition sample_events : list Bot.event :=
  [Bot.Text sample_txid 7 (Some 2); Bot.NotifyBlocks 7;
   Bot.Text sample_txid 8 None; Bot.BlockJob (tip_at 800000)].

Definition sample_state : Bot.state := Bot.run sample_events.

(** The explorer reports 6 confirmations for [sample_txid] and fails for
    every other transaction. *)
Definition sample_lookup (txid : string) : option Z :=
  if decide (txid = sample_txid) then Some 6 else None.

(** * Properties *)

(** ** Doubles *)

Module F64Facts.

(** *** Digits and shifts *)

Lemma digits2_pos_size p : digits2_pos p = Pos.size p.
Proof. induction p; simpl; congruence. Qed.

Lemma Zdigits2_nonneg m : 0 <= Zdigits2 m.
Proof. destruct m; simpl; lia. Qed.

Lemma Zdigits2_lt m : 0 <= m -> m < 2 ^ Zdigits2 m.
Proof.
  destruct m as [|p|p]; simpl; [lia | | lia]. intros _.
  rewrite digits2_pos_size. pose proof (Pos.size_gt p) as H.
  rewrite <-Pos2Z.inj_pow. lia.
Qed.

Lemma Zdigits2_le m k : 0 <= m -> 0 <= k -> m < 2 ^ k -> Zdigits2 m <= k.
Proof.
  destruct m as [|p|p]; simpl; [lia | | lia]. intros _ Hk Hm.
  rewrite digits2_pos_size. pose proof (Pos.size_le p) as H.
  assert (Hlt : 2 ^ Z.pos (Pos.size p) < 2 ^ (k + 1)).
  { rewrite <-Pos2Z.inj_pow. rewrite Z.pow_add_r, Z.pow_1_r by lia. lia. }
  apply Z.pow_lt_mono_r_iff in Hlt; lia.
Qed.

Lemma iter_pos_iter {A} (f : A -> A) p x :
  SpecFloat.iter_pos f p x = Pos.iter f x p.
Proof.
  revert x; induction p as [p IH|p IH|]; intros x; simpl; [|by rewrite !IH|done].
  rewrite !IH. rewrite Pos.iter_swap. f_equal. apply Pos.iter_swap.
Qed.

Lemma shr_1_div2 mrs : 0 <= shr_m mrs -> shr_m (shr_1 mrs) = shr_m mrs / 2.
Proof.
  destruct mrs as [m r s]. simpl. intros Hm. rewrite <-Z.div2_div.
  destruct m as [|[p|p|]|p]; simpl; try reflexivity; lia.
Qed.

Lemma shr_iter_div p mrs :
  0 <= shr_m mrs -> shr_m (SpecFloat.iter_pos shr_1 p mrs) = shr_m mrs / 2 ^ Z.pos p.
Proof.
  intros Hm. rewrite iter_pos_iter.
  induction p as [|p IH] using Pos.peano_ind.
  - simpl. by apply shr_1_div2.
  - rewrite Pos.iter_succ, shr_1_div2.
    + rewrite IH, Pos2Z.inj_succ, Z.pow_succ_r by lia.
      rewrite Z.div_div by (try apply Z.pow_pos_nonneg; lia). f_equal. lia.
    + rewrite IH. apply Z.div_pos; [done | apply Z.pow_pos_nonneg; lia].
Qed.

Lemma shr_record_of_loc_m m l : shr_m (shr_record_of_loc m l) = m.
Proof. by destruct l as [|[]]. Qed.

(** What the first half of rounding leaves: the exponent is raised to the
    least one allowed and the mantissa shifted accordingly. *)
Lemma shr_fexp_spec m e l :
  0 <= m ->
  exists mrs e', shr_fexp F64.prec F64.emax m e l = (mrs, e')
    /\ e' = Z.max e (fexp F64.prec F64.emax (Zdigits2 m + e))
    /\ shr_m mrs = m / 2 ^ (e' - e).
Proof.
  intros Hm. unfold shr_fexp, shr.
  destruct (fexp _ _ (Zdigits2 m + e) - e) as [|p|p] eqn:En.
  - eexists _, _. split; [reflexivity|]. split; [lia|].
    rewrite shr_record_of_loc_m, Z.sub_diag. by rewrite Z.div_1_r.
  - eexists _, _. split; [reflexivity|]. split; [lia|].
    rewrite shr_iter_div by (by rewrite shr_record_of_loc_m).
    rewrite shr_record_of_loc_m. do 2 f_equal. lia.
  - eexists _, _. split; [reflexivity|]. split; [lia|].
    rewrite shr_record_of_loc_m, Z.sub_diag. by rewrite Z.div_1_r.
Qed.

Lemma Zdigits2_shift m k :
  0 <= m -> 0 <= k -> Zdigits2 (m / 2 ^ k) <= Z.max 0 (Zdigits2 m - k).
Proof.
  intros Hm Hk. pose proof (Zdigits2_lt m Hm) as Hlt.
  pose proof (Zdigits2_nonneg m) as Hd.
  assert (H2k : 0 < 2 ^ k) by (apply Z.pow_pos_nonneg; lia).
  apply Zdigits2_le; [apply Z.div_pos; lia | lia |].
  apply Z.div_lt_upper_bound; [done|].
  rewrite <-Z.pow_add_r by lia.
  eapply Z.lt_le_trans; [exact Hlt|]. apply Z.pow_le_mono_r; lia.
Qed.

Lemma round_nearest_even_bounds m l :
  0 <= m -> m <= round_nearest_even m l <= m + 1.
Proof. intros Hm. destruct l as [|[]]; simpl; try destruct (Z.even m); lia. Qed.

Lemma round_aux_number s mx ex lx :
  0 <= mx ->
  binary_round_aux F64.prec F64.emax s mx ex lx <> S754_nan.
Proof.
  intros Hm. unfold binary_round_aux.
  destruct (shr_fexp_spec mx ex lx Hm) as (mrs1 & e1 & -> & He1 & Hm1).
  assert (H1 : 0 <= shr_m mrs1).
  { rewrite Hm1. apply Z.div_pos; [done | apply Z.pow_pos_nonneg; lia]. }
  pose proof (round_nearest_even_bounds (shr_m mrs1) (loc_of_shr_record mrs1) H1) as Hr.
  destruct (shr_fexp_spec (round_nearest_even (shr_m mrs1) (loc_of_shr_record mrs1)) e1 loc_Exact)
    as (mrs2 & e2 & -> & He2 & Hm2); [lia|].
  assert (H2 : 0 <= shr_m mrs2).
  { rewrite Hm2. apply Z.div_pos; [lia | apply Z.pow_pos_nonneg; lia]. }
  destruct (shr_m mrs2); try destruct (_ <=? _); try discriminate. lia.
Qed.

Lemma round_aux_finite s mx ex lx :
  0 <= mx -> Zdigits2 mx + ex <= 1023 -> ex <= 970 ->
  F64.is_finite (binary_round_aux F64.prec F64.emax s mx ex lx) = true.
Proof.
  intros Hm Hd He. unfold binary_round_aux.
  destruct (shr_fexp_spec mx ex lx Hm) as (mrs1 & e1 & -> & He1 & Hm1).
  assert (H1 : 0 <= shr_m mrs1).
  { rewrite Hm1. apply Z.div_pos; [done | apply Z.pow_pos_nonneg; lia]. }
  pose proof (round_nearest_even_bounds (shr_m mrs1) (loc_of_shr_record mrs1) H1) as Hr.
  set (mr := round_nearest_even (shr_m mrs1) (loc_of_shr_record mrs1)) in *.
  destruct (shr_fexp_spec mr e1 loc_Exact) as (mrs2 & e2 & -> & He2 & Hm2); [lia|].
  assert (H2 : 0 <= shr_m mrs2).
  { rewrite Hm2. apply Z.div_pos; [lia | apply Z.pow_pos_nonneg; lia]. }
  unfold fexp, emin, F64.prec, F64.emax in *.
  assert (Hd1 : Zdigits2 (shr_m mrs1) + e1 <= 1023).
  { rewrite Hm1. pose proof (Zdigits2_shift mx (e1 - ex) Hm). lia. }
  assert (Hdr : Zdigits2 mr <= Zdigits2 (shr_m mrs1) + 1).
  { pose proof (Zdigits2_nonneg (shr_m mrs1)).
    apply Zdigits2_le; [lia | lia |].
    pose proof (Zdigits2_lt (shr_m mrs1) H1). rewrite Z.pow_add_r, Z.pow_1_r by lia. lia. }
  destruct (shr_m mrs2); [done | | lia].
  by replace (e2 <=? 1024 - 53) with true by (symmetry; apply Z.leb_le; lia).
Qed.

Lemma round_aux_sign s mx ex lx :
  match binary_round_aux F64.prec F64.emax s mx ex lx with
  | S754_zero s' | S754_finite s' _ _ | S754_infinity s' => s' = s
  | S754_nan => True
  end.
Proof.
  unfold binary_round_aux.
  destruct (shr_fexp _ _ mx ex lx) as [mrs e1].
  destruct (shr_fexp _ _ _ e1 loc_Exact) as [mrs2 e2].
  destruct (shr_m mrs2); try destruct (_ <=? _); auto.
Qed.

Lemma round_1e8 :
  F64.round_Z 100000000 = S754_finite false 6710886400000000 (-26).
Proof. reflexivity. Qed.

Lemma to_int_floor x :
  nonneg_number x = true -> F64.is_finite x = true ->
  F64.to_int x = Ok (F64.floor x) /\ 0 <= F64.floor x.
Proof.
  destruct x as [s| s | |s m e]; simpl; try discriminate; intros Hs _.
  - split; [reflexivity | lia].
  - destruct s; [discriminate|]. simpl.
    destruct (0 <=? e) eqn:He; split; try reflexivity.
    + apply Z.mul_nonneg_nonneg; [lia | apply Z.pow_nonneg; lia].
    + apply Z.div_pos; [lia | apply Z.pow_pos_nonneg; lia].
Qed.

Lemma div_sign x y :
  F64.leb (S754_zero false) x = true -> F64.gt0 y = true ->
  nan_or_nonneg (SFdiv F64.prec F64.emax x y) = true.
Proof.
  destruct x as [sx|[]| |[] mx ex]; destruct y as [sy|[]| |[] my ey];
    try discriminate; intros _ _; simpl; auto.
  destruct (SFdiv_core_binary _ _ _ _ _ _) as [[mz ez] lz].
  pose proof (round_aux_sign false mz ez lz) as H.
  destruct (binary_round_aux _ _ _ _ _ _); simpl; subst; auto.
Qed.

Lemma mul_sign x m e :
  nan_or_nonneg x = true ->
  nan_or_nonneg (F64.mul x (S754_finite false m e)) = true.
Proof.
  destruct x as [sx|[]| |[] mx ex]; simpl; auto; try discriminate.
  intros _.
  pose proof (round_aux_sign false (Z.pos (mx * m)) (ex + e) loc_Exact) as H.
  destruct (binary_round_aux _ _ _ _ _ _); simpl; subst; auto.
Qed.

(** *** Division of integers *)

Lemma div_core_bounds a b :
  0 < a -> 0 < b ->
  exists q e l, SFdiv_core_binary F64.prec F64.emax a 0 b 0 = (q, e, l)
    /\ 0 <= q /\ e <= 0 /\ Zdigits2 q + e <= Zdigits2 a.
Proof.
  intros Ha Hb. unfold SFdiv_core_binary.
  set (e' := Z.min _ _).
  assert (He' : e' <= 0) by (subst e'; lia).
  set (m' := match 0 - 0 - e' with Z.pos _ => _ | 0 => a | Z.neg _ => 0 end).
  assert (Hm' : m' = a * 2 ^ (- e')).
  { subst m'. destruct (0 - 0 - e') as [|p|p] eqn:E.
    - replace (- e') with 0 by lia. lia.
    - rewrite Z.shiftl_mul_pow2 by lia. do 2 f_equal. lia.
    - lia. }
  pose proof (Z.div_eucl_eq m' b ltac:(lia)) as Heq.
  pose proof (Z.mod_pos_bound m' b Hb) as Hmod. unfold Z.modulo in Hmod.
  destruct (Z.div_eucl m' b) as [q r].
  exists q, e', (new_location b r). split; [reflexivity|].
  assert (H2 : 0 < 2 ^ (- e')) by (apply Z.pow_pos_nonneg; lia).
  assert (Hm0 : 0 <= m') by nia.
  assert (Hq : 0 <= q) by nia.
  split; [done|]. split; [done|].
  pose proof (Zdigits2_nonneg a) as Hda.
  assert (Zdigits2 q <= Zdigits2 a + - e'); [|lia].
  apply Zdigits2_le; [done | lia |].
  pose proof (Zdigits2_lt a ltac:(lia)) as Hlt.
  rewrite Z.pow_add_r by lia. nia.
Qed.

Lemma truediv_int_nonneg a b :
  0 <= a < 2 ^ 1023 -> 0 < b ->
  exists x, F64.truediv_int a b = Ok x
    /\ F64.is_finite x = true /\ nonneg_number x = true.
Proof.
  intros [Ha Hbound] Hb. unfold F64.truediv_int.
  destruct (Z.eqb_spec b 0) as [|_]; [lia|].
  replace (a <? 0) with false by (symmetry; apply Z.ltb_ge; lia).
  replace (b <? 0) with false by (symmetry; apply Z.ltb_ge; lia).
  simpl xorb.
  destruct (Z.eqb_spec a 0) as [|Hne]; [by eexists|].
  rewrite !Z.abs_eq by lia.
  destruct (div_core_bounds a b) as (q & e & l & -> & Hq & He & Hd); [lia | lia |].
  assert (Hda : Zdigits2 a <= 1023) by (apply Zdigits2_le; lia).
  pose proof (round_aux_finite false q e l Hq ltac:(lia) ltac:(lia)) as Hfin.
  pose proof (round_aux_sign false q e l) as Hsign.
  destruct (binary_round_aux _ _ _ _ _ _) as [s|s| |s m e'];
    try discriminate; subst; by eexists.
Qed.

Lemma to_int_nonneg x :
  F64.is_finite x = true -> nonneg_number x = true ->
  exists n, F64.to_int x = Ok n /\ 0 <= n.
Proof.
  intros Hfin Hs. destruct (to_int_floor x Hs Hfin) as [-> Hn]. eauto.
Qed.


(** *** Doubles that are not negative *)

Lemma round_aux_nonneg mx ex lx :
  0 <= mx -> nonneg_number (binary_round_aux F64.prec F64.emax false mx ex lx) = true.
Proof.
  intros Hm. pose proof (round_aux_sign false mx ex lx) as Hs.
  pose proof (round_aux_number false mx ex lx Hm) as Hn.
  destruct (binary_round_aux _ _ _ _ _ _); simpl; subst; done.
Qed.

Lemma round_Z_nonneg a : 0 <= a -> nonneg_number (F64.round_Z a) = true.
Proof.
  destruct a as [|m|m]; [done | | lia]. intros _.
  unfold F64.round_Z, binary_normalize, binary_round.
  destruct (shl_align _ _ _) as [mz ez]. by apply round_aux_nonneg.
Qed.

Lemma div_core_nonneg mx ex my ey :
  0 <= (SFdiv_core_binary F64.prec F64.emax (Z.pos mx) ex (Z.pos my) ey).1.1.
Proof.
  unfold SFdiv_core_binary.
  set (m' := match _ - _ - _ with Z.pos _ => _ | 0 => _ | Z.neg _ => _ end).
  assert (Hm' : 0 <= m').
  { subst m'. destruct (_ - _ - _); [lia | | lia]. apply Z.shiftl_nonneg. lia. }
  pose proof (Z.div_pos m' (Z.pos my) Hm' ltac:(lia)) as Hq. unfold Z.div in Hq.
  by destruct (Z.div_eucl m' (Z.pos my)).
Qed.

Lemma mul_nonneg x m e :
  nonneg_number x = true ->
  nonneg_number (F64.mul x (S754_finite false m e)) = true.
Proof.
  destruct x as [sx|[]| |[] mx ex]; simpl; try done.
  intros _. by apply round_aux_nonneg.
Qed.

Lemma div_nonneg x m e :
  nonneg_number x = true ->
  nonneg_number (SFdiv F64.prec F64.emax x (S754_finite false m e)) = true.
Proof.
  destruct x as [sx|[]| |[] mx ex]; simpl; try done.
  intros _. pose proof (div_core_nonneg mx ex m e) as Hq.
  destruct (SFdiv_core_binary _ _ _ _ _ _) as [[q e'] l]. by apply round_aux_nonneg.
Qed.

Lemma gt0_nonzero x :
  nonneg_number x = true -> F64.gt0 x = negb (F64.is_zero x).
Proof. by destruct x as [s|[]| |[] m e]. Qed.

Lemma positive_finite x :
  F64.gt0 x = true -> F64.is_finite x = true -> exists m e, x = S754_finite false m e.
Proof. destruct x as [s|[]| |[] m e]; try done. by eexists _, _. Qed.


(** *** Rounding in the normal range *)

Lemma Zdigits2_lower m : 0 < m -> 2 ^ (Zdigits2 m - 1) <= m.
Proof.
  destruct m as [|p|p]; simpl; [lia | | lia]. intros _.
  rewrite digits2_pos_size. pose proof (Pos.size_le p) as H.
  assert (Hpow : 2 ^ Z.pos (Pos.size p) = 2 * 2 ^ (Z.pos (Pos.size p) - 1)).
  { rewrite <-Z.pow_succ_r by lia. f_equal. lia. }
  assert (H' : 2 ^ Z.pos (Pos.size p) <= 2 * Z.pos p).
  { rewrite <-Pos2Z.inj_pow. lia. }
  lia.
Qed.

Lemma Zdigits2_ge m k : 0 <= k -> 2 ^ k <= m -> k + 1 <= Zdigits2 m.
Proof.
  intros Hk Hm. assert (Hpos : 0 < 2 ^ k) by (apply Z.pow_pos_nonneg; lia).
  pose proof (Zdigits2_lt m ltac:(lia)) as Hlt.
  pose proof (Zdigits2_nonneg m) as Hd.
  assert (H : 2 ^ k < 2 ^ Zdigits2 m) by lia.
  apply Z.pow_lt_mono_r_iff in H; lia.
Qed.

(** A mantissa of 53 or 54 bits is rounded to 53 bits: the result is
    finite and worth [mr * 2 ^ (ex + n)], for a [mr] next to [mx / 2 ^ n],
    where [n] counts the bits dropped. *)
Lemma round_aux_normal s mx ex lx :
  2 ^ 52 <= mx < 2 ^ 54 -> -1000 <= ex <= 900 ->
  exists mr m e2,
    binary_round_aux F64.prec F64.emax s mx ex lx = S754_finite s m e2
    /\ mx / 2 ^ (Zdigits2 mx - 53) <= mr <= mx / 2 ^ (Zdigits2 mx - 53) + 1
    /\ 0 <= e2 - (ex + (Zdigits2 mx - 53)) <= 1
    /\ Z.pos m * 2 ^ (e2 - (ex + (Zdigits2 mx - 53))) = mr.
Proof.
  intros [Hlo Hhi] Hex. unfold binary_round_aux.
  assert (Hd : 53 <= Zdigits2 mx <= 54).
  { split; [apply (Zdigits2_ge mx 52); lia | apply Zdigits2_le; lia]. }
  destruct (shr_fexp_spec mx ex lx ltac:(lia)) as (mrs1 & e1 & -> & He1 & Hm1).
  unfold fexp, emin, F64.prec, F64.emax in He1.
  assert (He1' : e1 = ex + (Zdigits2 mx - 53)) by lia.
  rewrite He1' in Hm1.
  replace (ex + (Zdigits2 mx - 53) - ex) with (Zdigits2 mx - 53) in Hm1 by lia.
  assert (Hm1b : 2 ^ 52 <= shr_m mrs1 < 2 ^ 53).
  { rewrite Hm1. pose proof (Zdigits2_lt mx ltac:(lia)) as Hlt.
    pose proof (Zdigits2_lower mx ltac:(lia)) as Hge.
    assert (Hn : Zdigits2 mx = 53 \/ Zdigits2 mx = 54) by lia.
    destruct Hn as [Hn|Hn]; rewrite Hn in *.
    - change (2 ^ (53 - 53)) with 1. rewrite Z.div_1_r.
      change (2 ^ (53 - 1)) with (2 ^ 52) in Hge. lia.
    - change (2 ^ (54 - 53)) with 2. change (2 ^ (54 - 1)) with (2 ^ 53) in Hge.
      split; [apply Z.div_le_lower_bound | apply Z.div_lt_upper_bound]; lia. }
  pose proof (round_nearest_even_bounds (shr_m mrs1) (loc_of_shr_record mrs1) ltac:(lia)) as Hr.
  set (mr := round_nearest_even (shr_m mrs1) (loc_of_shr_record mrs1)) in *.
  destruct (shr_fexp_spec mr e1 loc_Exact) as (mrs2 & e2 & -> & He2 & Hm2); [lia|].
  unfold fexp, emin, F64.prec, F64.emax in He2.
  assert (Hdr : 53 <= Zdigits2 mr <= 54).
  { split; [apply (Zdigits2_ge mr 52); lia | apply Zdigits2_le; lia]. }
  assert (Hn2 : e2 - e1 = Zdigits2 mr - 53) by lia.
  assert (Hexact : shr_m mrs2 * 2 ^ (e2 - e1) = mr /\ 2 ^ 51 <= shr_m mrs2).
  { rewrite Hm2, Hn2.
    assert (Hc : Zdigits2 mr = 53 \/ Zdigits2 mr = 54) by lia.
    destruct Hc as [Hc|Hc]; rewrite Hc.
    - change (2 ^ (53 - 53)) with 1. rewrite Z.div_1_r. lia.
    - pose proof (Zdigits2_lower mr ltac:(lia)) as Hge. rewrite Hc in Hge.
      change (2 ^ (54 - 1)) with (2 ^ 53) in Hge.
      assert (mr = 2 ^ 53) as -> by lia. done. }
  destruct Hexact as [Hexact Hpos].
  destruct (shr_m mrs2) as [|m|m] eqn:Em; [lia| |lia].
  unfold F64.emax, F64.prec.
  replace (e2 <=? 1024 - 53) with true by (symmetry; apply Z.leb_le; lia).
  exists mr, m, e2. split; [done|]. rewrite Hm1 in Hr.
  split; [lia|]. split; [lia|]. rewrite <-Hexact. do 2 f_equal. lia.
Qed.

Lemma div_core_eq a b :
  0 < a -> 0 < b ->
  SFdiv_core_binary F64.prec F64.emax a 0 b 0
  = (let e' := Z.min (fexp F64.prec F64.emax (Zdigits2 a - Zdigits2 b)) 0 in
     let m' := a * 2 ^ (- e') in
     (m' / b, e', new_location b (m' mod b))).
Proof.
  intros Ha Hb. unfold SFdiv_core_binary.
  replace (Zdigits2 a + 0 - (Zdigits2 b + 0)) with (Zdigits2 a - Zdigits2 b) by lia.
  change (0 - 0) with 0.
  set (e' := Z.min _ 0). assert (He' : e' <= 0) by (subst e'; lia).
  cbv zeta.
  assert (Hm' : match 0 - e' with
                | Z.pos _ => Z.shiftl a (0 - e')
                | 0 => a
                | Z.neg _ => 0
                end = a * 2 ^ (- e')).
  { destruct (0 - e') as [|p|p] eqn:E.
    - replace (- e') with 0 by lia. lia.
    - rewrite Z.shiftl_mul_pow2 by lia. do 2 f_equal. lia.
    - lia. }
  rewrite Hm'. unfold Z.div, Z.modulo.
  by destruct (Z.div_eucl (a * 2 ^ (- e')) b).
Qed.

(** Below [2 ^ 52] the fee in parts per million is the integer floor. *)
Lemma truediv_million_floor a :
  0 <= a < 2 ^ 52 ->
  exists x, F64.truediv_int a 1000000 = Ok x /\ F64.to_int x = Ok (a / 1000000).
Proof.
  intros [Ha Hbound].
  destruct (Z.eq_dec a 0) as [->|Hne]; [by eexists|].
  unfold F64.truediv_int. change (1000000 =? 0) with false.
  replace (a <? 0) with false by (symmetry; apply Z.ltb_ge; lia).
  replace (a =? 0) with false by (symmetry; apply Z.eqb_neq; lia).
  change (1000000 <? 0) with false. simpl xorb. cbv iota.
  rewrite Z.abs_eq by lia. change (Z.abs 1000000) with 1000000.
  rewrite div_core_eq by lia. cbv zeta.
  change (Zdigits2 1000000) with 20.
  pose proof (Zdigits2_lt a Ha) as Hlt.
  pose proof (Zdigits2_lower a ltac:(lia)) as Hge.
  assert (Hd : 1 <= Zdigits2 a <= 52).
  { split; [apply (Zdigits2_ge a 0); simpl; lia | apply Zdigits2_le; lia]. }
  assert (He' : Z.min (fexp F64.prec F64.emax (Zdigits2 a - 20)) 0 = Zdigits2 a - 73).
  { unfold fexp, emin, F64.prec, F64.emax. lia. }
  rewrite He'. clear He'.
  replace (- (Zdigits2 a - 73)) with (73 - Zdigits2 a) by lia.
  set (d := Zdigits2 a) in *. set (P := 2 ^ (73 - d)).
  assert (HP : 2 ^ 21 <= P) by (apply Z.pow_le_mono_r; lia).
  assert (HA : 2 ^ 72 <= a * P < 2 ^ 73).
  { assert (E1 : 2 ^ 72 = 2 ^ (d - 1) * P).
    { subst P. rewrite <-Z.pow_add_r by lia. f_equal. lia. }
    assert (E2 : 2 ^ 73 = 2 ^ d * P).
    { subst P. rewrite <-Z.pow_add_r by lia. f_equal. lia. }
    rewrite E1, E2. split; [apply Z.mul_le_mono_nonneg_r | apply Z.mul_lt_mono_pos_r]; lia. }
  set (q := a * P / 1000000).
  assert (Hq : 2 ^ 52 <= q < 2 ^ 54).
  { subst q. split.
    - apply Z.div_le_lower_bound; [lia|]. eapply Z.le_trans; [|apply HA]. done.
    - apply Z.div_lt_upper_bound; [lia|]. eapply Z.lt_le_trans; [apply HA|]. done. }
  destruct (round_aux_normal false q (d - 73) (new_location 1000000 (a * P mod 1000000)))
    as (mr & m & e2 & -> & Hmr & He2 & Hval); [done | lia |].
  eexists. split; [reflexivity|].
  assert (Hn : Zdigits2 q - 53 = 0 \/ Zdigits2 q - 53 = 1).
  { pose proof (Zdigits2_ge q 52 ltac:(lia) ltac:(lia)).
    pose proof (Zdigits2_le q 54 ltac:(lia) ltac:(lia) ltac:(lia)). lia. }
  set (n := Zdigits2 q - 53) in *. set (j := e2 - (d - 73 + n)) in *.
  set (t := 73 - d - n).
  assert (Ht : 20 <= t) by (subst t; lia).
  assert (He2' : - e2 = t - j) by (subst t j; lia).
  unfold F64.to_int. replace (0 <=? e2) with false by (symmetry; apply Z.leb_gt; lia).
  simpl cond_Zopp. f_equal. rewrite He2'.
  assert (HT : 0 < 2 ^ (t - j)) by (apply Z.pow_pos_nonneg; lia).
  assert (Hj : 0 < 2 ^ j) by (apply Z.pow_pos_nonneg; lia).
  assert (Hdiv : Z.pos m / 2 ^ (t - j) = mr / 2 ^ t).
  { rewrite <-Hval. replace t with ((t - j) + j) at 2 by lia.
    rewrite Z.pow_add_r by lia. by rewrite Z.div_mul_cancel_r by lia. }
  rewrite Hdiv. clear Hdiv Hval He2 He2' HT Hj.
  set (k := a / 1000000).
  assert (Hk : 1000000 * k <= a <= 1000000 * k + 999999).
  { pose proof (Z.div_mod a 1000000 ltac:(lia)).
    pose proof (Z.mod_pos_bound a 1000000 ltac:(lia)). subst k. lia. }
  set (T := 2 ^ t) in *. set (N := 2 ^ n) in *.
  assert (HPTN : P = T * N).
  { subst P T N. rewrite <-Z.pow_add_r by lia. f_equal. lia. }
  assert (HN : N = 1 \/ N = 2) by (subst N; destruct Hn as [->| ->]; auto).
  assert (HTpos : 0 < T) by (apply Z.pow_pos_nonneg; lia).
  assert (Hq1 : 1000000 * q <= a * P < 1000000 * q + 1000000).
  { pose proof (Z.div_mod (a * P) 1000000 ltac:(lia)).
    pose proof (Z.mod_pos_bound (a * P) 1000000 ltac:(lia)). subst q. lia. }
  assert (Hq2 : N * (q / N) <= q < N * (q / N) + N).
  { pose proof (Z.div_mod q N ltac:(lia)).
    pose proof (Z.mod_pos_bound q N ltac:(lia)). lia. }
  assert (HP2 : 2000000 < P) by (change (2 ^ 21) with 2097152 in HP; lia).
  symmetry. apply Z.div_unique with (r := mr - k * T).
  - left. split.
    + assert (k * T <= q / N); [|lia]. nia.
    + assert (q / N + 1 < (k + 1) * T); [|lia]. nia.
  - lia.
Qed.

End F64Facts.

(** Boolean comparisons decided by linear arithmetic. *)
Ltac zbool :=
  lazymatch goal with
  | |- false = (_ <? _) => symmetry; apply Z.ltb_ge; lia
  | |- true = (_ <? _) => symmetry; apply Z.ltb_lt; lia
  | |- false = (_ <=? _) => symmetry; apply Z.leb_gt; lia
  | |- true = (_ <=? _) => symmetry; apply Z.leb_le; lia
  | |- false = (_ =? _) => symmetry; apply Z.eqb_neq; lia
  | |- true = (_ =? _) => symmetry; apply Z.eqb_eq; lia
  | |- true = (_ && _) => symmetry; apply andb_true_iff; lia
  | |- false = (_ && _) => symmetry; apply andb_false_iff; lia
  end.

(** ** The result monad and loops *)

Lemma bind_Ok {A B} (m : result A) (f : A -> result B) b :
  (m ≫= f) = Ok b <-> exists a, m = Ok a /\ f a = Ok b.
Proof.
  destruct m as [a|e]; simpl; split.
  - eauto.
  - intros (a' & [= <-] & H); exact H.
  - discriminate.
  - intros (a' & [=] & _).
Qed.

(** A loop invariant that knows which elements were visited, last first. *)
Lemma for_each_seen {A S} (P : list A -> S -> Prop) (body : S -> A -> result S) xs :
  (forall seen x s, x ∈ xs -> P seen s -> exists s', body s x = Ok s' /\ P (x :: seen) s') ->
  forall seen s, P seen s ->
  exists s', for_each body xs s = Ok s' /\ P (rev xs ++ seen) s'.
Proof.
  induction xs as [|x xs IH]; intros Hstep seen s Hs; simpl.
  - eauto.
  - destruct (Hstep seen x s) as (s1 & -> & H1); [left | assumption |]. simpl.
    destruct (IH (fun seen x s Hx => Hstep seen x s (list_elem_of_further _ _ _ Hx)) (x :: seen) s1 H1)
      as (s2 & -> & H2).
    exists s2. split; [reflexivity|]. by rewrite <-app_assoc.
Qed.

Lemma for_each_preserves {A S} (P : S -> Prop) (body : S -> A -> result S) xs :
  (forall s x s', P s -> body s x = Ok s' -> P s') ->
  forall s s', P s -> for_each body xs s = Ok s' -> P s'.
Proof.
  intros Hstep. induction xs as [|x xs IH]; intros s s' Hs; simpl.
  - by intros [= <-].
  - destruct (body s x) as [s1|] eqn:E; [simpl|done]. eauto.
Qed.

(** ** Indexing *)

Lemma py_getitem_lookup {A} (l : list A) (i : Z) x :
  0 <= i -> l !! Z.to_nat i = Some x -> py_getitem l i = Ok x.
Proof.
  intros Hi Hl. pose proof (lookup_lt_Some _ _ _ Hl) as Hlt.
  unfold py_getitem, py_norm_index.
  replace (i <? 0) with false by zbool.
  replace ((0 <=? i) && (i <? Z.of_nat (length l))) with true
    by zbool.
  by rewrite Hl.
Qed.

Lemma py_setitem_insert {A} (l : list A) (i : Z) x :
  0 <= i < Z.of_nat (length l) -> py_setitem l i x = Ok (<[Z.to_nat i := x]> l).
Proof.
  intros Hi. unfold py_setitem, py_norm_index.
  replace (i <? 0) with false by zbool.
  by replace ((0 <=? i) && (i <? Z.of_nat (length l))) with true
    by zbool.
Qed.

Lemma py_getitem_out_of_range {A} (l : list A) (i : Z) :
  Z.of_nat (length l) <= i -> py_getitem l i = Raise IndexError.
Proof.
  intros Hi. unfold py_getitem, py_norm_index.
  destruct (i <? 0) eqn:E; [lia|].
  by replace ((0 <=? i) && (i <? Z.of_nat (length l))) with false
    by zbool.
Qed.

(** ** The inner loop *)

Section InnerLoop.
Variable budget_sats : Z.
Variable chunk : Chunk.t.
Variable dp : list cell.
Hypothesis budget_nonneg : 0 <= budget_sats.
Hypothesis cost_nonneg : 0 <= Chunk.cost chunk.
Hypothesis dp_length : length dp = Z.to_nat (budget_sats + 1).

Lemma relax_half_done (s : nat) dpk :
  Chunk.cost chunk <= budget_sats - Z.of_nat s ->
  half_done budget_sats chunk dp s dpk ->
  exists dpk', relax chunk dpk (budget_sats - Z.of_nat s) = Ok dpk'
    /\ half_done budget_sats chunk dp (S s) dpk'.
Proof.
  intros Hs [Hlen Hk].
  remember (budget_sats - Z.of_nat s) as b0 eqn:Eb0.
  assert (Hb0 : (Z.to_nat b0 < length dp)%nat) by lia.
  destruct (lookup_lt_is_Some_2 dp (Z.to_nat b0) Hb0) as [cur Hcur].
  assert (Hp : (Z.to_nat (b0 - Chunk.cost chunk) < length dp)%nat) by lia.
  destruct (lookup_lt_is_Some_2 dp _ Hp) as [[pl po] Hprev].
  assert (Hcur' : dpk !! Z.to_nat b0 = Some cur).
  { rewrite Hk. rewrite decide_False by lia. exact Hcur. }
  assert (Hprev' : dpk !! Z.to_nat (b0 - Chunk.cost chunk) = Some (pl, po)).
  { rewrite Hk. rewrite decide_False by lia. exact Hprev. }
  assert (Hrel : relaxed chunk dp (Z.to_nat b0)
                 = Some (if cur.1 <? pl + Chunk.liquidity chunk
                         then (pl + Chunk.liquidity chunk,
                               add_order (Chunk.account chunk) po)
                         else cur)).
  { unfold relaxed. rewrite Hcur. simpl.
    replace (Z.of_nat (Z.to_nat b0) <? Chunk.cost chunk) with false by zbool.
    replace (Z.of_nat (Z.to_nat b0)) with b0 by lia.
    rewrite Hprev. simpl. by destruct (cur.1 <? _). }
  unfold relax.
  rewrite (py_getitem_lookup dpk (b0 - Chunk.cost chunk) (pl, po)) by (lia || done).
  simpl.
  rewrite (py_getitem_lookup dpk b0 cur) by (lia || done).
  simpl.
  destruct (cur.1 <? pl + Chunk.liquidity chunk) eqn:Hcmp.
  - rewrite py_setitem_insert by lia.
    eexists; split; [reflexivity|]. split; [by rewrite length_insert|].
    intros b. destruct (decide (b = Z.to_nat b0)) as [->|Hne].
    + rewrite list_lookup_insert_eq by lia.
      rewrite decide_True by lia. by rewrite Hrel.
    + rewrite list_lookup_insert_ne by done. rewrite Hk.
      destruct (decide (b0 < Z.of_nat b));
        [rewrite decide_True by lia | rewrite decide_False by lia]; done.
  - eexists; split; [reflexivity|]. split; [done|].
    intros b. destruct (decide (b = Z.to_nat b0)) as [->|Hne].
    + rewrite decide_True by lia. by rewrite Hrel.
    + rewrite Hk.
      destruct (decide (b0 < Z.of_nat b));
        [rewrite decide_True by lia | rewrite decide_False by lia]; done.
Qed.

Lemma add_chunk_loop (m s : nat) dpk :
  ((0 < m)%nat -> Z.of_nat (s + m) <= budget_sats - Chunk.cost chunk + 1) ->
  half_done budget_sats chunk dp s dpk ->
  exists dp', for_each (relax chunk)
                ((fun k => budget_sats - Z.of_nat k) <$> seq s m) dpk = Ok dp'
    /\ half_done budget_sats chunk dp (s + m) dp'.
Proof.
  revert s dpk; induction m as [|m IH]; intros s dpk Hm Hk; simpl.
  - exists dpk. by rewrite Nat.add_0_r.
  - destruct (relax_half_done s dpk) as (dpk' & -> & Hk'); [lia | done |].
    simpl. destruct (IH (S s) dpk') as (dp' & Hdp' & Hfin); [lia | done |].
    exists dp'. split; [done|]. by replace (s + S m)%nat with (S s + m)%nat by lia.
Qed.

Lemma add_chunk_relaxed :
  exists dp', add_chunk budget_sats dp chunk = Ok dp'
    /\ length dp' = length dp
    /\ forall b : nat, (b < length dp)%nat -> dp' !! b = relaxed chunk dp b.
Proof.
  unfold add_chunk, range_down.
  remember (Z.to_nat (budget_sats - (Chunk.cost chunk - 1))) as m eqn:Em.
  destruct (add_chunk_loop m 0 dp) as (dp' & Hdp' & Hlen & Hfin).
  { lia. }
  { split; [done|]. intros b. case_decide; [|done].
    unfold relaxed. by rewrite (lookup_ge_None_2 dp b) by lia. }
  exists dp'. split; [exact Hdp'|]. split; [done|].
  intros b Hb. rewrite Hfin. simpl.
  destruct (decide (budget_sats - Z.of_nat m < Z.of_nat b)) as [|Hlow]; [done|].
  destruct (lookup_lt_is_Some_2 dp b Hb) as [cur Hcur].
  unfold relaxed. rewrite Hcur. simpl.
  by replace (Z.of_nat b <? Chunk.cost chunk) with true by zbool.
Qed.

End InnerLoop.

(** ** Selections of chunks *)

#[global] Instance sum_with_perm {A} (f : A -> Z) :
  Proper ((≡ₚ) ==> (=)) (sum_with f).
Proof. induction 1; simpl; lia. Qed.

Lemma sum_with_nonneg {A} (f : A -> Z) l :
  Forall (fun x => 0 <= f x) l -> 0 <= sum_with f l.
Proof. induction 1; simpl; lia. Qed.

Lemma add_order_comm a b (m : gmap string Z) :
  add_order a (add_order b m) = add_order b (add_order a m).
Proof.
  unfold add_order. destruct (decide (a = b)) as [->|Hne]; [done|].
  rewrite !lookup_insert_ne by done. by apply insert_insert_ne.
Qed.

#[global] Instance orders_of_perm : Proper ((≡ₚ) ==> (=)) orders_of.
Proof.
  induction 1; simpl; try congruence. apply add_order_comm.
Qed.

Lemma submseteq_Forall {A} (P : A -> Prop) (l k : list A) :
  l ⊆+ k -> Forall P k -> Forall P l.
Proof.
  intros Hlk Hk. apply Forall_forall. intros x Hx.
  rewrite Forall_forall in Hk. eauto using elem_of_submseteq.
Qed.

Lemma feasible_nil b chunks : 0 <= b -> feasible b chunks [].
Proof. intros Hb. split; [apply submseteq_nil_l | simpl; lia]. Qed.

Lemma feasible_mono b b' chunks chunks' sel :
  b <= b' -> chunks ⊆+ chunks' -> feasible b chunks sel -> feasible b' chunks' sel.
Proof. intros Hb Hsub [Hs Hc]. split; [by trans chunks | lia]. Qed.

Lemma feasible_cons b chunks chunk sel :
  feasible b chunks sel -> feasible b (chunk :: chunks) sel.
Proof. intros [Hs Hc]. split; [by apply submseteq_cons | done]. Qed.

(** ** One chunk more *)

Lemma cell_ok_skip seen chunk b cur :
  Forall (fun c => 0 <= Chunk.cost c) seen ->
  b < Chunk.cost chunk ->
  cell_ok seen b cur -> cell_ok (chunk :: seen) b cur.
Proof.
  intros Hnn Hb [(sel & Hsel & Hliq & Hord) Hbest]. split.
  - exists sel. split; [by apply feasible_cons | done].
  - intros sel' [Hsub Hcost]. apply submseteq_cons_r in Hsub as [Hsub|(l' & Hp & Hsub)].
    + by apply Hbest.
    + rewrite Hp in Hcost. simpl in Hcost.
      pose proof (sum_with_nonneg Chunk.cost l' (submseteq_Forall _ _ _ Hsub Hnn)).
      unfold total_cost in Hcost. lia.
Qed.

Lemma cell_ok_take seen chunk b cur pl po :
  Forall (fun c => 0 <= Chunk.cost c) seen ->
  Chunk.cost chunk <= b ->
  cell_ok seen b cur ->
  cell_ok seen (b - Chunk.cost chunk) (pl, po) ->
  cell_ok (chunk :: seen) b
    (if cur.1 <? pl + Chunk.liquidity chunk
     then (pl + Chunk.liquidity chunk, add_order (Chunk.account chunk) po)
     else cur).
Proof.
  intros Hnn Hb [(sel & Hsel & Hliq & Hord) Hbest]
    [(sel0 & [Hsub0 Hcost0] & Hliq0 & Hord0) Hbest0].
  simpl in Hliq0, Hord0.
  assert (Hwith : forall sel', feasible b (chunk :: seen) sel' ->
            total_liquidity sel' <= Z.max cur.1 (pl + Chunk.liquidity chunk)).
  { intros sel' [Hsub Hcost].
    apply submseteq_cons_r in Hsub as [Hsub|(l' & Hp & Hsub)].
    - specialize (Hbest sel' (conj Hsub Hcost)). lia.
    - unfold total_liquidity, total_cost in *. rewrite Hp in Hcost |- *.
      simpl in Hcost |- *.
      assert (sum_with Chunk.liquidity l' <= pl); [|lia].
      apply Hbest0. split; [done|]. unfold total_cost. lia. }
  destruct (Z.ltb_spec cur.1 (pl + Chunk.liquidity chunk)) as [Hlt|Hge]; split.
  - exists (chunk :: sel0). split; [split|split].
    + by apply submseteq_skip.
    + unfold total_cost in *. simpl. lia.
    + unfold total_liquidity in *. simpl. lia.
    + simpl. by rewrite Hord0.
  - intros sel' Hsel'. specialize (Hwith sel' Hsel'). simpl. lia.
  - exists sel. split; [by apply feasible_cons | done].
  - intros sel' Hsel'. specialize (Hwith sel' Hsel'). lia.
Qed.

Lemma table_ok_step budget_sats seen chunk dp dp' :
  0 <= Chunk.cost chunk ->
  table_ok budget_sats seen dp ->
  length dp' = length dp ->
  (forall b : nat, (b < length dp)%nat -> dp' !! b = relaxed chunk dp b) ->
  table_ok budget_sats (chunk :: seen) dp'.
Proof.
  intros Hc (Hlen & Hnn & Hcells) Hlen' Hrel. split; [congruence|].
  split; [by constructor|].
  intros b c Hb.
  pose proof (lookup_lt_Some _ _ _ Hb) as Hlt. rewrite Hlen' in Hlt.
  rewrite Hrel in Hb by done. unfold relaxed in Hb.
  destruct (dp !! b) as [cur|] eqn:Hcur; [|discriminate]. simpl in Hb.
  destruct (Z.ltb_spec (Z.of_nat b) (Chunk.cost chunk)) as [Hsmall|Hbig].
  - injection Hb as <-. apply cell_ok_skip; eauto.
  - destruct (dp !! Z.to_nat (Z.of_nat b - Chunk.cost chunk)) as [[pl po]|] eqn:Hprev;
      [|discriminate]. simpl in Hb.
    assert (c = if cur.1 <? pl + Chunk.liquidity chunk
                then (pl + Chunk.liquidity chunk, add_order (Chunk.account chunk) po)
                else cur) as ->.
    { destruct (cur.1 <? _); congruence. }
    apply cell_ok_take; eauto.
    apply Hcells in Hprev.
    by replace (Z.of_nat (Z.to_nat (Z.of_nat b - Chunk.cost chunk)))
      with (Z.of_nat b - Chunk.cost chunk) in Hprev by lia.
Qed.

(** ** The whole table *)

Lemma table_ok_init budget_sats :
  0 <= budget_sats ->
  table_ok budget_sats [] (replicate (Z.to_nat (budget_sats + 1)) (0, ∅)).
Proof.
  intros Hb. split; [by rewrite length_replicate|]. split; [constructor|].
  intros b c Hc. apply lookup_replicate in Hc as [-> Hlt]. split.
  - exists []. split; [apply feasible_nil; lia | done].
  - intros sel' [Hsub _]. apply submseteq_nil_r in Hsub as ->. simpl. lia.
Qed.

Lemma fill_table_ok budget_sats chunks :
  0 <= budget_sats ->
  Forall (fun c => 0 <= Chunk.cost c) chunks ->
  exists dp, fill_table budget_sats chunks = Ok dp
    /\ table_ok budget_sats (rev chunks) dp.
Proof.
  intros Hb Hnn. unfold fill_table.
  destruct (for_each_seen (table_ok budget_sats) (add_chunk budget_sats) chunks)
    with (seen := @nil Chunk.t) (s := replicate (Z.to_nat (budget_sats + 1)) (0, ∅ : gmap string Z))
    as (dp & Hdp & Hok).
  - intros seen chunk dp Hin Hok.
    rewrite Forall_forall in Hnn. specialize (Hnn chunk Hin).
    destruct (add_chunk_relaxed budget_sats chunk dp Hb Hnn) as (dp' & Hdp' & Hlen & Hrel).
    { apply Hok. }
    exists dp'. split; [done|]. by eapply table_ok_step.
  - by apply table_ok_init.
  - exists dp. split; [done|]. by rewrite app_nil_r in Hok.
Qed.

(** ** The final scan *)

Lemma max_scan (rest : list cell) (c0 : cell) :
  let r := fold_left (fun best x => if best.1 <? x.1 then x else best) rest c0 in
  r ∈ c0 :: rest /\ Forall (fun x => x.1 <= r.1) (c0 :: rest).
Proof.
  revert c0; induction rest as [|x rest IH]; intros c0; simpl.
  - split; [left | by constructor].
  - destruct (IH (if c0.1 <? x.1 then x else c0)) as [Hin Hall].
    apply Forall_cons in Hall as [Hhd Hall]. split.
    + destruct (c0.1 <? x.1).
      * by right.
      * apply elem_of_cons in Hin as [->|Hin]; [left | by do 2 right].
    + destruct (Z.ltb_spec c0.1 x.1); repeat constructor; try done; lia.
Qed.

Lemma py_max_liq_spec (dp : list cell) :
  (0 < length dp)%nat ->
  exists (i : nat) c, py_max_liq dp = Ok c /\ dp !! i = Some c
    /\ forall (j : nat) c', dp !! j = Some c' -> c'.1 <= c.1.
Proof.
  destruct dp as [|c0 rest]; simpl; [lia|]. intros _.
  destruct (max_scan rest c0) as [Hin Hall]. simpl in Hin, Hall.
  apply list_elem_of_lookup in Hin as [i Hi].
  eexists i, _. split; [reflexivity|]. split; [done|].
  intros j c' Hj. rewrite Forall_forall in Hall.
  apply Hall. by eapply list_elem_of_lookup_2.
Qed.

(** ** The solver finds an optimal feasible selection *)

Theorem solve_optimal budget_sats chunks :
  0 <= budget_sats ->
  Forall (fun c => 0 <= Chunk.cost c) chunks ->
  exists sel,
    solve budget_sats chunks
      = Ok (total_liquidity sel, total_cost_of chunks (orders_of sel), orders_of sel)
    /\ feasible budget_sats chunks sel
    /\ forall sel', feasible budget_sats chunks sel' ->
         total_liquidity sel' <= total_liquidity sel.
Proof.
  intros Hb Hnn.
  destruct (fill_table_ok budget_sats chunks Hb Hnn) as (dp & Hdp & Hlen & _ & Hcells).
  destruct (py_max_liq_spec dp) as (i & [liq al] & Hmax & Hi & Hbest); [lia|].
  destruct (Hcells i _ Hi) as [(sel & Hsel & Hliq & Hord) _].
  simpl in Hliq, Hord. subst liq al.
  pose proof (lookup_lt_Some _ _ _ Hi) as Hlt.
  exists sel. split; [|split].
  - unfold solve. rewrite Hdp. simpl. rewrite Hmax. reflexivity.
  - eapply feasible_mono; [| |exact Hsel]; [lia|].
    apply Permutation_submseteq. symmetry. apply Permutation_rev.
  - intros sel' Hsel'.
    destruct (lookup_lt_is_Some_2 dp (Z.to_nat budget_sats)) as [cB HcB]; [lia|].
    destruct (Hcells _ _ HcB) as [_ HbestB].
    specialize (Hbest _ _ HcB). simpl in Hbest.
    assert (total_liquidity sel' <= cB.1); [|lia].
    apply HbestB. eapply feasible_mono; [| |exact Hsel']; [lia|].
    apply Permutation_submseteq, Permutation_rev.
Qed.

(** ** Outside the contract

    The hypotheses above are needed: a negative cost sends the first read
    of the inner loop past the end of the table, and a negative budget
    leaves the table empty. *)

Lemma add_chunk_negative_cost budget_sats dp chunk :
  0 <= budget_sats -> length dp = Z.to_nat (budget_sats + 1) ->
  Chunk.cost chunk < 0 ->
  add_chunk budget_sats dp chunk = Raise IndexError.
Proof.
  intros Hb Hlen Hc. unfold add_chunk, range_down.
  replace (Z.to_nat (budget_sats - (Chunk.cost chunk - 1)))
    with (S (Z.to_nat (budget_sats - Chunk.cost chunk))) by lia.
  simpl. unfold relax.
  rewrite (py_getitem_out_of_range dp (budget_sats - Z.of_nat 0 - Chunk.cost chunk));
    [reflexivity | lia].
Qed.

Lemma relax_length chunk dp b dp' :
  relax chunk dp b = Ok dp' -> length dp' = length dp.
Proof.
  unfold relax.
  destruct (py_getitem dp (b - Chunk.cost chunk)) as [[pl po]|]; [simpl|done].
  destruct (py_getitem dp b) as [cur|]; [simpl|done].
  destruct (cur.1 <? pl + Chunk.liquidity chunk); [|by intros [= <-]].
  unfold py_setitem. destruct (py_norm_index dp b); [|done].
  intros [= <-]. apply length_insert.
Qed.

Lemma add_chunk_length budget_sats dp chunk dp' :
  add_chunk budget_sats dp chunk = Ok dp' -> length dp' = length dp.
Proof.
  unfold add_chunk. revert dp.
  induction (range_down budget_sats (Chunk.cost chunk - 1)) as [|b bs IH];
    intros dp; simpl.
  - by intros [= <-].
  - destruct (relax chunk dp b) as [dp1|] eqn:E; [simpl|done].
    intros H. rewrite (IH _ H). by eapply relax_length.
Qed.

(** The solver returns only within its contract. *)
Lemma solve_Ok_contract budget_sats chunks r :
  solve budget_sats chunks = Ok r ->
  0 <= budget_sats /\ Forall (fun c => 0 <= Chunk.cost c) chunks.
Proof.
  unfold solve, fill_table. intros H.
  destruct (for_each _ chunks _) as [dp|] eqn:Hdp; [simpl in H|done].
  assert (Hlen : length dp = Z.to_nat (budget_sats + 1)).
  { eapply (for_each_preserves (fun dp => length dp = Z.to_nat (budget_sats + 1)));
      [| |exact Hdp].
    - intros dp0 c dp1 H0 H1. by rewrite (add_chunk_length _ _ _ _ H1).
    - apply length_replicate. }
  assert (Hb : 0 <= budget_sats).
  { destruct dp; [done|]. simpl in Hlen. lia. }
  split; [done|]. clear H.
  assert (Hgen : forall dp0, length dp0 = Z.to_nat (budget_sats + 1) ->
            for_each (add_chunk budget_sats) chunks dp0 = Ok dp ->
            Forall (fun c => 0 <= Chunk.cost c) chunks).
  { clear Hdp. induction chunks as [|c cs IH]; intros dp0 Hl0 H0; [constructor|].
    simpl in H0. destruct (add_chunk budget_sats dp0 c) as [dp1|] eqn:E; [simpl in H0|done].
    constructor.
    - destruct (Z.le_gt_cases 0 (Chunk.cost c)) as [|Hneg]; [done|].
      rewrite add_chunk_negative_cost in E by (done || lia). discriminate.
    - apply (IH dp1); [|done]. by rewrite (add_chunk_length _ _ _ _ E). }
  eapply Hgen; [|exact Hdp]. apply length_replicate.
Qed.

(** When the solver returns, it returns an optimal feasible selection. *)
Lemma solve_Ok_optimal budget_sats chunks max_liq total seller_orders :
  solve budget_sats chunks = Ok (max_liq, total, seller_orders) ->
  exists sel,
    max_liq = total_liquidity sel
    /\ total = total_cost_of chunks (orders_of sel)
    /\ seller_orders = orders_of sel
    /\ feasible budget_sats chunks sel
    /\ forall sel', feasible budget_sats chunks sel' ->
         total_liquidity sel' <= total_liquidity sel.
Proof.
  intros H. destruct (solve_Ok_contract _ _ _ H) as [Hb Hnn].
  destruct (solve_optimal budget_sats chunks Hb Hnn) as (sel & Hs & Hf & Hbest).
  rewrite Hs in H. injection H as <- <- <-. by exists sel.
Qed.

(** Outside the contract the solver raises. *)
Lemma solve_raises budget_sats chunks e :
  solve budget_sats chunks = Raise e ->
  budget_sats < 0 \/ Exists (fun c => Chunk.cost c < 0) chunks.
Proof.
  intros H. destruct (Z.lt_ge_cases budget_sats 0) as [|Hb]; [by left | right].
  destruct (decide (Forall (fun c => 0 <= Chunk.cost c) chunks)) as [Hnn|Hneg].
  - destruct (solve_optimal budget_sats chunks Hb Hnn) as (sel & Hs & _). congruence.
  - apply not_Forall_Exists in Hneg; [|intros c; apply _].
    eapply Exists_impl; [exact Hneg|]. simpl. intros c. lia.
Qed.

Example solve_negative_cost : solve 5 [Chunk.mk (-1) 100 "A"] = Raise IndexError.
Proof. reflexivity. Qed.

Example solve_negative_budget : solve (-1) [Chunk.mk 1 100 "A"] = Raise ValueError.
Proof. reflexivity. Qed.

(** The scenario of the specification: budget 2500, a chunk of 50000 for
    1000 and a chunk of 120000 for 2000. *)
Example solve_scenario :
  solve 2500 [Chunk.mk 1000 50000 "A"; Chunk.mk 2000 120000 "B"]
  = Ok (120000, 2000, {["B"%string := 1]}).
Proof. vm_compute. reflexivity. Qed.

(** Without a budget, the empty chunk list gives nothing. *)
Example solve_empty : solve 40 [] = Ok (0, 0, ∅).
Proof. reflexivity. Qed.

(** ** The realized cost *)

Lemma allocation_cost_add_order pc a (m : gmap string Z) :
  allocation_cost pc (add_order a m) = allocation_cost pc m + pc a.
Proof.
  unfold allocation_cost, add_order. destruct (m !! a) as [n|] eqn:E; simpl.
  - rewrite <-insert_delete_eq.
    rewrite map_to_list_insert by apply lookup_delete_eq.
    rewrite <-(map_to_list_delete m a n E). simpl. lia.
  - rewrite map_to_list_insert by done. simpl. lia.
Qed.

Lemma allocation_cost_orders pc sel :
  allocation_cost pc (orders_of sel) = sum_with (fun c => pc (Chunk.account c)) sel.
Proof.
  induction sel as [|c sel IH]; simpl.
  - unfold allocation_cost. by rewrite map_to_list_empty.
  - rewrite allocation_cost_add_order, IH. lia.
Qed.

Lemma orders_of_key sel a n :
  orders_of sel !! a = Some n -> exists c, c ∈ sel /\ Chunk.account c = a.
Proof.
  induction sel as [|c sel IH]; simpl.
  - by rewrite lookup_empty.
  - unfold add_order. destruct (decide (Chunk.account c = a)) as [<-|Hne].
    + intros _. exists c. split; [left | done].
    + rewrite lookup_insert_ne by done. intros H.
      destruct (IH H) as (c' & Hin & Hacc). exists c'. split; [by right | done].
Qed.

Lemma first_cost_per_chunk chunks pc c :
  cost_per_chunk chunks pc -> c ∈ chunks ->
  first_cost chunks (Chunk.account c) = Some (pc (Chunk.account c)).
Proof.
  intros Hpc Hin. unfold first_cost.
  destruct (find _ chunks) as [c'|] eqn:Hfind; simpl.
  - apply find_some in Hfind as [Hin' Hacc].
    apply bool_decide_eq_true in Hacc. apply list_elem_of_In in Hin'.
    rewrite <-Hacc. f_equal. symmetry. by apply Hpc.
  - apply list_elem_of_In in Hin.
    pose proof (find_none _ _ Hfind c Hin) as Hc. simpl in Hc.
    by apply bool_decide_eq_false in Hc.
Qed.

Lemma total_cost_of_allocation chunks pc (m : gmap string Z) :
  (forall a n, m !! a = Some n -> first_cost chunks a = Some (pc a)) ->
  total_cost_of chunks m = allocation_cost pc m.
Proof.
  intros Hkeys. unfold total_cost_of, allocation_cost. rewrite map_fold_foldr.
  assert (Hl : forall a n, (a, n) ∈ map_to_list m -> first_cost chunks a = Some (pc a)).
  { intros a n Hin. apply elem_of_map_to_list in Hin. eauto. }
  induction (map_to_list m) as [|[a n] l IH]; simpl; [done|].
  rewrite (Hl a n) by left. rewrite IH; [lia|].
  intros a' n' Hin. apply (Hl a' n'). by right.
Qed.

Lemma total_cost_of_selection chunks pc sel :
  cost_per_chunk chunks pc -> sel ⊆+ chunks ->
  total_cost_of chunks (orders_of sel) = allocation_cost pc (orders_of sel)
  /\ total_cost_of chunks (orders_of sel) = total_cost sel.
Proof.
  intros Hpc Hsub.
  assert (H1 : total_cost_of chunks (orders_of sel) = allocation_cost pc (orders_of sel)).
  { apply total_cost_of_allocation. intros a n Ha.
    destruct (orders_of_key sel a n Ha) as (c & Hin & <-).
    apply first_cost_per_chunk; eauto using elem_of_submseteq. }
  split; [done|]. rewrite H1, allocation_cost_orders. unfold total_cost.
  assert (Hall : Forall (fun c => pc (Chunk.account c) = Chunk.cost c) sel).
  { apply Forall_forall. intros c Hc. apply Hpc. eauto using elem_of_submseteq. }
  clear -Hall. induction Hall; simpl; congruence.
Qed.

Lemma uniform_cost_per_chunk chunks :
  uniform_cost chunks ->
  cost_per_chunk chunks (fun a => default 0 (first_cost chunks a)).
Proof.
  intros Hu c Hin. unfold first_cost.
  destruct (find _ chunks) as [c'|] eqn:Hfind; simpl.
  - apply find_some in Hfind as [Hin' Hacc].
    apply bool_decide_eq_true in Hacc. apply list_elem_of_In in Hin'. by apply Hu.
  - apply list_elem_of_In in Hin.
    pose proof (find_none _ _ Hfind c Hin) as Hc. simpl in Hc.
    by apply bool_decide_eq_false in Hc.
Qed.

(** ** The knapsack solver: zero budget, realized cost, monotonicity *)

(** C1, as stated, fails: with budget 0 a chunk that costs nothing is
    bought, so the maximum liquidity is not 0 and the allocation is not
    empty. *)
Lemma zero_budget_buys_free_chunk :
  solve 0 [free_chunk] = Ok (100, 0, {["A"%string := 1]})
  /\ solve 0 [free_chunk] <> Ok (0, 0, ∅).
Proof. split; [reflexivity | discriminate]. Qed.

(** So it is for every chunk set that has a free chunk of some liquidity. *)
Lemma zero_budget_free_chunk chunks c :
  Forall (fun c => 0 <= Chunk.cost c) chunks ->
  c ∈ chunks -> Chunk.cost c = 0 -> 0 < Chunk.liquidity c ->
  exists max_liq total seller_orders,
    solve 0 chunks = Ok (max_liq, total, seller_orders) /\ 0 < max_liq.
Proof.
  intros Hnn Hin Hc Hl.
  destruct (solve_optimal 0 chunks ltac:(lia) Hnn) as (sel & Hs & _ & Hbest).
  eexists _, _, _. split; [exact Hs|].
  assert (Hone : feasible 0 chunks [c]).
  { split; [|unfold total_cost; simpl; lia].
    apply list_elem_of_lookup_1 in Hin as [i Hi].
    apply sublist_submseteq. rewrite <-(take_drop_middle _ _ _ Hi).
    apply sublist_inserts_l. apply sublist_skip, sublist_nil_l. }
  specialize (Hbest [c] Hone). unfold total_liquidity in *. simpl in Hbest. lia.
Qed.

(** C1, amended: when every chunk has a positive cost, the solver called
    with budget 0 returns maximum liquidity 0, total cost 0 and the empty
    allocation. *)
Theorem zero_budget_law chunks :
  Forall (fun c => 0 < Chunk.cost c) chunks ->
  solve 0 chunks = Ok (0, 0, ∅).
Proof.
  intros Hpos.
  destruct (solve_optimal 0 chunks) as (sel & Hsolve & [Hsub Hcost] & _); [lia| |].
  { eapply Forall_impl; [exact Hpos|]. simpl. intros; lia. }
  assert (sel = []) as ->.
  { pose proof (submseteq_Forall _ _ _ Hsub Hpos) as Hsel.
    destruct Hsel as [|c sel Hc Hsel]; [done|].
    pose proof (sum_with_nonneg Chunk.cost sel) as Hnn.
    unfold total_cost in Hcost. simpl in Hcost.
    assert (0 <= sum_with Chunk.cost sel); [|lia].
    apply Hnn. eapply Forall_impl; [exact Hsel|]. simpl. intros; lia. }
  rewrite Hsolve. simpl. unfold total_cost_of. by rewrite map_fold_empty.
Qed.

Lemma zero_budget_law_witness : solve 0 paid_chunks = Ok (0, 0, ∅).
Proof.
  apply (zero_budget_law paid_chunks).
  repeat constructor; simpl; lia.
Defined.

(** C3: when the chunks of a seller all cost the same, the total cost the
    solver returns is the sum, over the sellers of the returned
    allocation, of the number of chunks times the seller's cost per chunk;
    it is the cost of the chunks chosen, which are drawn from the chunk
    set, fit the budget and add up to the returned liquidity.  The solver
    returns, unless the budget or a cost is negative. *)
Theorem total_cost_of_returned_allocation budget_sats chunks :
  uniform_cost chunks ->
  match solve budget_sats chunks with
  | Ok (max_liq, total, seller_orders) =>
      (forall pc, cost_per_chunk chunks pc -> total = allocation_cost pc seller_orders)
      /\ exists sel, feasible budget_sats chunks sel
           /\ seller_orders = orders_of sel
           /\ total = total_cost sel
           /\ max_liq = total_liquidity sel
  | Raise _ => budget_sats < 0 \/ Exists (fun c => Chunk.cost c < 0) chunks
  end.
Proof.
  intros Hu. destruct (solve budget_sats chunks) as [[[max_liq total] orders]|e] eqn:E.
  - apply solve_Ok_optimal in E as (sel & -> & -> & -> & Hsel & _). split.
    + intros pc Hpc. by apply total_cost_of_selection; [|apply Hsel].
    + exists sel. repeat split; try apply Hsel.
      eapply total_cost_of_selection; [by apply uniform_cost_per_chunk | apply Hsel].
  - by eapply solve_raises.
Qed.

Lemma total_cost_of_returned_allocation_witness :
  match solve 5 small_chunks with
  | Ok (max_liq, total, seller_orders) =>
      (forall pc, cost_per_chunk small_chunks pc -> total = allocation_cost pc seller_orders)
      /\ exists sel, feasible 5 small_chunks sel
           /\ seller_orders = orders_of sel
           /\ total = total_cost sel
           /\ max_liq = total_liquidity sel
  | Raise _ => 5 < 0 \/ Exists (fun c => Chunk.cost c < 0) small_chunks
  end.
Proof.
  apply (total_cost_of_returned_allocation 5 small_chunks).
  intros c1 c2 H1 H2.
  repeat (apply elem_of_cons in H1 as [->|H1]);
    repeat (apply elem_of_cons in H2 as [->|H2]);
    try (by apply elem_of_nil in H1); try (by apply elem_of_nil in H2);
    simpl; intros; congruence.
Defined.

(** C4: for a fixed chunk set and budgets [0 <= b1 <= b2], the maximum
    liquidity returned at [b1] is at most the one returned at [b2].  The
    solver returns at both budgets, unless a cost is negative, and then
    it raises at both. *)
Theorem max_liquidity_monotone chunks b1 b2 :
  0 <= b1 -> b1 <= b2 ->
  match solve b1 chunks, solve b2 chunks with
  | Ok r1, Ok r2 => r1.1.1 <= r2.1.1
  | Raise _, Raise _ => Exists (fun c => Chunk.cost c < 0) chunks
  | _, _ => False
  end.
Proof.
  intros H1 H12.
  destruct (decide (Forall (fun c => 0 <= Chunk.cost c) chunks)) as [Hnn|Hneg].
  - destruct (solve_optimal b1 chunks H1 Hnn) as (sel1 & -> & Hf1 & _).
    destruct (solve_optimal b2 chunks) as (sel2 & -> & _ & Hbest2); [lia|done|].
    simpl. apply Hbest2. eapply feasible_mono; [exact H12 | reflexivity | exact Hf1].
  - destruct (solve b1 chunks) as [r1|e1] eqn:E1.
    { by apply solve_Ok_contract in E1 as [_ Hnn]. }
    destruct (solve b2 chunks) as [r2|e2] eqn:E2.
    { by apply solve_Ok_contract in E2 as [_ Hnn]. }
    apply solve_raises in E1 as [|]; [lia | done].
Qed.

Lemma max_liquidity_monotone_witness :
  match solve 2 small_chunks, solve 7 small_chunks with
  | Ok r1, Ok r2 => r1.1.1 <= r2.1.1
  | Raise _, Raise _ => Exists (fun c => Chunk.cost c < 0) small_chunks
  | _, _ => False
  end.
Proof. apply (max_liquidity_monotone small_chunks 2 7); lia. Defined.

(** ** Chunk generation *)

Lemma build_chunks_acc incl offers acc :
  for_each (fun chunks offer => cs ← offer_chunks incl offer; Ok (chunks ++ cs)) offers acc
  = (cs ← build_chunks incl offers; Ok (acc ++ cs)).
Proof.
  unfold build_chunks. revert acc.
  induction offers as [|o offers IH]; intros acc; simpl.
  - by rewrite app_nil_r.
  - destruct (offer_chunks incl o) as [cs|e]; simpl; [|done].
    rewrite (IH cs), (IH (acc ++ cs)).
    destruct (for_each _ offers []) as [cs'|e]; simpl; [|done].
    by rewrite app_assoc.
Qed.

Lemma build_chunks_cons incl o offers :
  build_chunks incl (o :: offers)
  = (cs ← offer_chunks incl o; rest ← build_chunks incl offers; Ok (cs ++ rest)).
Proof.
  unfold build_chunks at 1. simpl.
  destruct (offer_chunks incl o) as [cs|e]; simpl; [|done].
  apply build_chunks_acc.
Qed.

Lemma build_chunks_ok incl offers :
  Forall (fun o => is_ok (offer_chunks incl o) = true) offers ->
  build_chunks incl offers = Ok (offers ≫= chunks_of incl).
Proof.
  induction 1 as [|o offers Ho _ IH]; [done|].
  rewrite build_chunks_cons, IH. unfold chunks_of at 2. simpl.
  by destruct (offer_chunks incl o).
Qed.

Lemma build_chunks_Ok incl offers cs :
  build_chunks incl offers = Ok cs -> cs = offers ≫= chunks_of incl.
Proof.
  revert cs; induction offers as [|o offers IH]; intros cs.
  - by intros [= <-].
  - rewrite build_chunks_cons.
    destruct (offer_chunks incl o) as [c|] eqn:Ho; [simpl|done].
    destruct (build_chunks incl offers) as [rest|]; [simpl|done].
    intros [= <-]. rewrite (IH rest eq_refl).
    change ((o :: offers) ≫= chunks_of incl)
      with (chunks_of incl o ++ (offers ≫= chunks_of incl)).
    assert (chunks_of incl o = c) as -> by (unfold chunks_of; by rewrite Ho).
    done.
Qed.

(** The shape of what an offer gives, whenever generation returns. *)
Lemma offer_chunks_shape incl o cs :
  offer_chunks incl o = Ok cs ->
  exists x fee_sats,
    F64.truediv_int
      (Offer.min_size o *
       (Offer.fee_rate o + (if incl then default 0 (Offer.amboss_fee_rate o) else 0)))
      1000000 = Ok x
    /\ F64.to_int x = Ok fee_sats
    /\ Offer.min_size o <> 0
    /\ cs = replicate
         (Z.to_nat (if negb (default false (Offer.allow_parallel o))
                    then Z.min (Offer.max_size o / Offer.min_size o) 1
                    else Offer.max_size o / Offer.min_size o))
         (Chunk.mk (Offer.base_fee o + fee_sats) (Offer.min_size o)
                   (default "unknown"%string (Offer.account o))).
Proof.
  unfold offer_chunks, py_floordiv. intros H.
  destruct (F64.truediv_int _ _) as [x|] eqn:Hx; [simpl in H|done].
  destruct (F64.to_int x) as [fee|] eqn:Hfee; [simpl in H|done].
  destruct (Z.eqb_spec (Offer.min_size o) 0) as [|Hne]; [done|]. simpl in H.
  exists x, fee. repeat split; try done. congruence.
Qed.

Lemma offer_chunks_well_formed o :
  well_formed o ->
  exists cs, offer_chunks true o = Ok cs
    /\ Forall (fun c => 0 <= Chunk.cost c) cs.
Proof.
  intros (Hmin & Hbase & Hrate & (a & Ha & Ha0) & Hbound).
  unfold offer_chunks, py_floordiv. rewrite Ha in *. simpl in Hbound |- *.
  destruct (F64Facts.truediv_int_nonneg (Offer.min_size o * (Offer.fee_rate o + a)) 1000000)
    as (x & -> & Hfin & Hsign); [|lia|].
  { split; [nia|]. eapply Z.lt_trans; [exact Hbound|]. by apply Z.pow_lt_mono_r. }
  simpl. destruct (F64Facts.to_int_nonneg x Hfin Hsign) as (fee & -> & Hfee). simpl.
  destruct (Z.eqb_spec (Offer.min_size o) 0) as [|_]; [lia|]. simpl.
  eexists. split; [reflexivity|].
  apply Forall_replicate. simpl. lia.
Qed.

Lemma build_chunks_well_formed offers :
  Forall well_formed offers ->
  build_chunks true offers = Ok (offers ≫= chunks_of true)
  /\ Forall (fun c => 0 <= Chunk.cost c) (offers ≫= chunks_of true).
Proof.
  intros Hwf. split.
  - apply build_chunks_ok. eapply Forall_impl; [exact Hwf|]. simpl.
    intros o Ho. by destruct (offer_chunks_well_formed o Ho) as (cs & -> & _).
  - induction Hwf as [|o offers Ho _ IH]; [constructor|].
    simpl. apply Forall_app. split; [|done]. unfold chunks_of.
    by destruct (offer_chunks_well_formed o Ho) as (cs & -> & Hcs).
Qed.

(** ** Sorting *)

Lemma with_keys_snd {A K} (key : A -> result K) xs keyed :
  with_keys key xs = Ok keyed -> keyed.*2 = xs.
Proof.
  revert keyed; induction xs as [|x xs IH]; intros keyed; simpl.
  - by intros [= <-].
  - destruct (key x) as [k|]; [simpl|done].
    destruct (with_keys key xs) as [rest|]; [simpl|done].
    intros [= <-]. simpl. f_equal. by apply IH.
Qed.

Lemma with_keys_ok {A K} (key : A -> result K) xs :
  Forall (fun x => is_ok (key x) = true) xs -> is_ok (with_keys key xs) = true.
Proof.
  induction 1 as [|x xs Hx _ IH]; simpl; [done|].
  destruct (key x); [simpl|done]. by destruct (with_keys key xs).
Qed.

Lemma insert_keyed_perm {A} k (x : A) l : insert_keyed k x l ≡ₚ (k, x) :: l.
Proof.
  induction l as [|[k' y] l IH]; simpl; [done|].
  destruct (F64.ltb k k'); [done|]. rewrite IH. apply perm_swap.
Qed.

Lemma sort_keyed_perm {A} (l : list (F64.float * A)) : sort_keyed l ≡ₚ l.
Proof.
  unfold sort_keyed.
  assert (H : forall acc, fold_left (fun acc kx => insert_keyed kx.1 kx.2 acc) l acc ≡ₚ l ++ acc).
  { induction l as [|[k x] l IH]; intros acc; simpl; [done|].
    rewrite IH, insert_keyed_perm. by rewrite Permutation_middle. }
  by rewrite H, app_nil_r.
Qed.

Lemma py_sorted_perm {A} (key : A -> result F64.float) xs :
  Forall (fun x => is_ok (key x) = true) xs ->
  exists ys, py_sorted key xs = Ok ys /\ ys ≡ₚ xs.
Proof.
  intros Hok. unfold py_sorted.
  pose proof (with_keys_ok key xs Hok) as Hk.
  destruct (with_keys key xs) as [keyed|] eqn:E; [|done]. simpl.
  eexists. split; [reflexivity|].
  rewrite sort_keyed_perm. by rewrite (with_keys_snd _ _ _ E).
Qed.

Lemma py_sorted_Ok_perm {A} (key : A -> result F64.float) xs ys :
  py_sorted key xs = Ok ys -> ys ≡ₚ xs.
Proof.
  unfold py_sorted. destruct (with_keys key xs) as [keyed|] eqn:E; [simpl|done].
  intros [= <-]. rewrite sort_keyed_perm. by rewrite (with_keys_snd _ _ _ E).
Qed.

Lemma offer_price_well_formed o :
  well_formed o -> is_ok (offer_price_per_sat o) = true.
Proof.
  intros (Hmin & Hbase & Hrate & (a & Ha & Ha0) & Hbound).
  unfold offer_price_per_sat. rewrite Ha in *. simpl in Hbound |- *.
  destruct (F64Facts.truediv_int_nonneg
              (Offer.base_fee o + Offer.min_size o * (Offer.fee_rate o + a) / 1000000)
              (Offer.min_size o)) as (x & -> & _); [|lia|done].
  assert (0 <= Offer.min_size o * (Offer.fee_rate o + a) / 1000000
          <= Offer.min_size o * (Offer.fee_rate o + a)).
  { split; [apply Z.div_pos; nia|]. apply Z.div_le_upper_bound; nia. }
  split; [lia|].
  assert (2 ^ 1000 + 2 ^ 1000 < 2 ^ 1023) by done. lia.
Qed.

(** ** Chunk generation: zero sizes, capacity, missing [allow_parallel] *)

(** C2, as stated, fails: an offer whose [min_size] is 0 is neither
    rejected nor skipped, the division [max_size // min_size] raises. *)
Lemma zero_min_size_counterexample :
  Offer.min_size zero_offer = 0
  /\ offer_chunks true zero_offer = Raise ZeroDivisionError
  /\ knapsack_liquidity 1000 [zero_offer] true = Raise ZeroDivisionError.
Proof. repeat split; reflexivity. Qed.

Lemma build_chunks_raises incl offers o e :
  o ∈ offers -> offer_chunks incl o = Raise e ->
  exists e', build_chunks incl offers = Raise e'.
Proof.
  intros Hin Ho. induction offers as [|o' offers IH]; [by apply elem_of_nil in Hin|].
  rewrite build_chunks_cons.
  destruct (offer_chunks incl o') as [cs|e1] eqn:Ho'; simpl; [|by eexists].
  apply elem_of_cons in Hin as [->|Hin]; [congruence|].
  destruct (IH Hin) as (e' & ->). by eexists.
Qed.

(** C2, amended: for every offer with [min_size = 0], chunk generation
    raises [ZeroDivisionError], and so does not return, whatever the other
    offers and the budget are: a positive [min_size] is a precondition of
    the caller. *)
Theorem zero_min_size_raises budget_sats offers incl o :
  o ∈ offers -> Offer.min_size o = 0 ->
  offer_chunks incl o = Raise ZeroDivisionError
  /\ exists e, knapsack_liquidity budget_sats offers incl = Raise e.
Proof.
  intros Hin Hmin.
  assert (Ho : offer_chunks incl o = Raise ZeroDivisionError).
  { unfold offer_chunks, py_floordiv. rewrite Hmin. by rewrite Z.mul_0_l. }
  split; [done|]. unfold knapsack_liquidity.
  destruct (build_chunks_raises incl offers o _ Hin Ho) as (e & ->). by eexists.
Qed.

Lemma zero_min_size_raises_witness :
  offer_chunks true zero_offer = Raise ZeroDivisionError
  /\ exists e, knapsack_liquidity 1000 [offer_a; zero_offer] true = Raise e.
Proof.
  apply (zero_min_size_raises 1000 [offer_a; zero_offer] true zero_offer).
  - right. left.
  - reflexivity.
Defined.

(** Below [2 ^ 52] (some 4.5e15) the product [min_size * totalPpm] goes
    through the double unharmed, and chunk generation is as the
    specification has it: [floor(max_size / min_size)] chunks, one at most
    without [allow_parallel], each of liquidity [min_size] and cost
    [base_fee + floor(min_size * totalPpm / 1_000_000)]. *)
Lemma chunk_generation_below_2_52 (incl : bool) (o : Offer.t) :
  0 < Offer.min_size o ->
  let total_ppm :=
    Offer.fee_rate o + (if incl then default 0 (Offer.amboss_fee_rate o) else 0) in
  0 <= Offer.min_size o * total_ppm < 2 ^ 52 ->
  offer_chunks incl o
  = Ok (replicate
          (Z.to_nat (if default false (Offer.allow_parallel o)
                     then Offer.max_size o / Offer.min_size o
                     else Z.min (Offer.max_size o / Offer.min_size o) 1))
          (Chunk.mk (Offer.base_fee o + Offer.min_size o * total_ppm / 1000000)
                    (Offer.min_size o)
                    (default "unknown"%string (Offer.account o)))).
Proof.
  intros Hmin total_ppm Hbound. unfold offer_chunks, py_floordiv.
  fold total_ppm.
  destruct (F64Facts.truediv_million_floor _ Hbound) as (x & -> & Hx). simpl.
  rewrite Hx. simpl.
  destruct (Z.eqb_spec (Offer.min_size o) 0) as [|_]; [lia|]. simpl.
  by destruct (default false (Offer.allow_parallel o)).
Qed.

(** The capacity example of the specification. *)
Example chunk_capacity :
  offer_chunks true (Offer.mk "c" 100 250 7 2500 (Some 500) (Some "S") (Some true) None)
    = Ok [Chunk.mk 7 100 "S"; Chunk.mk 7 100 "S"]
  /\ offer_chunks true (Offer.mk "c" 100 250 7 2500 (Some 500) (Some "S") (Some false) None)
    = Ok [Chunk.mk 7 100 "S"].
Proof. split; reflexivity. Qed.

(** C5 at a large size: the fee goes through a double, and the double
    nearest to 17179982820.999999 is 17179982821, so the cost of the chunk
    is one more than [base_fee + floor(min_size * totalPpm / 1_000_000)];
    [offer_price_per_sat] computes the same fee with [//] and gets the
    floor. *)
Theorem fee_rounds_up_at_large_size :
  offer_chunks true large_offer = Ok [Chunk.mk 17179982821 17180000001 "A"]
  /\ Offer.base_fee large_offer
     + Offer.min_size large_offer
       * (Offer.fee_rate large_offer + default 0 (Offer.amboss_fee_rate large_offer))
       / 1000000
     = 17179982820.
Proof. split; reflexivity. Qed.

(** C10: an offer without [allow_parallel] gives at most one chunk, and
    the offers [get_offer_details] returns never have the field, since
    the query does not name it. *)
Theorem missing_allow_parallel_caps_chunks incl o cs :
  Offer.allow_parallel o = None \/ (exists server_offer, o = get_offer_details server_offer) ->
  offer_chunks incl o = Ok cs ->
  (length cs <= 1)%nat.
Proof.
  intros Hpar Hcs.
  assert (Hnone : Offer.allow_parallel o = None).
  { destruct Hpar as [|(server_offer & ->)]; [done|reflexivity]. }
  apply offer_chunks_shape in Hcs as (x & fee & _ & _ & _ & ->).
  rewrite Hnone, length_replicate. simpl. lia.
Qed.

Lemma missing_allow_parallel_caps_chunks_witness :
  (length [Chunk.mk 3 1000 "A"] <= 1)%nat.
Proof.
  apply (missing_allow_parallel_caps_chunks true
           (get_offer_details
              (Offer.mk "a" 1000 3000 2 1000 (Some 500) (Some "A") (Some true) None))).
  - right. by eexists.
  - reflexivity.
Defined.

(** ** The two curves *)

Lemma Forall_perm {A} (P : A -> Prop) (l k : list A) :
  l ≡ₚ k -> Forall P k -> Forall P l.
Proof. intros Hp. apply submseteq_Forall. by apply Permutation_submseteq. Qed.

Lemma knapsack_liquidity_well_formed budget_sats offers :
  0 <= budget_sats -> Forall well_formed offers ->
  exists sel,
    knapsack_liquidity budget_sats offers true
      = Ok (total_liquidity sel,
            total_cost_of (offers ≫= chunks_of true) (orders_of sel), orders_of sel)
    /\ feasible budget_sats (offers ≫= chunks_of true) sel
    /\ forall sel', feasible budget_sats (offers ≫= chunks_of true) sel' ->
         total_liquidity sel' <= total_liquidity sel.
Proof.
  intros Hb Hwf. unfold knapsack_liquidity.
  destruct (build_chunks_well_formed offers Hwf) as [-> Hnn]. simpl.
  by apply solve_optimal.
Qed.

Lemma knapsack_liquidity_monotone offers b1 b2 :
  0 <= b1 -> b1 <= b2 -> Forall well_formed offers ->
  exists r1 r2,
    knapsack_liquidity b1 offers true = Ok r1
    /\ knapsack_liquidity b2 offers true = Ok r2
    /\ r1.1.1 <= r2.1.1.
Proof.
  intros H1 H12 Hwf.
  destruct (knapsack_liquidity_well_formed b1 offers H1 Hwf) as (s1 & -> & Hf1 & _).
  destruct (knapsack_liquidity_well_formed b2 offers) as (s2 & -> & _ & Hbest);
    [lia | done |].
  eexists _, _. repeat split. simpl. apply Hbest.
  eapply feasible_mono; [exact H12 | reflexivity | exact Hf1].
Qed.

Lemma knapsack_liquidity_Ok budget_sats offers incl max_liq total seller_orders :
  knapsack_liquidity budget_sats offers incl = Ok (max_liq, total, seller_orders) ->
  exists sel,
    max_liq = total_liquidity sel
    /\ feasible budget_sats (offers ≫= chunks_of incl) sel
    /\ forall sel', feasible budget_sats (offers ≫= chunks_of incl) sel' ->
         total_liquidity sel' <= total_liquidity sel.
Proof.
  unfold knapsack_liquidity.
  destruct (build_chunks incl offers) as [chunks|] eqn:E; [simpl|done].
  apply build_chunks_Ok in E as ->.
  intros (sel & -> & _ & _ & Hf & Hbest)%solve_Ok_optimal. by exists sel.
Qed.

(** C7: at every budget, the maximum liquidity computed over all the
    offers is at least the one computed over the offers that are not
    restricted, both lists sorted by price as the sampler does: the
    chunks of the second are among the chunks of the first.  Both are
    computed when the offers are well formed. *)
Theorem all_offers_curve_dominates budget_sats offers :
  (forall offers_tor_sorted offers_clearnet_sorted r_tor r_clearnet,
     py_sorted offer_price_per_sat (filter (fun o => is_tor_restricted o = false) offers)
       = Ok offers_tor_sorted ->
     py_sorted offer_price_per_sat offers = Ok offers_clearnet_sorted ->
     knapsack_liquidity budget_sats offers_tor_sorted true = Ok r_tor ->
     knapsack_liquidity budget_sats offers_clearnet_sorted true = Ok r_clearnet ->
     r_tor.1.1 <= r_clearnet.1.1)
  /\ (0 <= budget_sats -> Forall well_formed offers ->
      exists offers_tor_sorted offers_clearnet_sorted r_tor r_clearnet,
        py_sorted offer_price_per_sat (filter (fun o => is_tor_restricted o = false) offers)
          = Ok offers_tor_sorted
        /\ py_sorted offer_price_per_sat offers = Ok offers_clearnet_sorted
        /\ knapsack_liquidity budget_sats offers_tor_sorted true = Ok r_tor
        /\ knapsack_liquidity budget_sats offers_clearnet_sorted true = Ok r_clearnet
        /\ r_tor.1.1 <= r_clearnet.1.1).
Proof.
  set (offers_tor := filter (fun o => is_tor_restricted o = false) offers).
  assert (Hsub : offers_tor ⊆+ offers) by apply sublist_submseteq, sublist_filter.
  assert (Hdom : forall ts cs r_tor r_clearnet,
            py_sorted offer_price_per_sat offers_tor = Ok ts ->
            py_sorted offer_price_per_sat offers = Ok cs ->
            knapsack_liquidity budget_sats ts true = Ok r_tor ->
            knapsack_liquidity budget_sats cs true = Ok r_clearnet ->
            r_tor.1.1 <= r_clearnet.1.1).
  { intros ts cs [[l1 t1] o1] [[l2 t2] o2] Hts Hcs Hkt Hkc.
    apply py_sorted_Ok_perm in Hts, Hcs.
    apply knapsack_liquidity_Ok in Hkt as (sel_t & -> & Hft & _).
    apply knapsack_liquidity_Ok in Hkc as (sel_c & -> & _ & Hbest).
    simpl. apply Hbest.
    eapply feasible_mono; [reflexivity | | exact Hft].
    apply bind_submseteq. by rewrite Hts, Hcs. }
  split; [exact Hdom|]. intros Hb Hwf.
  assert (Hwf_tor : Forall well_formed offers_tor) by (by eapply submseteq_Forall).
  destruct (py_sorted_perm offer_price_per_sat offers_tor) as (ts & Hts & Hpt).
  { eapply Forall_impl; [exact Hwf_tor|]. apply offer_price_well_formed. }
  destruct (py_sorted_perm offer_price_per_sat offers) as (cs & Hcs & Hpc).
  { eapply Forall_impl; [exact Hwf|]. apply offer_price_well_formed. }
  destruct (knapsack_liquidity_well_formed budget_sats ts Hb) as (sel_t & Hkt & _).
  { by eapply Forall_perm. }
  destruct (knapsack_liquidity_well_formed budget_sats cs Hb) as (sel_c & Hkc & _).
  { by eapply Forall_perm. }
  eexists ts, cs, _, _. repeat split; try done. by eapply Hdom.
Qed.

Lemma all_offers_curve_dominates_witness :
  exists offers_tor_sorted offers_clearnet_sorted r_tor r_clearnet,
    py_sorted offer_price_per_sat
      (filter (fun o => is_tor_restricted o = false) [offer_a; offer_b])
      = Ok offers_tor_sorted
    /\ py_sorted offer_price_per_sat [offer_a; offer_b] = Ok offers_clearnet_sorted
    /\ knapsack_liquidity 50 offers_tor_sorted true = Ok r_tor
    /\ knapsack_liquidity 50 offers_clearnet_sorted true = Ok r_clearnet
    /\ r_tor.1.1 <= r_clearnet.1.1.
Proof.
  apply (all_offers_curve_dominates 50 [offer_a; offer_b]); [lia|].
  repeat constructor; simpl; try lia; by eexists.
Defined.

(** ** The classifier *)

Lemma N_of_upper_ascii c :
  N_of_ascii (upper_ascii c)
  = let n := N_of_ascii c in if ((97 <=? n) && (n <=? 122))%N then (n - 32)%N else n.
Proof.
  unfold upper_ascii. simpl.
  destruct ((97 <=? N_of_ascii c)%N && (N_of_ascii c <=? 122)%N) eqn:E; [|done].
  apply N_ascii_embedding. pose proof (N_ascii_bounded c). lia.
Qed.

Lemma N_of_lower_ascii c :
  N_of_ascii (lower_ascii c)
  = let n := N_of_ascii c in if ((65 <=? n) && (n <=? 90))%N then (n + 32)%N else n.
Proof.
  unfold lower_ascii. simpl.
  destruct ((65 <=? N_of_ascii c)%N && (N_of_ascii c <=? 90)%N) eqn:E; [|done].
  apply andb_true_iff in E as [_ E%N.leb_le].
  apply N_ascii_embedding. lia.
Qed.

Lemma N_of_ascii_inj c d : N_of_ascii c = N_of_ascii d -> c = d.
Proof. intros H. by rewrite <-(ascii_N_embedding c), <-(ascii_N_embedding d), H. Qed.

Lemma upper_lower_ascii c d :
  upper_ascii c = upper_ascii d <-> lower_ascii c = lower_ascii d.
Proof.
  split; intros H; apply (f_equal N_of_ascii) in H; apply N_of_ascii_inj;
    rewrite ?N_of_upper_ascii, ?N_of_lower_ascii in *; simpl in *;
    destruct (N.leb_spec 97 (N_of_ascii c)), (N.leb_spec (N_of_ascii c) 122),
      (N.leb_spec 97 (N_of_ascii d)), (N.leb_spec (N_of_ascii d) 122),
      (N.leb_spec 65 (N_of_ascii c)), (N.leb_spec (N_of_ascii c) 90),
      (N.leb_spec 65 (N_of_ascii d)), (N.leb_spec (N_of_ascii d) 90);
    simpl in *; lia.
Qed.

Lemma py_upper_equals_ignoring_case s t :
  py_upper s = py_upper t <-> equals_ignoring_case s t = true.
Proof.
  revert t; induction s as [|c s IH]; intros [|d t]; simpl; try done.
  rewrite andb_true_iff, <-IH, Ascii.eqb_eq, <-upper_lower_ascii.
  split; [intros [= -> ->]; done | intros [-> ->]; done].
Qed.

Lemma cond_restricts_spec cond : cond_restricts cond = true <-> restricting cond.
Proof.
  unfold cond_restricts, restricting.
  rewrite andb_true_iff, orb_true_iff, !andb_true_iff, !bool_decide_eq_true.
  by rewrite <-!py_upper_equals_ignoring_case.
Qed.

Lemma any_restricts_spec conds :
  any_restricts conds = true <-> exists cond, cond ∈ conds /\ restricting cond.
Proof.
  induction conds as [|c conds IH]; simpl.
  - split; [done | intros (c & Hc & _); by apply elem_of_nil in Hc].
  - destruct (cond_restricts c) eqn:Hc.
    + split; [|done]. intros _. exists c. split; [left|]. by apply cond_restricts_spec.
    + rewrite IH. split.
      * intros (c' & Hin & Hr). exists c'. split; [by right | done].
      * intros (c' & Hin & Hr). apply elem_of_cons in Hin as [->|Hin].
        -- apply cond_restricts_spec in Hr. congruence.
        -- by exists c'.
Qed.

Lemma equals_ignoring_case_upper v v' :
  equals_ignoring_case v v' = true -> py_upper v = py_upper v'.
Proof. apply py_upper_equals_ignoring_case. Qed.

Lemma cond_restricts_case c c' :
  same_but_value_case c c' -> cond_restricts c = cond_restricts c'.
Proof.
  intros (Hc & Ho & Hv). unfold cond_restricts. rewrite Hc, Ho.
  assert (py_upper (default ""%string (Condition.value c))
          = py_upper (default ""%string (Condition.value c'))) as ->; [|done].
  destruct Hv as [v v' Hv|]; simpl; [by apply equals_ignoring_case_upper | done].
Qed.

Lemma any_restricts_case conds conds' :
  Forall2 same_but_value_case conds conds' -> any_restricts conds = any_restricts conds'.
Proof.
  induction 1 as [|c c' conds conds' Hc _ IH]; simpl; [done|].
  by rewrite (cond_restricts_case c c' Hc), IH.
Qed.

(** C6: an offer is classified restricted exactly when one of its
    conditions is on [NODE_SOCKETS] with [NOT_EQUAL_TO] a value equal to
    [TOR], or [CONTAINS] a value equal to [CLEARNET], case ignored; an
    offer without conditions is not restricted; and two offers that
    differ by the case of their values are classified alike. *)
Theorem classifier_rule offer offer' :
  (is_tor_restricted offer = true
   <-> exists cond, cond ∈ default [] (Offer.conditions offer) /\ restricting cond)
  /\ (default [] (Offer.conditions offer) = [] -> is_tor_restricted offer = false)
  /\ (same_but_case offer offer' -> is_tor_restricted offer = is_tor_restricted offer').
Proof.
  unfold is_tor_restricted. split; [apply any_restricts_spec|]. split.
  - by intros ->.
  - intros [conds conds' H|]; simpl; [by apply any_restricts_case | done].
Qed.

Lemma classifier_rule_witness :
  is_tor_restricted offer_b = is_tor_restricted offer_b_upper.
Proof.
  apply (classifier_rule offer_b offer_b_upper).
  repeat constructor.
Defined.

(** ** Currency conversion *)

(** The floor is the floor of the double, not of the exact quotient:
    [29 / 100] is the double just below 0.29. *)
Example usd_to_sats_rounds :
  usd_to_sats (PyFloat (F64.round_Z 29)) (F64.round_Z 100) = Ok 28999999
  /\ 29 * 100000000 / 100 = 29000000.
Proof. split; reflexivity. Qed.

(** C8, as stated, fails: for an amount and a price whose scaled quotient
    exceeds the doubles, here [usd_to_sats(2.0**1000, 1.0)], the
    conversion raises instead of returning the floor. *)
Lemma usd_to_sats_overflows :
  F64.leb (S754_zero false) (F64.round_Z (2 ^ 1000)) = true
  /\ F64.gt0 (F64.round_Z 1) = true
  /\ usd_to_sats (PyFloat (F64.round_Z (2 ^ 1000))) (F64.round_Z 1) = Raise OverflowError.
Proof. repeat split; reflexivity. Qed.

(** C8, amended: for an amount that is not negative and a positive
    price, let [x] be the double [amount / price * 100_000_000], each
    operation rounded to nearest.  When [x] is finite, the conversion
    returns exactly [floor x], which is not negative; otherwise it raises. *)
Theorem usd_to_sats_floor usd_amount btc_usd_price :
  F64.leb (S754_zero false) (to_double usd_amount) = true ->
  F64.gt0 btc_usd_price = true ->
  let x := F64.mul (SFdiv F64.prec F64.emax (to_double usd_amount) btc_usd_price)
                   (F64.round_Z 100000000) in
  if F64.is_finite x
  then usd_to_sats usd_amount btc_usd_price = Ok (F64.floor x) /\ 0 <= F64.floor x
  else exists e, usd_to_sats usd_amount btc_usd_price = Raise e.
Proof.
  intros Ha Hp x.
  assert (Hrun : usd_to_sats usd_amount btc_usd_price = F64.to_int x).
  { unfold usd_to_sats, truediv, F64.div.
    destruct usd_amount; destruct btc_usd_price as [|[]| |[]]; try discriminate;
      reflexivity. }
  assert (Hsign : nan_or_nonneg x = true).
  { subst x. rewrite F64Facts.round_1e8. apply F64Facts.mul_sign.
    by apply F64Facts.div_sign. }
  rewrite Hrun. destruct (F64.is_finite x) eqn:Hfin.
  - apply F64Facts.to_int_floor; [|done]. by destruct x.
  - destruct x; try discriminate; by eexists.
Qed.

Lemma usd_to_sats_floor_witness :
  usd_to_sats (NpInt64 25) (F64.round_Z 100000) = Ok 25000 /\ 0 <= 25000.
Proof.
  apply (usd_to_sats_floor (NpInt64 25) (F64.round_Z 100000)); reflexivity.
Defined.

(** ** What the sampler records *)

Lemma py_getitem_elem {A} (l : list A) i x : py_getitem l i = Ok x -> x ∈ l.
Proof.
  unfold py_getitem. destruct (py_norm_index l i) as [j|]; [|done].
  destruct (l !! j) eqn:E; [|done]. intros [= <-]. by eapply list_elem_of_lookup_2.
Qed.

Lemma relax_liquidity_nonneg chunk dp b dp' :
  Forall (fun c : cell => 0 <= c.1) dp -> relax chunk dp b = Ok dp' ->
  Forall (fun c : cell => 0 <= c.1) dp'.
Proof.
  intros Hdp. unfold relax.
  destruct (py_getitem dp (b - Chunk.cost chunk)) as [[pl po]|] eqn:Hp; [simpl|done].
  destruct (py_getitem dp b) as [cur|] eqn:Hc; [simpl|done].
  destruct (Z.ltb_spec cur.1 (pl + Chunk.liquidity chunk)) as [Hlt|]; [|by intros [= <-]].
  unfold py_setitem. destruct (py_norm_index dp b) as [j|]; [|done]. intros [= <-].
  apply Forall_insert; [done|]. simpl.
  apply py_getitem_elem in Hc. rewrite Forall_forall in Hdp.
  specialize (Hdp cur Hc). simpl in Hdp. lia.
Qed.

Lemma solve_liquidity_nonneg budget_sats chunks max_liq total orders :
  solve budget_sats chunks = Ok (max_liq, total, orders) -> 0 <= max_liq.
Proof.
  unfold solve. destruct (fill_table budget_sats chunks) as [dp|] eqn:Hdp; [simpl|done].
  assert (Hnn : Forall (fun c : cell => 0 <= c.1) dp).
  { unfold fill_table in Hdp.
    eapply (for_each_preserves (Forall (fun c : cell => 0 <= c.1))); [| |exact Hdp].
    - intros dp0 chunk dp1 H0. unfold add_chunk.
      apply for_each_preserves; [|done].
      intros dp2 b dp3. apply relax_liquidity_nonneg.
    - by apply Forall_replicate. }
  destruct dp as [|c0 rest]; [done|]. simpl.
  destruct (max_scan rest c0) as [Hin _]. simpl in Hin.
  destruct (fold_left _ rest c0) as [liq al]. intros [= <- _ _].
  rewrite Forall_forall in Hnn. by apply (Hnn _ Hin).
Qed.

Lemma knapsack_liquidity_nonneg budget_sats offers incl max_liq total orders :
  knapsack_liquidity budget_sats offers incl = Ok (max_liq, total, orders) ->
  0 <= max_liq.
Proof.
  unfold knapsack_liquidity.
  destruct (build_chunks incl offers) as [chunks|]; [simpl|done].
  apply solve_liquidity_nonneg.
Qed.

Lemma sats_to_usd_nonneg sats btc_usd y :
  0 <= sats -> F64.gt0 btc_usd = true -> F64.is_finite btc_usd = true ->
  sats_to_usd sats btc_usd = Ok y -> nonneg_number y = true.
Proof.
  intros Hs Hgt Hfin.
  destruct (F64Facts.positive_finite _ Hgt Hfin) as (m & e & ->).
  unfold sats_to_usd, F64.mul_int_l, F64.div_int_r, F64.of_int.
  pose proof (F64Facts.round_Z_nonneg sats Hs) as Hx.
  rewrite F64Facts.round_1e8. intros H.
  assert (exists x, nonneg_number x = true
            /\ F64.div (F64.mul x (S754_finite false m e))
                       (S754_finite false 6710886400000000 (-26)) = Ok y)
    as (x & Hx' & [= <-]).
  { destruct (F64.round_Z sats) as [s|s| |s mx ex] eqn:E; try done;
      eexists; (split; [|exact H]); done. }
  by apply F64Facts.div_nonneg, F64Facts.mul_nonneg.
Qed.

Ltac inv_bind H :=
  repeat match type of H with
         | (_ ≫= _) = Ok _ =>
             let a := fresh "a" in
             let E := fresh "E" in
             apply bind_Ok in H as (a & E & H); try destruct a as [[? ?] ?]
         end.

Lemma for_each_count {A S} (P : nat -> S -> Prop) (body : S -> A -> result S) xs :
  (forall n s x s', P n s -> body s x = Ok s' -> P (Datatypes.S n) s') ->
  forall n s s', P n s -> for_each body xs s = Ok s' -> P (n + length xs)%nat s'.
Proof.
  intros Hstep. induction xs as [|x xs IH]; intros n s s' Hs; simpl.
  - intros [= <-]. by rewrite Nat.add_0_r.
  - destruct (body s x) as [s1|] eqn:E; [simpl|done]. intros H.
    replace (n + Datatypes.S (length xs))%nat with (Datatypes.S n + length xs)%nat by lia.
    eauto.
Qed.

Lemma coarse_point_recorded btc_usd ts cs cv usd cv' n :
  F64.gt0 btc_usd = true -> F64.is_finite btc_usd = true ->
  recorded n cv -> coarse_point btc_usd ts cs cv usd = Ok cv' ->
  recorded (Datatypes.S n) cv'.
Proof.
  intros Hgt Hfin Hcv H. unfold coarse_point in H. inv_bind H.
  injection H as <-.
  match goal with
  | E1 : knapsack_liquidity _ ts _ = Ok (?l1, _, _),
    E2 : knapsack_liquidity _ cs _ = Ok (?l2, _, _),
    S1 : sats_to_usd ?l1 _ = Ok ?y1,
    S2 : sats_to_usd ?l2 _ = Ok ?y2 |- _ =>
      pose proof (sats_to_usd_nonneg l1 _ y1
                    (knapsack_liquidity_nonneg _ _ _ _ _ _ E1) Hgt Hfin S1) as Hy1;
      pose proof (sats_to_usd_nonneg l2 _ y2
                    (knapsack_liquidity_nonneg _ _ _ _ _ _ E2) Hgt Hfin S2) as Hy2
  end.
  intros v. destruct (Hcv v) as (Hly & Hlc & Hnn).
  destruct v; simpl in *; rewrite !length_app; simpl;
    (split; [lia|]); (split; [lia|]); apply Forall_app; (split; [done|]);
    by repeat constructor.
Qed.

Lemma sample_curves_recorded btc_usd offers cv :
  F64.gt0 btc_usd = true -> F64.is_finite btc_usd = true ->
  sample_curves btc_usd offers = Ok cv ->
  recorded (length budgets_usd_coarse) cv.
Proof.
  intros Hgt Hfin H. unfold sample_curves in H.
  apply bind_Ok in H as (ts & _ & H). apply bind_Ok in H as (cs & _ & H).
  apply (for_each_count recorded) with (n := 0%nat) in H; [done| |].
  - intros n s x s'. by apply coarse_point_recorded.
  - intros v. by destruct v.
Qed.

(** Every point of a curve is what the solver returns at that budget, in
    USD. *)
Lemma for_each_prefix {A S} (Q : list A -> S -> Prop) (body : S -> A -> result S) :
  (forall done s x s', Q done s -> body s x = Ok s' -> Q (done ++ [x]) s') ->
  forall xs done s s', Q done s -> for_each body xs s = Ok s' -> Q (done ++ xs) s'.
Proof.
  intros Hstep. induction xs as [|x xs IH]; intros done s s' Hs; simpl.
  - intros [= <-]. by rewrite app_nil_r.
  - destruct (body s x) as [s1|] eqn:E; [simpl|done]. intros H.
    rewrite cons_middle, app_assoc. eapply IH; [|exact H]. by eapply Hstep.
Qed.

Lemma coarse_point_sampled btc_usd ts cs done cv usd cv' :
  sampled btc_usd (fun v => match v with TorEligible => ts | AllOffers => cs end) done cv ->
  coarse_point btc_usd ts cs cv usd = Ok cv' ->
  sampled btc_usd (fun v => match v with TorEligible => ts | AllOffers => cs end)
          (done ++ [usd]) cv'.
Proof.
  intros Hcv H. unfold coarse_point in H. inv_bind H. injection H as <-.
  intros v. destruct (Hcv v) as (Hly & Hlc & Hpts).
  destruct v; simpl in *; rewrite !length_app; simpl.
  all: split; [lia|]; split; [lia|]; intros i usd' Hi.
  all: apply lookup_app_Some in Hi as [Hi|[Hge Hi]].
  all: try (destruct (Hpts i usd' Hi) as (y & c & Hy & Hc & Hp);
            exists y, c; split; [by apply lookup_app_l_Some|];
            split; [by apply lookup_app_l_Some | exact Hp]).
  all: apply list_lookup_singleton_Some in Hi as [Hi <-].
  all: assert (i = length done) as -> by lia.
  all: eexists _, _; split; [rewrite <-Hly; apply list_lookup_middle; reflexivity|].
  all: split; [rewrite <-Hlc; apply list_lookup_middle; reflexivity|].
  all: unfold sampled_point; eauto 10.
Qed.

Lemma sample_curves_sampled btc_usd offers cv :
  sample_curves btc_usd offers = Ok cv ->
  exists offers_sorted,
    (forall v, py_sorted offer_price_per_sat (variant_offers v offers) = Ok (offers_sorted v))
    /\ sampled btc_usd offers_sorted budgets_usd_coarse cv.
Proof.
  intros H. unfold sample_curves in H.
  apply bind_Ok in H as (ts & Hts & H). apply bind_Ok in H as (cs & Hcs & H).
  exists (fun v => match v with TorEligible => ts | AllOffers => cs end). split.
  - by intros [].
  - apply (for_each_prefix
             (sampled btc_usd (fun v => match v with TorEligible => ts | AllOffers => cs end)))
      with (done := []) in H; [done| |].
    + intros done s x s'. apply coarse_point_sampled.
    + intros v. destruct v; (split; [done|]); (split; [done|]); by intros i usd ?.
Qed.

(** ** The checkpoints *)

Lemma np_where_eq_elem xs key i :
  i ∈ np_where_eq xs key <-> xs !! i = Some key.
Proof.
  unfold np_where_eq. rewrite list_elem_of_fmap. split.
  - intros ([j x] & -> & Hin). apply list_elem_of_filter in Hin as [Hx Hin].
    simpl in Hx. subst x. apply elem_of_lookup_imap in Hin as (j' & x' & [= -> ->] & H).
    done.
  - intros Hi. exists (i, key). split; [done|].
    apply list_elem_of_filter. split; [done|].
    apply elem_of_lookup_imap. eauto.
Qed.

Lemma elem_of_option_list {A} (o : option A) x : x ∈ option_list o <-> o = Some x.
Proof.
  destruct o as [y|]; simpl.
  - rewrite list_elem_of_singleton. split; congruence.
  - split; [by intros ?%elem_of_nil | done].
Qed.

Lemma annotate_point_spec v cv i anns :
  (i < length (liquidity_curve v cv))%nat ->
  length (cost_curve v cv) = length (liquidity_curve v cv) ->
  (i < length budgets_usd_coarse)%nat ->
  annotate_point v (liquidity_curve v cv) (cost_curve v cv) i anns
  = Ok (anns ++ option_list (annotation_at v cv i)).
Proof.
  intros Hy Hc Hx.
  destruct (lookup_lt_is_Some_2 (liquidity_curve v cv) i Hy) as [y Ey].
  destruct (lookup_lt_is_Some_2 (cost_curve v cv) i ltac:(lia)) as [c Ec].
  destruct (lookup_lt_is_Some_2 budgets_usd_coarse i Hx) as [x Ex].
  unfold annotate_point, annotation_at. rewrite Ey, Ec, Ex. simpl.
  rewrite (py_getitem_lookup _ (Z.of_nat i) y) by (rewrite ?Nat2Z.id; (lia || done)).
  simpl. destruct (F64.gt0 y) eqn:Hgt; [|by rewrite app_nil_r].
  rewrite (py_getitem_lookup _ (Z.of_nat i) c) by (rewrite ?Nat2Z.id; (lia || done)).
  simpl. unfold F64.div.
  replace (F64.is_zero y) with false by (by destruct y as [s|[]| |[] m e]).
  rewrite (py_getitem_lookup _ (Z.of_nat i) x) by (rewrite ?Nat2Z.id; (lia || done)).
  reflexivity.
Qed.

Lemma annotate_key_spec cv anns key_usd :
  recorded (length budgets_usd_coarse) cv ->
  annotate_key cv anns key_usd = Ok (anns ++ key_annotations cv key_usd).
Proof.
  intros Hcv. unfold annotate_key, key_annotations.
  destruct (np_where_eq budgets_usd_coarse key_usd) as [|i rest] eqn:E;
    [by rewrite app_nil_r|].
  assert (Hi : (i < length budgets_usd_coarse)%nat).
  { eapply lookup_lt_Some, np_where_eq_elem. rewrite E. left. }
  destruct (Hcv TorEligible) as (Hy1 & Hc1 & _), (Hcv AllOffers) as (Hy2 & Hc2 & _).
  rewrite (annotate_point_spec TorEligible cv i) by (lia || congruence). simpl.
  rewrite (annotate_point_spec AllOffers cv i) by (lia || congruence).
  by rewrite app_assoc.
Qed.

Lemma annotate_keys_spec cv keys anns :
  recorded (length budgets_usd_coarse) cv ->
  for_each (annotate_key cv) keys anns = Ok (anns ++ (keys ≫= key_annotations cv)).
Proof.
  intros Hcv. revert anns; induction keys as [|k keys IH]; intros anns; simpl.
  - by rewrite app_nil_r.
  - rewrite annotate_key_spec by done. simpl. rewrite IH. by rewrite app_assoc.
Qed.

Lemma annotation_at_Some v cv i a :
  annotation_at v cv i = Some a ->
  ann_variant a = v
  /\ budgets_usd_coarse !! i = Some (ann_budget_usd a)
  /\ exists y, liquidity_curve v cv !! i = Some y /\ F64.gt0 y = true.
Proof.
  unfold annotation_at.
  destruct (liquidity_curve v cv !! i) as [y|]; [simpl|done].
  destruct (cost_curve v cv !! i) as [c|]; [simpl|done].
  destruct (budgets_usd_coarse !! i) as [x|]; [simpl|done].
  destruct (F64.gt0 y) eqn:Hgt; [|done]. intros [= <-]. simpl. eauto.
Qed.

Lemma key_annotations_elem cv key_usd a :
  a ∈ key_annotations cv key_usd ->
  ann_budget_usd a = key_usd
  /\ exists i y, budgets_usd_coarse !! i = Some key_usd
       /\ liquidity_curve (ann_variant a) cv !! i = Some y /\ F64.gt0 y = true.
Proof.
  unfold key_annotations.
  destruct (np_where_eq budgets_usd_coarse key_usd) as [|i rest] eqn:E;
    [by intros ?%elem_of_nil|].
  assert (Hi : budgets_usd_coarse !! i = Some key_usd).
  { apply np_where_eq_elem. rewrite E. left. }
  intros [Ha|Ha]%elem_of_app;
    apply elem_of_option_list, annotation_at_Some in Ha as (Hv & Hx & y & Hy & Hgt);
    rewrite Hi in Hx; injection Hx as <-; rewrite Hv; eauto 6.
Qed.

(** An annotation carries the point and the percentage
    [100 * cost / liquidity], product and quotient rounded to doubles. *)
Lemma annotation_at_fields v cv i a :
  annotation_at v cv i = Some a ->
  exists x y c,
    budgets_usd_coarse !! i = Some x
    /\ liquidity_curve v cv !! i = Some y
    /\ cost_curve v cv !! i = Some c
    /\ F64.gt0 y = true
    /\ a = mk_annotation v x y
             (SFdiv F64.prec F64.emax
                (SFmul F64.prec F64.emax (F64.round_Z 100) c) y).
Proof.
  unfold annotation_at.
  destruct (liquidity_curve v cv !! i) as [y|]; [simpl|done].
  destruct (cost_curve v cv !! i) as [c|]; [simpl|done].
  destruct (budgets_usd_coarse !! i) as [x|]; [simpl|done].
  destruct (F64.gt0 y) eqn:Hgt; [|done]. intros [= <-]. by exists x, y, c.
Qed.

Lemma key_annotations_fields cv key_usd a :
  a ∈ key_annotations cv key_usd ->
  exists i y c,
    budgets_usd_coarse !! i = Some key_usd
    /\ liquidity_curve (ann_variant a) cv !! i = Some y
    /\ cost_curve (ann_variant a) cv !! i = Some c
    /\ F64.gt0 y = true
    /\ a = mk_annotation (ann_variant a) key_usd y
             (SFdiv F64.prec F64.emax
                (SFmul F64.prec F64.emax (F64.round_Z 100) c) y).
Proof.
  unfold key_annotations.
  destruct (np_where_eq budgets_usd_coarse key_usd) as [|i rest] eqn:E;
    [by intros ?%elem_of_nil|].
  assert (Hi : budgets_usd_coarse !! i = Some key_usd).
  { apply np_where_eq_elem. rewrite E. left. }
  intros [Ha|Ha]%elem_of_app;
    apply elem_of_option_list, annotation_at_fields in Ha
      as (x & y & c & Hx & Hy & Hc & Hgt & ->);
    rewrite Hi in Hx; injection Hx as <-; simpl; by exists i, y, c.
Qed.

Lemma key_budgets_NoDup : NoDup key_budgets.
Proof. compute_done. Qed.

Lemma option_list_NoDup {A} (o : option A) : NoDup (option_list o).
Proof. destruct o; simpl; [apply NoDup_singleton | apply NoDup_nil_2]. Qed.

Lemma key_annotations_NoDup cv keys :
  NoDup keys -> NoDup (keys ≫= key_annotations cv).
Proof.
  intros Hkeys. apply NoDup_bind; [| |exact Hkeys].
  - intros k1 k2 a _ _ [<- _]%key_annotations_elem [<- _]%key_annotations_elem. done.
  - intros k _. unfold key_annotations.
    destruct (np_where_eq budgets_usd_coarse k) as [|i rest]; [apply NoDup_nil_2|].
    apply NoDup_app. split; [apply option_list_NoDup|].
    split; [|apply option_list_NoDup].
    intros a [Hv _]%elem_of_option_list%annotation_at_Some
             [Hv' _]%elem_of_option_list%annotation_at_Some.
    congruence.
Qed.

Lemma budgets_usd_coarse_NoDup : NoDup budgets_usd_coarse.
Proof. compute_done. Qed.

(** C9, as stated, fails at the checkpoint of 10 USD: it is not a point of
    the coarse grid, so no annotation is drawn for it, although the
    maximum liquidity at that budget is not zero.  Here one BTC is worth
    100 000 000 USD, so that 10 USD are 10 sats, and the offer sells 1000
    sats for 3. *)
Lemma checkpoint_10_not_annotated :
  10 ∈ key_budgets
  /\ (budget_sats ← usd_to_sats (NpInt64 10) sat_price;
      knapsack_liquidity budget_sats [offer_a] true) = Ok (1000, 3, {["A"%string := 1]})
  /\ sample_curves sat_price [offer_a] = Ok single_recorded
  /\ annotations single_recorded = Ok single_annotations
  /\ ~ annotated single_annotations AllOffers 10.
Proof.
  split; [set_solver|]. split; [vm_compute; reflexivity|].
  split; [vm_compute; reflexivity|]. split; [vm_compute; reflexivity|].
  intros (a & Hin & _ & Hb). unfold single_annotations in Hin.
  repeat (apply elem_of_cons in Hin as [->|Hin]; [discriminate|]).
  by apply elem_of_nil in Hin.
Qed.

(** With the single offer, which sells 1000 sats for 3, every annotation
    sits at 1000 USD and reads 0.3 per cent: the double nearest to
    [100 * 3 / 1000]. *)
Example checkpoint_percentage :
  annotations single_recorded = Ok single_annotations
  /\ single_annotations <> []
  /\ Forall (fun a => ann_liquidity_usd a = F64.round_Z 1000
                      /\ ann_pct a = SFdiv F64.prec F64.emax
                                       (F64.round_Z 300) (F64.round_Z 1000))
            single_annotations.
Proof.
  split; [vm_compute; reflexivity|]. split; [discriminate|].
  unfold single_annotations. repeat constructor.
Qed.

(** C9, amended: for the curves the sampler records, the annotations are
    computed without failure, each of them once.  For every checkpoint
    and variant an annotation is drawn exactly when the checkpoint is a
    point of the coarse grid and the maximum liquidity recorded there for
    the variant is not zero.  An annotation sits at the point (checkpoint,
    liquidity in USD) and carries the fee ratio [100 * cost / liquidity],
    the product and the quotient rounded to doubles, of the cost and the
    liquidity in USD that the solver returns for the offers of the variant
    at the budget of the checkpoint.  A checkpoint that is not a point of
    the grid gets no annotation. *)
Theorem checkpoint_annotations btc_usd offers cv :
  F64.gt0 btc_usd = true -> F64.is_finite btc_usd = true ->
  sample_curves btc_usd offers = Ok cv ->
  exists anns,
    annotations cv = Ok anns
    /\ NoDup anns
    /\ (forall v key_usd, key_usd ∈ key_budgets ->
          (annotated anns v key_usd
           <-> exists i y, budgets_usd_coarse !! i = Some key_usd
                 /\ liquidity_curve v cv !! i = Some y
                 /\ F64.is_zero y = false))
    /\ (forall a, a ∈ anns ->
          exists i y c offers_sorted budget_sats max_liq total_cost orders,
            ann_budget_usd a ∈ key_budgets
            /\ budgets_usd_coarse !! i = Some (ann_budget_usd a)
            /\ liquidity_curve (ann_variant a) cv !! i = Some y
            /\ cost_curve (ann_variant a) cv !! i = Some c
            /\ py_sorted offer_price_per_sat (variant_offers (ann_variant a) offers)
               = Ok offers_sorted
            /\ usd_to_sats (NpInt64 (ann_budget_usd a)) btc_usd = Ok budget_sats
            /\ knapsack_liquidity budget_sats offers_sorted true
               = Ok (max_liq, total_cost, orders)
            /\ sats_to_usd max_liq btc_usd = Ok y
            /\ sats_to_usd total_cost btc_usd = Ok c
            /\ ann_liquidity_usd a = y
            /\ ann_pct a
               = SFdiv F64.prec F64.emax
                   (SFmul F64.prec F64.emax (F64.round_Z 100) c) y)
    /\ (forall v key_usd, key_usd ∉ budgets_usd_coarse -> ~ annotated anns v key_usd).
Proof.
  intros Hgt Hfin Hcv.
  pose proof (sample_curves_recorded _ _ _ Hgt Hfin Hcv) as Hrec.
  destruct (sample_curves_sampled _ _ _ Hcv) as (sorted & Hsorted & Hsampled).
  exists (key_budgets ≫= key_annotations cv).
  split; [by apply (annotate_keys_spec cv key_budgets [])|].
  split; [apply key_annotations_NoDup, key_budgets_NoDup|].
  assert (Hfwd : forall v key_usd,
            annotated (key_budgets ≫= key_annotations cv) v key_usd ->
            exists i y, budgets_usd_coarse !! i = Some key_usd
              /\ liquidity_curve v cv !! i = Some y /\ F64.gt0 y = true).
  { intros v key_usd (a & Hin & <- & <-).
    apply list_elem_of_bind in Hin as (key' & Hin & _).
    by apply key_annotations_elem in Hin as (-> & Hi). }
  split; [|split].
  - intros v key_usd Hkey. split.
    + intros (i & y & Hi & Hy & Hy0)%Hfwd. exists i, y.
      repeat split; try done. by destruct y as [s|[]| |[] m e].
    + intros (i & y & Hi & Hy & Hy0).
      destruct (Hrec v) as (Hly & Hlc & Hnn).
      assert (Hpos : F64.gt0 y = true).
      { rewrite F64Facts.gt0_nonzero, Hy0; [done|].
        rewrite Forall_forall in Hnn. by eapply Hnn, list_elem_of_lookup_2. }
      destruct (lookup_lt_is_Some_2 (cost_curve v cv) i) as [c Hc].
      { rewrite Hlc, <-Hly. by eapply lookup_lt_Some. }
      assert (Hwhere : exists rest, np_where_eq budgets_usd_coarse key_usd = i :: rest).
      { destruct (np_where_eq budgets_usd_coarse key_usd) as [|j rest] eqn:E.
        - apply np_where_eq_elem in Hi. rewrite E in Hi. by apply elem_of_nil in Hi.
        - exists rest. f_equal.
          assert (Hj : budgets_usd_coarse !! j = Some key_usd).
          { apply np_where_eq_elem. rewrite E. left. }
          by eapply (NoDup_lookup _ _ _ _ budgets_usd_coarse_NoDup). }
      destruct Hwhere as (rest & Hwhere).
      eexists. split; [|split].
      * apply list_elem_of_bind. exists key_usd. split; [|done].
        unfold key_annotations. rewrite Hwhere.
        assert (Hat : annotation_at v cv i = Some
                  (mk_annotation v key_usd y
                     (SFdiv F64.prec F64.emax (F64.mul (F64.round_Z 100) c) y))).
        { unfold annotation_at. rewrite Hy, Hc, Hi. simpl. by rewrite Hpos. }
        apply elem_of_app. destruct v; [left|right]; by apply elem_of_option_list.
      * done.
      * done.
  - intros a (key_usd & Hin & Hkey)%list_elem_of_bind.
    apply key_annotations_fields in Hin as (i & y & c & Hi & Hy & Hc & _ & Ha).
    destruct (Hsampled (ann_variant a)) as (_ & _ & Hpts).
    destruct (Hpts i key_usd Hi)
      as (y' & c' & Hy' & Hc' & b & l & t & o & Hb & Hk & Hl & Ht).
    assert (Some y' = Some y) as [= ->] by (by etrans; [symmetry; exact Hy'|]).
    assert (Some c' = Some c) as [= ->] by (by etrans; [symmetry; exact Hc'|]).
    assert (Hbudget : ann_budget_usd a = key_usd) by (by rewrite Ha).
    rewrite Hbudget.
    exists i, y, c, (sorted (ann_variant a)), b, l, t, o.
    repeat split; try done; by rewrite Ha.
  - intros v key_usd Hout (i & y & Hi & _)%Hfwd.
    by apply list_elem_of_lookup_2 in Hi.
Qed.

Lemma checkpoint_annotations_witness :
  exists anns,
    annotations sample_recorded = Ok anns
    /\ NoDup anns
    /\ (forall v key_usd, key_usd ∈ key_budgets ->
          (annotated anns v key_usd
           <-> exists i y, budgets_usd_coarse !! i = Some key_usd
                 /\ liquidity_curve v sample_recorded !! i = Some y
                 /\ F64.is_zero y = false))
    /\ (forall a, a ∈ anns ->
          exists i y c offers_sorted budget_sats max_liq total_cost orders,
            ann_budget_usd a ∈ key_budgets
            /\ budgets_usd_coarse !! i = Some (ann_budget_usd a)
            /\ liquidity_curve (ann_variant a) sample_recorded !! i = Some y
            /\ cost_curve (ann_variant a) sample_recorded !! i = Some c
            /\ py_sorted offer_price_per_sat
                 (variant_offers (ann_variant a) [offer_a; offer_b])
               = Ok offers_sorted
            /\ usd_to_sats (NpInt64 (ann_budget_usd a)) sat_price = Ok budget_sats
            /\ knapsack_liquidity budget_sats offers_sorted true
               = Ok (max_liq, total_cost, orders)
            /\ sats_to_usd max_liq sat_price = Ok y
            /\ sats_to_usd total_cost sat_price = Ok c
            /\ ann_liquidity_usd a = y
            /\ ann_pct a
               = SFdiv F64.prec F64.emax
                   (SFmul F64.prec F64.emax (F64.round_Z 100) c) y)
    /\ (forall v key_usd, key_usd ∉ budgets_usd_coarse -> ~ annotated anns v key_usd).
Proof.
  apply (checkpoint_annotations sat_price [offer_a; offer_b] sample_recorded);
    vm_compute; reflexivity.
Defined.

(** * Further properties

    Properties of the code that the specification does not state. *)

(** ** The solver: optimality, outcomes, bounds *)

Lemma total_cost_nonneg sel :
  Forall (fun c => 0 <= Chunk.cost c) sel -> 0 <= total_cost sel.
Proof. apply sum_with_nonneg. Qed.

Lemma sum_with_cons {A} (f : A -> Z) x l : sum_with f (x :: l) = f x + sum_with f l.
Proof. reflexivity. Qed.

Lemma exhaustive_cons budget_sats c rest :
  exhaustive budget_sats (c :: rest)
  = if Chunk.cost c <=? budget_sats
    then Z.max (exhaustive budget_sats rest)
               (Chunk.liquidity c + exhaustive (budget_sats - Chunk.cost c) rest)
    else exhaustive budget_sats rest.
Proof. reflexivity. Qed.

Lemma exhaustive_spec chunks :
  Forall (fun c => 0 <= Chunk.cost c) chunks ->
  forall budget_sats, 0 <= budget_sats ->
  (exists sel, feasible budget_sats chunks sel
     /\ total_liquidity sel = exhaustive budget_sats chunks)
  /\ (forall sel', feasible budget_sats chunks sel' ->
        total_liquidity sel' <= exhaustive budget_sats chunks).
Proof.
  induction 1 as [|c cs Hc Hcs IH]; intros b Hb.
  - split.
    + exists []. split; [by apply feasible_nil | done].
    + intros sel' [Hsub _]. apply submseteq_nil_r in Hsub as ->. done.
  - destruct (IH b Hb) as [(s0 & Hs0 & Hl0) Hbest0]. rewrite exhaustive_cons.
    destruct (Z.leb_spec (Chunk.cost c) b) as [Hle|Hgt].
    + destruct (IH (b - Chunk.cost c)) as [(s1 & [Hs1 Hc1] & Hl1) Hbest1]; [lia|].
      split.
      * destruct (Z.max_spec (exhaustive b cs)
                    (Chunk.liquidity c + exhaustive (b - Chunk.cost c) cs))
          as [[_ ->]|[_ ->]].
        -- exists (c :: s1). split; [split|].
           ++ by apply submseteq_skip.
           ++ unfold total_cost in *. rewrite sum_with_cons. lia.
           ++ unfold total_liquidity in *. rewrite sum_with_cons. lia.
        -- exists s0. split; [by apply feasible_cons | done].
      * intros sel' [Hsub Hcost].
        apply submseteq_cons_r in Hsub as [Hsub|(l' & Hperm & Hsub)].
        -- specialize (Hbest0 sel' (conj Hsub Hcost)). lia.
        -- unfold total_liquidity, total_cost in *.
           rewrite Hperm in Hcost |- *. rewrite sum_with_cons in Hcost |- *.
           assert (Hfit : sum_with Chunk.cost l' <= b - Chunk.cost c) by lia.
           specialize (Hbest1 l' (conj Hsub Hfit)). lia.
    + split.
      * exists s0. split; [by apply feasible_cons | done].
      * intros sel' [Hsub Hcost].
        apply submseteq_cons_r in Hsub as [Hsub|(l' & Hperm & Hsub)].
        -- exact (Hbest0 sel' (conj Hsub Hcost)).
        -- exfalso. unfold total_cost in *. rewrite Hperm, sum_with_cons in Hcost.
           pose proof (sum_with_nonneg Chunk.cost l'
                         (submseteq_Forall _ _ _ Hsub Hcs)). lia.
Qed.



Lemma for_each_Raise {A S} (P : exn -> Prop) (body : S -> A -> result S) xs :
  (forall s x e, body s x = Raise e -> P e) ->
  forall s e, for_each body xs s = Raise e -> P e.
Proof.
  intros Hbody. induction xs as [|x xs IH]; intros s e; simpl; [done|].
  destruct (body s x) as [s'|e'] eqn:E; simpl.
  - apply IH.
  - intros [= <-]. by eapply Hbody.
Qed.

Lemma py_getitem_Raise {A} (l : list A) i e :
  py_getitem l i = Raise e -> e = IndexError.
Proof.
  unfold py_getitem. destruct (py_norm_index l i); [destruct (l !! _)|]; congruence.
Qed.

Lemma relax_Raise chunk dp b e : relax chunk dp b = Raise e -> e = IndexError.
Proof.
  unfold relax.
  destruct (py_getitem dp (b - Chunk.cost chunk)) as [[pl po]|e1] eqn:E1; simpl;
    [|intros [= <-]; by eapply py_getitem_Raise].
  destruct (py_getitem dp b) as [cur|e2] eqn:E2; simpl;
    [|intros [= <-]; by eapply py_getitem_Raise].
  destruct (cur.1 <? _); [|done].
  unfold py_setitem. destruct (py_norm_index dp b); congruence.
Qed.

Lemma fill_table_Raise budget_sats chunks e :
  fill_table budget_sats chunks = Raise e -> e = IndexError.
Proof.
  unfold fill_table. revert e.
  apply (for_each_Raise (fun e => e = IndexError)).
  intros dp c. unfold add_chunk.
  apply (for_each_Raise (fun e => e = IndexError)).
  intros dp' b e. apply relax_Raise.
Qed.

Lemma fill_table_length budget_sats chunks dp :
  fill_table budget_sats chunks = Ok dp -> length dp = Z.to_nat (budget_sats + 1).
Proof.
  unfold fill_table. intros H.
  eapply (for_each_preserves (fun dp => length dp = Z.to_nat (budget_sats + 1)));
    [| |exact H].
  - intros dp0 c dp1 H0 H1. by rewrite (add_chunk_length _ _ _ _ H1).
  - apply length_replicate.
Qed.

Lemma add_chunk_empty_table budget_sats chunk :
  budget_sats < 0 ->
  add_chunk budget_sats [] chunk
  = if Chunk.cost chunk <=? budget_sats then Raise IndexError else Ok [].
Proof.
  intros Hb. unfold add_chunk, range_down.
  destruct (Z.leb_spec (Chunk.cost chunk) budget_sats) as [Hle|Hgt].
  - replace (Z.to_nat (budget_sats - (Chunk.cost chunk - 1)))
      with (S (Z.to_nat (budget_sats - Chunk.cost chunk))) by lia.
    simpl. unfold relax.
    rewrite (py_getitem_out_of_range (@nil cell)
               (budget_sats - Z.of_nat 0 - Chunk.cost chunk));
      [reflexivity | simpl; lia].
  - replace (Z.to_nat (budget_sats - (Chunk.cost chunk - 1))) with 0%nat by lia.
    reflexivity.
Qed.

Lemma fill_table_negative_budget budget_sats chunks :
  budget_sats < 0 ->
  match fill_table budget_sats chunks with
  | Ok dp => dp = [] /\ Forall (fun c => budget_sats < Chunk.cost c) chunks
  | Raise _ => Exists (fun c => Chunk.cost c <= budget_sats) chunks
  end.
Proof.
  intros Hb. unfold fill_table.
  replace (Z.to_nat (budget_sats + 1)) with 0%nat by lia. simpl.
  induction chunks as [|c cs IH]; simpl; [by split|].
  rewrite add_chunk_empty_table by done.
  destruct (Z.leb_spec (Chunk.cost c) budget_sats) as [Hle|Hgt]; simpl.
  - by left.
  - destruct (for_each _ cs []) as [dp|e].
    + destruct IH as [-> IH]. split; [done|]. by constructor.
    + by right.
Qed.

(** X2: what the solver does on every input. It returns only when the budget
    and all the costs are not negative. It raises [IndexError], a table
    index out of range, only when some chunk passes the test [cost <=
    budget] with a negative budget or a negative cost. It raises
    [ValueError], the [max] of an empty table, only when the budget is
    negative and every chunk costs more than the budget. It raises nothing
    else; the three conditions exclude one another and leave no case out. *)
Theorem solve_outcome budget_sats chunks :
  match solve budget_sats chunks with
  | Ok _ => 0 <= budget_sats /\ Forall (fun c => 0 <= Chunk.cost c) chunks
  | Raise IndexError =>
      Exists (fun c => Chunk.cost c <= budget_sats
                       /\ (budget_sats < 0 \/ Chunk.cost c < 0)) chunks
  | Raise ValueError =>
      budget_sats < 0 /\ Forall (fun c => budget_sats < Chunk.cost c) chunks
  | Raise _ => False
  end.
Proof.
  destruct (solve budget_sats chunks) as [r|e] eqn:Hs.
  { by eapply solve_Ok_contract. }
  unfold solve in Hs.
  destruct (fill_table budget_sats chunks) as [dp|e1] eqn:Hf; simpl in Hs.
  - (* the table was filled: the scan raised, on an empty table *)
    pose proof (fill_table_length _ _ _ Hf) as Hlen.
    destruct dp as [|c0 rest]; [|simpl in Hs; by destruct (fold_left _ _ _)].
    injection Hs as <-.
    assert (Hb : budget_sats < 0) by (simpl in Hlen; lia).
    pose proof (fill_table_negative_budget budget_sats chunks Hb) as Hneg.
    rewrite Hf in Hneg. by destruct Hneg.
  - injection Hs as <-. rewrite (fill_table_Raise _ _ _ Hf).
    destruct (Z.lt_ge_cases budget_sats 0) as [Hb|Hb].
    + pose proof (fill_table_negative_budget budget_sats chunks Hb) as Hneg.
      rewrite Hf in Hneg. eapply Exists_impl; [exact Hneg|]. simpl. intros c. lia.
    + destruct (decide (Forall (fun c => 0 <= Chunk.cost c) chunks)) as [Hnn|Hneg].
      * destruct (fill_table_ok budget_sats chunks Hb Hnn) as (dp & Hdp & _). congruence.
      * apply not_Forall_Exists in Hneg; [|intros c; apply _].
        eapply Exists_impl; [exact Hneg|]. simpl. intros c. lia.
Qed.

Lemma orders_of_lookup sel acct :
  orders_of sel !! acct
  = if decide (supply acct sel = 0%nat) then None else Some (Z.of_nat (supply acct sel)).
Proof.
  unfold supply. induction sel as [|c sel IH]; [done|].
  simpl. unfold add_order. rewrite filter_cons.
  destruct (decide (Chunk.account c = acct)) as [->|Hne].
  - rewrite lookup_insert_eq, IH. simpl.
    destruct (decide (length (filter _ sel) = 0%nat)) as [->|Hn]; simpl; f_equal; lia.
  - by rewrite lookup_insert_ne.
Qed.

Lemma supply_submseteq acct sel chunks :
  sel ⊆+ chunks -> (supply acct sel <= supply acct chunks)%nat.
Proof.
  intros Hsub. unfold supply. apply submseteq_length.
  induction Hsub as [|x l k _ IH|x y l|x l k _ IH|l k m _ IH1 _ IH2].
  - done.
  - rewrite !filter_cons. destruct (decide _); [by apply submseteq_skip | done].
  - rewrite !filter_cons. repeat destruct (decide _); try done. apply submseteq_swap.
  - rewrite filter_cons. destruct (decide _); [by apply submseteq_cons | done].
  - by etrans.
Qed.

(** X3: every count of the allocation the solver returns is at least 1 and
    at most the number of chunks the seller has in the chunk set: no seller
    is allocated more orders than the seller offers. *)
Theorem allocation_within_supply budget_sats chunks max_liq total seller_orders :
  solve budget_sats chunks = Ok (max_liq, total, seller_orders) ->
  forall acct n, seller_orders !! acct = Some n ->
    1 <= n <= Z.of_nat (supply acct chunks).
Proof.
  intros Hs acct n Hn.
  apply solve_Ok_optimal in Hs as (sel & _ & _ & -> & [Hsub _] & _).
  rewrite orders_of_lookup in Hn.
  pose proof (supply_submseteq acct _ _ Hsub).
  destruct (decide _); [done|]. injection Hn as <-. lia.
Qed.

Lemma allocation_within_supply_witness :
  1 <= 2 <= Z.of_nat (supply "A" small_chunks).
Proof.
  apply (allocation_within_supply 7 small_chunks 40 7
           {["A"%string := 2; "B"%string := 1]}).
  - vm_compute. reflexivity.
  - reflexivity.
Defined.

Lemma build_chunks_is_ok incl offers :
  is_ok (build_chunks incl offers) = true
  <-> Forall (fun o => is_ok (offer_chunks incl o) = true) offers.
Proof.
  split.
  - induction offers as [|o offers IH]; [constructor|].
    rewrite build_chunks_cons.
    destruct (offer_chunks incl o) as [cs|e] eqn:Ho; simpl; [|done].
    destruct (build_chunks incl offers) as [rest|e]; simpl; [|done].
    intros _. constructor; [by rewrite Ho | by apply IH].
  - intros H. by rewrite build_chunks_ok.
Qed.

Lemma solve_perm budget_sats chunks chunks' :
  chunks ≡ₚ chunks' ->
  match solve budget_sats chunks, solve budget_sats chunks' with
  | Ok r, Ok r' => r.1.1 = r'.1.1
  | Raise _, Raise _ => True
  | _, _ => False
  end.
Proof.
  intros Hperm.
  destruct (Z.lt_ge_cases budget_sats 0) as [Hb|Hb];
    [|destruct (decide (Forall (fun c => 0 <= Chunk.cost c) chunks)) as [Hnn|Hneg]].
  - destruct (solve budget_sats chunks) as [r|] eqn:E;
      [apply solve_Ok_contract in E; lia|].
    destruct (solve budget_sats chunks') as [r'|] eqn:E';
      [apply solve_Ok_contract in E'; lia | done].
  - assert (Hnn' : Forall (fun c => 0 <= Chunk.cost c) chunks').
    { eapply Forall_perm; [symmetry; exact Hperm | done]. }
    destruct (solve_optimal _ _ Hb Hnn) as (sel & -> & Hf & Hbest).
    destruct (solve_optimal _ _ Hb Hnn') as (sel' & -> & Hf' & Hbest'). simpl.
    assert (total_liquidity sel' <= total_liquidity sel).
    { apply Hbest. eapply feasible_mono; [| |exact Hf']; [lia|].
      apply Permutation_submseteq. by symmetry. }
    assert (total_liquidity sel <= total_liquidity sel'); [|lia].
    apply Hbest'. eapply feasible_mono; [| |exact Hf]; [lia|].
    by apply Permutation_submseteq.
  - destruct (solve budget_sats chunks) as [r|] eqn:E;
      [apply solve_Ok_contract in E as [_ ?]; done|].
    destruct (solve budget_sats chunks') as [r'|] eqn:E'; [|done].
    apply solve_Ok_contract in E' as [_ Hnn']. apply Hneg.
    eapply Forall_perm; [exact Hperm | done].
Qed.

(** X4: the maximum liquidity does not depend on the order of the offers.
    For two lists of offers that are permutations of each other,
    [knapsack_liquidity] returns the same maximum liquidity, or raises on
    both; so the sort by price of lines 215-216 changes no liquidity. *)
Theorem liquidity_independent_of_order budget_sats offers offers' incl :
  offers ≡ₚ offers' ->
  match knapsack_liquidity budget_sats offers incl,
        knapsack_liquidity budget_sats offers' incl with
  | Ok r, Ok r' => r.1.1 = r'.1.1
  | Raise _, Raise _ => True
  | _, _ => False
  end.
Proof.
  intros Hperm. unfold knapsack_liquidity.
  pose proof (build_chunks_is_ok incl offers) as Hok.
  pose proof (build_chunks_is_ok incl offers') as Hok'.
  destruct (build_chunks incl offers) as [cs|e] eqn:E;
    destruct (build_chunks incl offers') as [cs'|e'] eqn:E'; simpl in *.
  - apply build_chunks_Ok in E as ->. apply build_chunks_Ok in E' as ->.
    apply solve_perm. by rewrite Hperm.
  - assert (false = true); [|done].
    apply Hok'. eapply Forall_perm; [symmetry; exact Hperm | by apply Hok].
  - assert (false = true); [|done].
    apply Hok. eapply Forall_perm; [exact Hperm | by apply Hok'].
  - done.
Qed.

Lemma liquidity_independent_of_order_witness :
  match knapsack_liquidity 5 [offer_a; offer_b] true,
        knapsack_liquidity 5 [offer_b; offer_a] true with
  | Ok r, Ok r' => r.1.1 = r'.1.1
  | Raise _, Raise _ => True
  | _, _ => False
  end.
Proof.
  apply (liquidity_independent_of_order 5 [offer_a; offer_b] [offer_b; offer_a] true).
  apply perm_swap.
Defined.

Lemma sum_with_app {A} (f : A -> Z) l k : sum_with f (l ++ k) = sum_with f l + sum_with f k.
Proof. induction l as [|x l IH]; [done|]. rewrite <-app_comm_cons, !sum_with_cons. lia. Qed.

Lemma sum_with_positive {A} (f : A -> Z) l :
  Forall (fun x => 0 < f x) l -> sum_with f l <= 0 -> l = [].
Proof.
  destruct 1 as [|x l Hx Hl]; [done|]. rewrite sum_with_cons. intros H.
  pose proof (sum_with_nonneg f l) as Hnn.
  assert (0 <= sum_with f l).
  { apply Hnn. eapply Forall_impl; [exact Hl|]. simpl. intros; lia. }
  lia.
Qed.



(** X6: with a budget that is not negative and below the cost of every
    chunk, the solver returns maximum liquidity 0, total cost 0 and the
    empty allocation. *)
Theorem nothing_affordable budget_sats chunks :
  0 <= budget_sats ->
  Forall (fun c => budget_sats < Chunk.cost c) chunks ->
  solve budget_sats chunks = Ok (0, 0, ∅).
Proof.
  intros Hb Hdear.
  destruct (solve_optimal budget_sats chunks) as (sel & -> & [Hsub Hcost] & _); [lia| |].
  { eapply Forall_impl; [exact Hdear|]. simpl. intros; lia. }
  assert (sel = []) as ->; [|reflexivity].
  pose proof (submseteq_Forall _ _ _ Hsub Hdear) as Hsel.
  destruct Hsel as [|c sel Hc Hsel]; [done|]. exfalso.
  unfold total_cost in Hcost. rewrite sum_with_cons in Hcost.
  assert (0 <= sum_with Chunk.cost sel); [|lia].
  apply sum_with_nonneg. eapply Forall_impl; [exact Hsel|]. simpl. intros; lia.
Qed.

Lemma nothing_affordable_witness : solve 1 small_chunks = Ok (0, 0, ∅).
Proof.
  apply (nothing_affordable 1 small_chunks).
  - lia.
  - unfold small_chunks. repeat constructor; simpl; lia.
Defined.

Lemma sum_with_le {A} (f g : A -> Z) l :
  Forall (fun x => f x <= g x) l -> sum_with f l <= sum_with g l.
Proof.
  induction 1 as [|x l Hx _ IH]; [done|]. rewrite !sum_with_cons. lia.
Qed.

Lemma sum_with_submseteq {A} (f : A -> Z) l k :
  (forall x, 0 <= f x) -> l ⊆+ k -> sum_with f l <= sum_with f k.
Proof.
  intros Hf Hsub. destruct (submseteq_Permutation _ _ Hsub) as (m & ->).
  rewrite sum_with_app.
  assert (0 <= sum_with f m); [|lia].
  apply sum_with_nonneg, Forall_forall. auto.
Qed.

Lemma sum_with_bind {A B} (f : B -> Z) (g : A -> list B) l :
  sum_with f (l ≫= g) = sum_with (fun x => sum_with f (g x)) l.
Proof.
  induction l as [|x l IH]; [done|].
  rewrite bind_cons, sum_with_app, sum_with_cons. lia.
Qed.

Lemma sum_with_replicate {A} (f : A -> Z) n x :
  sum_with f (replicate n x) = Z.of_nat n * f x.
Proof.
  induction n as [|n IH]; [done|]. simpl replicate. rewrite sum_with_cons. lia.
Qed.

Lemma chunks_of_capacity incl o :
  sum_with (fun c => Z.max 0 (Chunk.liquidity c)) (chunks_of incl o)
  <= Z.max 0 (Offer.max_size o).
Proof.
  unfold chunks_of. destruct (offer_chunks incl o) as [cs|e] eqn:Ho; [|simpl; lia].
  apply offer_chunks_shape in Ho as (x & fee & _ & _ & Hmin & ->).
  rewrite sum_with_replicate. simpl.
  set (k := if negb _ then _ else _).
  assert (Hk : k <= Offer.max_size o / Offer.min_size o).
  { unfold k. destruct (negb _); lia. }
  destruct (Z.lt_trichotomy (Offer.min_size o) 0) as [Hneg|[?|Hpos]]; [|done|].
  - rewrite Z.max_l by lia. lia.
  - rewrite (Z.max_r 0 (Offer.min_size o)) by lia.
    destruct (Z.le_gt_cases k 0) as [Hk0|Hk0].
    + replace (Z.to_nat k) with 0%nat by lia. lia.
    + rewrite Z2Nat.id by lia.
      pose proof (Z.mul_div_le (Offer.max_size o) (Offer.min_size o) Hpos). nia.
Qed.

Lemma selection_within_capacity incl offers sel :
  sel ⊆+ offers ≫= chunks_of incl -> total_liquidity sel <= capacity offers.
Proof.
  intros Hsub. unfold total_liquidity, capacity.
  trans (sum_with (fun c => Z.max 0 (Chunk.liquidity c)) sel).
  { apply sum_with_le, Forall_forall. intros; lia. }
  trans (sum_with (fun c => Z.max 0 (Chunk.liquidity c)) (offers ≫= chunks_of incl)).
  { apply sum_with_submseteq; [intros; lia | done]. }
  rewrite sum_with_bind. apply sum_with_le, Forall_forall.
  intros o _. apply chunks_of_capacity.
Qed.

(** X7: the maximum liquidity [knapsack_liquidity] returns is never negative
    and never more than the sizes on offer: the sum of [max_size] over the
    offers, a negative [max_size] counting as 0. *)
Theorem liquidity_within_capacity budget_sats offers incl max_liq total seller_orders :
  knapsack_liquidity budget_sats offers incl = Ok (max_liq, total, seller_orders) ->
  0 <= max_liq <= capacity offers.
Proof.
  intros H. split; [by eapply knapsack_liquidity_nonneg|].
  apply knapsack_liquidity_Ok in H as (sel & -> & [Hsub _] & _).
  by eapply selection_within_capacity.
Qed.

Lemma liquidity_within_capacity_witness : 0 <= 3000 <= capacity [offer_a; offer_b].
Proof.
  apply (liquidity_within_capacity 50 [offer_a; offer_b] true 3000 7
           {["A"%string := 1; "B"%string := 1]}).
  vm_compute. reflexivity.
Defined.

Lemma sublist_Forall2_l {A B} (R : A -> B -> Prop) l k k' :
  l `sublist_of` k -> Forall2 R k k' ->
  exists l', l' `sublist_of` k' /\ Forall2 R l l'.
Proof.
  intros Hsub. revert k'. induction Hsub as [|x l k _ IH|x l k _ IH]; intros k' HR.
  - apply Forall2_nil_inv_l in HR as ->. by exists [].
  - apply Forall2_cons_inv_l in HR as (y & k2 & Hxy & HR & ->).
    destruct (IH _ HR) as (l' & Hl' & HRl). exists (y :: l').
    split; [by apply sublist_skip | by constructor].
  - apply Forall2_cons_inv_l in HR as (y & k2 & Hxy & HR & ->).
    destruct (IH _ HR) as (l' & Hl' & HRl). exists l'.
    split; [by apply sublist_cons | done].
Qed.

Lemma no_dearer_totals sel sel' :
  Forall2 no_dearer sel sel' ->
  total_liquidity sel' = total_liquidity sel /\ total_cost sel' <= total_cost sel.
Proof.
  unfold total_liquidity, total_cost.
  induction 1 as [|c c' sel sel' [Hl Hc] _ [IHl IHc]]; [done|].
  rewrite !sum_with_cons. lia.
Qed.

Lemma feasible_no_dearer budget_sats chunks chunks' sel :
  Forall2 no_dearer chunks chunks' -> feasible budget_sats chunks sel ->
  exists sel', feasible budget_sats chunks' sel'
    /\ total_liquidity sel' = total_liquidity sel.
Proof.
  intros HR [Hsub Hcost].
  apply submseteq_sublist_r in Hsub as (l2 & Hperm & Hsub).
  destruct (sublist_Forall2_l _ _ _ _ Hsub HR) as (sel' & Hsub' & HR').
  apply no_dearer_totals in HR' as [Hl Hc].
  exists sel'. unfold total_liquidity, total_cost in *.
  rewrite Hperm in Hcost. rewrite Hperm.
  split; [split|]; [by apply sublist_submseteq | unfold total_cost; lia | done].
Qed.

Lemma Forall2_bind_same {A B} (R : B -> B -> Prop) (f g : A -> list B) l :
  Forall (fun x => Forall2 R (f x) (g x)) l -> Forall2 R (l ≫= f) (l ≫= g).
Proof.
  induction 1 as [|x l Hx _ IH]; [constructor|].
  rewrite !bind_cons. by apply Forall2_app.
Qed.

Lemma modest_chunks (incl : bool) (o : Offer.t) :
  modest o ->
  exists n fee,
    0 <= fee
    /\ fee = Offer.min_size o
             * (Offer.fee_rate o + (if incl then default 0 (Offer.amboss_fee_rate o) else 0))
             / 1000000
    /\ offer_chunks incl o
       = Ok (replicate n (Chunk.mk (Offer.base_fee o + fee) (Offer.min_size o)
                            (default "unknown"%string (Offer.account o))))
    /\ n = Z.to_nat (if default false (Offer.allow_parallel o)
                     then Offer.max_size o / Offer.min_size o
                     else Z.min (Offer.max_size o / Offer.min_size o) 1).
Proof.
  intros (Hmin & Hbase & Hfee & Hamb & Hbound).
  assert (Hppm : 0 <= Offer.fee_rate o
                      + (if incl then default 0 (Offer.amboss_fee_rate o) else 0)
                 <= Offer.fee_rate o + default 0 (Offer.amboss_fee_rate o)).
  { destruct incl; lia. }
  eexists _, _. split; [|split; [reflexivity|split; [|reflexivity]]].
  - apply Z.div_pos; [|lia]. apply Z.mul_nonneg_nonneg; lia.
  - apply chunk_generation_below_2_52; [done|]. cbv zeta. split.
    + apply Z.mul_nonneg_nonneg; lia.
    + eapply Z.le_lt_trans; [|exact Hbound]. apply Z.mul_le_mono_nonneg_l; lia.
Qed.

Lemma modest_build_chunks incl offers :
  Forall modest offers ->
  build_chunks incl offers = Ok (offers ≫= chunks_of incl)
  /\ Forall (fun c => 0 <= Chunk.cost c) (offers ≫= chunks_of incl).
Proof.
  intros Hm. split.
  - apply build_chunks_ok. eapply Forall_impl; [exact Hm|]. simpl. intros o Ho.
    destruct (modest_chunks incl o Ho) as (n & fee & _ & _ & -> & _). done.
  - apply Forall_forall. intros c Hc.
    apply list_elem_of_bind in Hc as (o & Hc & Ho).
    rewrite Forall_forall in Hm. specialize (Hm o Ho).
    destruct (modest_chunks incl o Hm) as (n & fee & Hfee & _ & Hcs & _).
    unfold chunks_of in Hc. rewrite Hcs in Hc.
    apply elem_of_replicate in Hc as [-> _]. simpl.
    destruct Hm as (_ & ? & _). lia.
Qed.

Lemma modest_no_dearer o :
  modest o -> Forall2 no_dearer (chunks_of true o) (chunks_of false o).
Proof.
  intros Hm.
  destruct (modest_chunks true o Hm) as (n & fee & _ & Hfee & Hcs & Hn).
  destruct (modest_chunks false o Hm) as (n' & fee' & _ & Hfee' & Hcs' & Hn').
  unfold chunks_of. rewrite Hcs, Hcs'. subst n n'.
  apply Forall2_replicate. split; simpl; [done|].
  destruct Hm as (Hmin & _ & _ & Hamb & _). subst fee fee'.
  apply Z.add_le_mono_l, Z.div_le_mono; [lia|].
  apply Z.mul_le_mono_nonneg_l; lia.
Qed.

(** X8: for offers of positive size with fees that are not negative, and a
    fee product below [2 ^ 52] where the fee is exact, a budget that is not
    negative buys with [include_amboss_fee=False] at least the liquidity it
    buys with the Amboss fee included; both calls return. *)
Theorem excluding_amboss_fee_never_lowers_liquidity budget_sats offers :
  0 <= budget_sats -> Forall modest offers ->
  exists r_with r_without,
    knapsack_liquidity budget_sats offers true = Ok r_with
    /\ knapsack_liquidity budget_sats offers false = Ok r_without
    /\ r_with.1.1 <= r_without.1.1.
Proof.
  intros Hb Hm. unfold knapsack_liquidity.
  destruct (modest_build_chunks true offers Hm) as [-> Hnn].
  destruct (modest_build_chunks false offers Hm) as [-> Hnn']. simpl.
  destruct (solve_optimal _ _ Hb Hnn) as (sel & -> & Hf & _).
  destruct (solve_optimal _ _ Hb Hnn') as (sel' & -> & _ & Hbest').
  eexists _, _. split; [reflexivity|]. split; [reflexivity|]. simpl.
  destruct (feasible_no_dearer budget_sats (offers ≫= chunks_of true)
              (offers ≫= chunks_of false) sel)
    as (s & Hs & <-); [|done|by apply Hbest'].
  apply Forall2_bind_same. eapply Forall_impl; [exact Hm|]. apply modest_no_dearer.
Qed.

Lemma excluding_amboss_fee_never_lowers_liquidity_witness :
  exists r_with r_without,
    knapsack_liquidity 5 [offer_a; offer_b] true = Ok r_with
    /\ knapsack_liquidity 5 [offer_a; offer_b] false = Ok r_without
    /\ r_with.1.1 <= r_without.1.1.
Proof.
  apply (excluding_amboss_fee_never_lowers_liquidity 5 [offer_a; offer_b]).
  - lia.
  - repeat apply Forall_cons_2; [| |apply Forall_nil_2]; unfold modest; simpl; lia.
Defined.

(** ** The sort by price and the identifiers *)

(** *** The order of the doubles *)

Lemma ltb_rank x y :
  is_number x = true -> is_number y = true ->
  F64.ltb x y = true <-> lex_lt (rank x) (rank y).
Proof.
  unfold F64.ltb, SFltb, lex_lt.
  destruct x as [sx|[]| |[] mx ex], y as [sy|[]| |[] my ey]; simpl; try done;
    intros _ _; try (split; [intros; lia | done]); try (split; [done | intros; lia]).
  - destruct (Z.compare_spec ex ey); simpl;
      [|split; [done | intros; lia]|split; [intros; lia | done]].
    change (Pos.compare_cont Eq mx my) with (Pos.compare mx my).
    destruct (Pos.compare_spec mx my); simpl;
      (split; [try done; intros; lia | try done; intros; lia]).
  - destruct (Z.compare_spec ex ey); simpl;
      [|split; [intros; lia | done]|split; [done | intros; lia]].
    change (Pos.compare_cont Eq mx my) with (Pos.compare mx my).
    destruct (Pos.compare_spec mx my); simpl;
      (split; [try done; intros; lia | try done; intros; lia]).
Qed.

Lemma leb_rank x y :
  is_number x = true -> is_number y = true ->
  F64.leb x y = true <-> ~ lex_lt (rank y) (rank x).
Proof.
  unfold F64.leb, SFleb, lex_lt.
  destruct x as [sx|[]| |[] mx ex], y as [sy|[]| |[] my ey]; simpl; try done;
    intros _ _; try (split; [intros; lia | done]); try (split; [done | intros; lia]).
  - destruct (Z.compare_spec ex ey); simpl;
      [|split; [done | intros; lia]|split; [intros; lia | done]].
    change (Pos.compare_cont Eq mx my) with (Pos.compare mx my).
    destruct (Pos.compare_spec mx my); simpl;
      (split; [try done; intros; lia | try done; intros; lia]).
  - destruct (Z.compare_spec ex ey); simpl;
      [|split; [intros; lia | done]|split; [done | intros; lia]].
    change (Pos.compare_cont Eq mx my) with (Pos.compare mx my).
    destruct (Pos.compare_spec mx my); simpl;
      (split; [try done; intros; lia | try done; intros; lia]).
Qed.

(** *** The sort puts the keys in ascending order *)

Lemma insert_keyed_sorted {A} k (x : A) l :
  is_number k = true ->
  Forall (fun p => is_number p.1 = true) l ->
  StronglySorted ascending l ->
  StronglySorted ascending (insert_keyed k x l).
Proof.
  intros Hk Hnum Hs. induction Hs as [|[k' y] rest Hrest IH Hall]; simpl.
  - repeat constructor.
  - apply Forall_cons in Hnum as [Hk' Hnum]. simpl in Hk'.
    destruct (F64.ltb k k') eqn:E.
    + apply ltb_rank in E; [|done..]. constructor; [by constructor|].
      constructor.
      * unfold ascending, lex_lt in *. simpl. lia.
      * eapply Forall_impl; [exact Hall|]. intros [k2 z].
        unfold ascending, lex_lt in *. simpl. lia.
    + constructor; [by apply IH|].
      rewrite (insert_keyed_perm k x rest). constructor; [|done].
      unfold ascending. simpl. intros Hlt.
      apply ltb_rank in Hlt; [|done..]. congruence.
Qed.

Lemma sort_keyed_sorted {A} (l : list (F64.float * A)) :
  Forall (fun p => is_number p.1 = true) l ->
  StronglySorted ascending (sort_keyed l).
Proof.
  unfold sort_keyed. intros Hnum.
  assert (Hgen : forall acc,
             Forall (fun p : F64.float * A => is_number p.1 = true) acc ->
             StronglySorted ascending acc ->
             StronglySorted ascending
               (fold_left (fun acc kx => insert_keyed kx.1 kx.2 acc) l acc)).
  { induction Hnum as [|[k x] l Hk Hl IH]; intros acc Hacc Hs; [done|]. simpl.
    apply IH.
    - rewrite (insert_keyed_perm k x acc). by constructor.
    - by apply insert_keyed_sorted. }
  apply Hgen; constructor.
Qed.

Lemma StronglySorted_lookup {A} (R : relation A) l i j a b :
  StronglySorted R l -> (i < j)%nat ->
  l !! i = Some a -> l !! j = Some b -> R a b.
Proof.
  intros Hs. revert i j. induction Hs as [|x l Hl IH Hall]; intros i j Hij Hi Hj.
  - by rewrite lookup_nil in Hi.
  - destruct j as [|j]; [lia|]. simpl in Hj. destruct i as [|i]; simpl in Hi.
    + injection Hi as <-. rewrite Forall_forall in Hall.
      apply Hall. by eapply list_elem_of_lookup_2.
    + apply (IH i j); [lia | done..].
Qed.

Lemma with_keys_keys {A K} (key : A -> result K) xs keyed :
  with_keys key xs = Ok keyed -> Forall (fun p => key p.2 = Ok p.1) keyed.
Proof.
  revert keyed. induction xs as [|x xs IH]; intros keyed; simpl.
  - intros [= <-]. constructor.
  - destruct (key x) as [k|] eqn:Hk; [simpl|done].
    destruct (with_keys key xs) as [rest|]; [simpl|done].
    intros [= <-]. constructor; [done | by apply IH].
Qed.

Lemma truediv_int_number a b x : F64.truediv_int a b = Ok x -> is_number x = true.
Proof.
  unfold F64.truediv_int.
  destruct (b =? 0) eqn:Hb; [done|].
  destruct (a =? 0) eqn:Ha; [by intros [= <-]|].
  apply Z.eqb_neq in Hb, Ha.
  destruct (Z.abs a) as [|pa|pa] eqn:Ea; [lia| |lia].
  destruct (Z.abs b) as [|pb|pb] eqn:Eb; [lia| |lia].
  pose proof (F64Facts.div_core_nonneg pa 0 pb 0) as Hq.
  destruct (SFdiv_core_binary _ _ _ _ _ _) as [[q e] l]. simpl in Hq.
  pose proof (F64Facts.round_aux_number (xorb (a <? 0) (b <? 0)) q e l Hq) as Hn.
  destruct (binary_round_aux _ _ _ _ _ _); try done; by intros [= <-].
Qed.

Lemma offer_price_number o k : offer_price_per_sat o = Ok k -> is_number k = true.
Proof.
  unfold offer_price_per_sat.
  destruct (Offer.amboss_fee_rate o); [simpl|done]. apply truediv_int_number.
Qed.

(** X9: [sorted(offers, key=offer_price_per_sat)], when it returns, is a
    permutation of the offers in which the prices ascend: of two offers the
    one that comes first has a price per sat that is at most the price of
    the other, and both prices are computed. *)
Theorem offers_sorted_by_price offers offers_sorted :
  py_sorted offer_price_per_sat offers = Ok offers_sorted ->
  offers_sorted ≡ₚ offers
  /\ forall (i j : nat) a b,
       (i < j)%nat -> offers_sorted !! i = Some a -> offers_sorted !! j = Some b ->
       exists ka kb, offer_price_per_sat a = Ok ka /\ offer_price_per_sat b = Ok kb
         /\ F64.leb ka kb = true.
Proof.
  intros H. split; [by eapply py_sorted_Ok_perm|].
  unfold py_sorted in H.
  destruct (with_keys offer_price_per_sat offers) as [keyed|] eqn:Hk; [|done].
  simpl in H. injection H as <-.
  pose proof (with_keys_keys _ _ _ Hk) as Hkeys.
  assert (Hnum : Forall (fun p : F64.float * Offer.t => is_number p.1 = true) keyed).
  { eapply Forall_impl; [exact Hkeys|]. intros [k o]. simpl. apply offer_price_number. }
  pose proof (sort_keyed_sorted keyed Hnum) as Hs.
  assert (Hkeys' : Forall (fun p => offer_price_per_sat p.2 = Ok p.1) (sort_keyed keyed)).
  { eapply Forall_perm; [apply sort_keyed_perm | done]. }
  assert (Hnum' : Forall (fun p : F64.float * Offer.t => is_number p.1 = true)
                    (sort_keyed keyed)).
  { eapply Forall_perm; [apply sort_keyed_perm | done]. }
  intros i j a b Hij Hi Hj.
  rewrite list_lookup_fmap in Hi, Hj.
  destruct (sort_keyed keyed !! i) as [[ka a']|] eqn:Ei; [|done].
  destruct (sort_keyed keyed !! j) as [[kb b']|] eqn:Ej; [|done].
  simpl in Hi, Hj. injection Hi as ->. injection Hj as ->.
  rewrite Forall_forall in Hkeys', Hnum'.
  pose proof (Hkeys' _ (list_elem_of_lookup_2 _ _ _ Ei)) as Ha.
  pose proof (Hkeys' _ (list_elem_of_lookup_2 _ _ _ Ej)) as Hb.
  pose proof (Hnum' _ (list_elem_of_lookup_2 _ _ _ Ei)) as Hna.
  pose proof (Hnum' _ (list_elem_of_lookup_2 _ _ _ Ej)) as Hnb.
  simpl in *. exists ka, kb. split; [done|]. split; [done|].
  apply leb_rank; [done..|].
  exact (StronglySorted_lookup _ _ _ _ _ _ Hs Hij Ei Ej).
Qed.

Lemma offers_sorted_by_price_witness :
  [offer_b; offer_a] ≡ₚ [offer_a; offer_b]
  /\ forall (i j : nat) a b,
       (i < j)%nat -> [offer_b; offer_a] !! i = Some a -> [offer_b; offer_a] !! j = Some b ->
       exists ka kb, offer_price_per_sat a = Ok ka /\ offer_price_per_sat b = Ok kb
         /\ F64.leb ka kb = true.
Proof.
  apply (offers_sorted_by_price [offer_a; offer_b] [offer_b; offer_a]).
  vm_compute. reflexivity.
Defined.

Lemma with_keys_raises {A K} (key : A -> result K) xs x e :
  x ∈ xs -> key x = Raise e -> is_ok (with_keys key xs) = false.
Proof.
  intros Hin Hx. induction xs as [|y xs IH]; [by apply elem_of_nil in Hin|].
  simpl. destruct (key y) as [k|] eqn:Hy; [simpl|done].
  apply elem_of_cons in Hin as [->|Hin]; [congruence|].
  specialize (IH Hin). by destruct (with_keys key xs).
Qed.

Lemma py_sorted_raises {A} (key : A -> result F64.float) xs x e :
  x ∈ xs -> key x = Raise e -> is_ok (py_sorted key xs) = false.
Proof.
  intros Hin Hx. unfold py_sorted.
  pose proof (with_keys_raises key xs x e Hin Hx). by destruct (with_keys key xs).
Qed.

(** X10: an offer without [amboss_fee_rate], or with [min_size] 0, makes
    [offer_price_per_sat] raise, and with it the sort of line 216 and the
    whole sampling of the curves: one such offer among those fetched and no
    curve is computed. *)
Theorem one_bad_offer_stops_the_chart btc_usd offers o :
  o ∈ offers ->
  Offer.amboss_fee_rate o = None \/ Offer.min_size o = 0 ->
  is_ok (offer_price_per_sat o) = false
  /\ is_ok (sample_curves btc_usd offers) = false.
Proof.
  intros Hin Hbad.
  assert (Hkey : is_ok (offer_price_per_sat o) = false).
  { unfold offer_price_per_sat.
    destruct (Offer.amboss_fee_rate o) as [a|]; [simpl|done].
    destruct Hbad as [|Hmin]; [done|]. by rewrite Hmin. }
  split; [done|].
  destruct (offer_price_per_sat o) as [|e] eqn:Ho; [done|].
  unfold sample_curves.
  destruct (py_sorted _ (filter _ offers)); [simpl|done].
  pose proof (py_sorted_raises offer_price_per_sat offers o e Hin Ho).
  by destruct (py_sorted offer_price_per_sat offers).
Qed.

Lemma one_bad_offer_stops_the_chart_witness :
  is_ok (offer_price_per_sat zero_offer) = false
  /\ is_ok (sample_curves sat_price [offer_a; zero_offer]) = false.
Proof.
  apply (one_bad_offer_stops_the_chart sat_price [offer_a; zero_offer] zero_offer).
  - apply list_elem_of_further, list_elem_of_here.
  - right. reflexivity.
Defined.

Lemma same_but_id_set_id offer_id o : same_but_id o (set_id offer_id o).
Proof. by destruct o. Qed.

Lemma same_but_id_refl o : same_but_id o o.
Proof. by destruct o. Qed.

Lemma assign_ids_same offers offer_ids :
  Forall2 same_but_id offers (assign_ids offers offer_ids).
Proof.
  revert offer_ids. induction offers as [|o offers IH]; intros [|i ids]; simpl.
  - constructor.
  - constructor.
  - apply Forall_Forall2_diag, Forall_forall. intros; apply same_but_id_refl.
  - constructor; [apply same_but_id_set_id | apply IH].
Qed.

Lemma same_but_id_chunks incl o o' :
  same_but_id o o' -> offer_chunks incl o' = offer_chunks incl o.
Proof. intros <-. reflexivity. Qed.

Lemma same_but_id_price o o' :
  same_but_id o o' -> offer_price_per_sat o' = offer_price_per_sat o.
Proof. intros <-. reflexivity. Qed.

Lemma same_but_id_restricted o o' :
  same_but_id o o' -> is_tor_restricted o' = is_tor_restricted o.
Proof. intros <-. reflexivity. Qed.

Lemma same_but_id_filter offers offers' :
  Forall2 same_but_id offers offers' ->
  Forall2 same_but_id (filter (fun o => is_tor_restricted o = false) offers)
                      (filter (fun o => is_tor_restricted o = false) offers').
Proof.
  induction 1 as [|o o' offers offers' Ho _ IH]; [constructor|].
  rewrite !filter_cons, (same_but_id_restricted _ _ Ho).
  destruct (decide _); [by constructor | done].
Qed.

Lemma same_but_id_build_chunks incl offers offers' :
  Forall2 same_but_id offers offers' ->
  build_chunks incl offers' = build_chunks incl offers.
Proof.
  induction 1 as [|o o' offers offers' Ho _ IH]; [done|].
  by rewrite !build_chunks_cons, (same_but_id_chunks _ _ _ Ho), IH.
Qed.

Lemma same_but_id_with_keys offers offers' :
  Forall2 same_but_id offers offers' ->
  match with_keys offer_price_per_sat offers, with_keys offer_price_per_sat offers' with
  | Ok keyed, Ok keyed' => Forall2 same_keyed keyed keyed'
  | Raise e, Raise e' => e = e'
  | _, _ => False
  end.
Proof.
  induction 1 as [|o o' offers offers' Ho _ IH]; simpl; [constructor|].
  rewrite (same_but_id_price _ _ Ho).
  destruct (offer_price_per_sat o) as [k|e]; simpl; [|done].
  destruct (with_keys _ offers) as [keyed|e], (with_keys _ offers') as [keyed'|e'];
    simpl; try done.
  by constructor.
Qed.

Lemma same_keyed_insert k o o' l l' :
  same_but_id o o' -> Forall2 same_keyed l l' ->
  Forall2 same_keyed (insert_keyed k o l) (insert_keyed k o' l').
Proof.
  intros Ho. induction 1 as [|[k1 o1] [k2 o2] l l' [Hk Ho12] Hl IH]; simpl.
  - by repeat constructor.
  - simpl in Hk. subst k2. destruct (F64.ltb k k1).
    + constructor; [done|]. by constructor.
    + by constructor.
Qed.

Lemma same_keyed_sort l l' :
  Forall2 same_keyed l l' -> Forall2 same_keyed (sort_keyed l) (sort_keyed l').
Proof.
  unfold sort_keyed. intros H.
  assert (Hgen : forall acc acc', Forall2 same_keyed acc acc' ->
            Forall2 same_keyed
              (fold_left (fun acc kx => insert_keyed kx.1 kx.2 acc) l acc)
              (fold_left (fun acc kx => insert_keyed kx.1 kx.2 acc) l' acc')).
  { induction H as [|[k o] [k' o'] l l' [Hk Ho] _ IH]; intros acc acc' Hacc; [done|].
    simpl in *. subst k'. apply IH. by apply same_keyed_insert. }
  apply Hgen. constructor.
Qed.

Lemma same_but_id_sorted offers offers' :
  Forall2 same_but_id offers offers' ->
  match py_sorted offer_price_per_sat offers, py_sorted offer_price_per_sat offers' with
  | Ok s, Ok s' => Forall2 same_but_id s s'
  | Raise e, Raise e' => e = e'
  | _, _ => False
  end.
Proof.
  intros H. unfold py_sorted.
  pose proof (same_but_id_with_keys _ _ H) as Hk.
  destruct (with_keys _ offers) as [keyed|e], (with_keys _ offers') as [keyed'|e'];
    simpl; try done.
  apply Forall2_fmap. eapply Forall2_impl; [by apply same_keyed_sort|].
  by intros [k o] [k' o'] [_ ?].
Qed.

Lemma same_but_id_knapsack budget_sats offers offers' incl :
  Forall2 same_but_id offers offers' ->
  knapsack_liquidity budget_sats offers' incl = knapsack_liquidity budget_sats offers incl.
Proof.
  intros H. unfold knapsack_liquidity. by rewrite (same_but_id_build_chunks _ _ _ H).
Qed.

Lemma same_but_id_point btc_usd ts ts' cs cs' cv usd :
  Forall2 same_but_id ts ts' -> Forall2 same_but_id cs cs' ->
  coarse_point btc_usd ts' cs' cv usd = coarse_point btc_usd ts cs cv usd.
Proof.
  intros Ht Hc. unfold coarse_point.
  destruct (usd_to_sats _ _) as [budget_sats|]; [simpl|done].
  by rewrite (same_but_id_knapsack _ _ _ _ Ht), (same_but_id_knapsack _ _ _ _ Hc).
Qed.

Lemma for_each_ext {A S} (body body' : S -> A -> result S) xs s :
  (forall s x, body s x = body' s x) -> for_each body xs s = for_each body' xs s.
Proof.
  intros H. revert s. induction xs as [|x xs IH]; intros s; [done|].
  simpl. rewrite H. destruct (body' s x); [simpl|done]. apply IH.
Qed.

Lemma bind_Ok_l {A B} (a : A) (f : A -> result B) : (Ok a ≫= f) = f a.
Proof. reflexivity. Qed.

Lemma bind_Raise_l {A B} e (f : A -> result B) : (Raise e ≫= f) = Raise e.
Proof. reflexivity. Qed.

(** X11: the identifiers written into the offers by position (lines 208-210)
    have no effect on the curves: the sampler returns the same curves, or
    raises the same exception, with them and without them, whatever the list
    of identifiers and its length. *)
Theorem curves_ignore_offer_ids btc_usd offers offer_ids :
  sample_curves btc_usd (assign_ids offers offer_ids) = sample_curves btc_usd offers.
Proof.
  pose proof (assign_ids_same offers offer_ids) as H.
  unfold sample_curves.
  pose proof (same_but_id_sorted _ _ (same_but_id_filter _ _ H)) as Ht.
  pose proof (same_but_id_sorted _ _ H) as Hc.
  destruct (py_sorted _ (filter _ offers)) as [ts|e],
           (py_sorted _ (filter _ (assign_ids offers offer_ids))) as [ts'|e'];
    try done; [|by subst].
  rewrite !bind_Ok_l.
  destruct (py_sorted _ offers) as [cs|e],
           (py_sorted _ (assign_ids offers offer_ids)) as [cs'|e'];
    try done; [|by subst].
  rewrite !bind_Ok_l.
  apply for_each_ext. intros cv usd. by apply same_but_id_point.
Qed.

(** ** Conversion at a price of zero *)

(** *** Rounding does not lose a number that is not zero *)

Lemma shr_fexp_pos m e l :
  0 < m -> -1074 <= e ->
  exists mrs e', shr_fexp F64.prec F64.emax m e l = (mrs, e')
    /\ -1074 <= e' /\ 0 < shr_m mrs.
Proof.
  intros Hm He.
  destruct (F64Facts.shr_fexp_spec m e l) as (mrs & e' & Hs & He' & Hmrs); [lia|].
  exists mrs, e'. split; [done|].
  unfold fexp, emin, F64.prec, F64.emax in He'.
  split; [lia|]. rewrite Hmrs.
  destruct (Z.le_gt_cases e' e) as [Hle|Hgt].
  - replace (e' - e) with 0 by lia. rewrite Z.pow_0_r, Z.div_1_r. done.
  - assert (He'' : e' - e = Zdigits2 m - 53) by lia.
    pose proof (F64Facts.Zdigits2_lower m Hm) as Hlow.
    apply Z.div_str_pos. split; [apply Z.pow_pos_nonneg; lia|].
    eapply Z.le_trans; [|exact Hlow]. apply Z.pow_le_mono_r; lia.
Qed.

Lemma round_aux_nonzero s mx ex lx :
  0 < mx -> -1074 <= ex ->
  nonzero_number (binary_round_aux F64.prec F64.emax s mx ex lx) = true.
Proof.
  intros Hm He. unfold binary_round_aux.
  destruct (shr_fexp_pos mx ex lx Hm He) as (mrs1 & e1 & -> & He1 & Hm1).
  pose proof (F64Facts.round_nearest_even_bounds (shr_m mrs1) (loc_of_shr_record mrs1)
                ltac:(lia)) as Hr.
  destruct (shr_fexp_pos (round_nearest_even (shr_m mrs1) (loc_of_shr_record mrs1))
              e1 loc_Exact) as (mrs2 & e2 & -> & He2 & Hm2); [lia | done |].
  destruct (shr_m mrs2); [lia | | lia]. by destruct (_ <=? _).
Qed.

Lemma round_Z_nonzero a : a <> 0 -> nonzero_number (F64.round_Z a) = true.
Proof.
  intros Ha. unfold F64.round_Z, binary_normalize.
  destruct a as [|m|m]; [done | |];
    unfold binary_round, shl_align;
    (destruct (fexp _ _ _ - 0) as [|d|d] eqn:Ed;
     apply round_aux_nonzero; try done;
     unfold fexp, emin, F64.prec, F64.emax in *; lia).
Qed.

(** X12: with a price of zero, [0.0] or [-0.0], [usd_to_sats] raises
    whatever the amount: [ZeroDivisionError] for a Python float; for a NumPy
    integer, whose division gives a NaN or an infinity, what [int] raises on
    it, [ValueError] for the amount 0 and [OverflowError] for every other.
    *)
Theorem usd_to_sats_zero_price usd_amount btc_usd_price :
  F64.is_zero btc_usd_price = true ->
  usd_to_sats usd_amount btc_usd_price
  = Raise match usd_amount with
          | PyFloat _ => ZeroDivisionError
          | NpInt64 n => if n =? 0 then ValueError else OverflowError
          end.
Proof.
  destruct btc_usd_price as [sp| | |]; try done. intros _.
  destruct usd_amount as [x|n]; [reflexivity|].
  unfold usd_to_sats, truediv. rewrite bind_Ok_l.
  destruct (Z.eqb_spec n 0) as [->|Hn]; [reflexivity|].
  pose proof (round_Z_nonzero n Hn) as Hnz.
  destruct (F64.round_Z n) as [| | |]; try done.
Qed.

Lemma usd_to_sats_zero_price_witness :
  usd_to_sats (NpInt64 25) (S754_zero false) = Raise OverflowError.
Proof.
  apply (usd_to_sats_zero_price (NpInt64 25) (S754_zero false)). reflexivity.
Defined.

(** ** Labels *)

Lemma string_take_length n s :
  String.length (string_take n s) = Nat.min n (String.length s).
Proof.
  revert s. induction n as [|n IH]; intros [|c s]; simpl; try done. by rewrite IH.
Qed.

Lemma string_app_length s t :
  String.length (s +:+ t) = (String.length s + String.length t)%nat.
Proof. induction s as [|c s IH]; simpl; [done|]. by rewrite IH. Qed.

Lemma string_take_all n s : (String.length s <= n)%nat -> string_take n s = s.
Proof.
  revert s. induction n as [|n IH]; intros [|c s]; simpl; try done; [lia|].
  intros H. rewrite IH; [done | lia].
Qed.

Lemma string_app_nil_r s : (s +:+ "")%string = s.
Proof.
  induction s as [|c s IH]; [done|].
  change (String c (s +:+ "") = String c s). by f_equal.
Qed.

(** X13: for a [length] that is not negative, [truncate(s, length)] is never
    empty and never longer than [length + 3] characters, or 7, the length of
    ["unknown"], if that is more. For a string that is not empty it is the
    first [length] characters of [s] followed by ["..."] when [s] is longer
    than [length], and [s] itself otherwise. *)
Theorem truncate_fits s length :
  0 <= length ->
  truncate s length <> EmptyString
  /\ Z.of_nat (String.length (truncate s length)) <= Z.max 7 (length + 3)
  /\ (s <> EmptyString ->
      exists rest,
        truncate s length = (string_take (Z.to_nat length) s +:+ rest)%string
        /\ (rest = "..."%string /\ length < Z.of_nat (String.length s)
            \/ rest = EmptyString /\ Z.of_nat (String.length s) <= length)).
Proof.
  intros Hlen. unfold truncate.
  destruct (bool_decide_reflect (s = EmptyString)) as [->|Hs].
  { repeat split; try done. simpl; lia. }
  unfold py_str_slice_to. replace (length <? 0) with false by (symmetry; apply Z.ltb_ge; lia).
  destruct (Z.ltb_spec length (Z.of_nat (String.length s))) as [Hlt|Hge].
  - repeat split.
    + destruct (string_take _ s); done.
    + rewrite string_app_length, string_take_length. simpl. lia.
    + intros _. exists "..."%string. split; [done | by left].
  - repeat split; try done; [lia|].
    intros _. exists EmptyString. split; [|by right].
    rewrite string_take_all by lia. by rewrite string_app_nil_r.
Qed.

Lemma truncate_fits_witness :
  truncate "03abcdef0123" 8 <> EmptyString
  /\ Z.of_nat (String.length (truncate "03abcdef0123" 8)) <= Z.max 7 (8 + 3)
  /\ ("03abcdef0123"%string <> EmptyString ->
      exists rest,
        truncate "03abcdef0123" 8
        = (string_take (Z.to_nat 8) "03abcdef0123" +:+ rest)%string
        /\ (rest = "..."%string /\ 8 < Z.of_nat (String.length "03abcdef0123")
            \/ rest = EmptyString /\ Z.of_nat (String.length "03abcdef0123") <= 8)).
Proof. apply (truncate_fits "03abcdef0123" 8). lia. Defined.

Lemma insert_by_count_perm x l : insert_by_count x l ≡ₚ x :: l.
Proof.
  induction l as [|y l IH]; simpl; [done|].
  destruct (y.2 <? x.2); [done|]. rewrite IH. apply perm_swap.
Qed.

Lemma sorted_by_count_perm items : sorted_by_count items ≡ₚ items.
Proof.
  unfold sorted_by_count.
  assert (Hgen : forall acc,
            fold_left (fun acc x => insert_by_count x acc) items acc ≡ₚ acc ++ items).
  { induction items as [|x items IH]; intros acc; simpl; [by rewrite app_nil_r|].
    rewrite IH, insert_by_count_perm. by rewrite <-Permutation_middle. }
  by rewrite Hgen.
Qed.

Lemma insert_by_count_sorted x l :
  StronglySorted by_count l -> StronglySorted by_count (insert_by_count x l).
Proof.
  induction 1 as [|y rest Hrest IH Hall]; simpl; [repeat constructor|].
  destruct (Z.ltb_spec y.2 x.2) as [Hlt|Hge].
  - constructor; [by constructor|]. constructor; [unfold by_count; lia|].
    eapply Forall_impl; [exact Hall|]. unfold by_count. intros z. lia.
  - constructor; [done|]. rewrite insert_by_count_perm. by constructor.
Qed.

Lemma sorted_by_count_sorted items : StronglySorted by_count (sorted_by_count items).
Proof.
  unfold sorted_by_count.
  assert (Hgen : forall acc, StronglySorted by_count acc ->
            StronglySorted by_count
              (fold_left (fun acc x => insert_by_count x acc) items acc)).
  { induction items as [|x items IH]; intros acc Hacc; simpl; [done|].
    by apply IH, insert_by_count_sorted. }
  apply Hgen. constructor.
Qed.

Lemma fold_left_snoc {A B} (f : A -> B) l acc :
  fold_left (fun lines x => lines ++ [f x]) l acc = acc ++ (f <$> l).
Proof.
  revert acc. induction l as [|x l IH]; intros acc; simpl; [by rewrite app_nil_r|].
  by rewrite IH, <-app_assoc.
Qed.



Example build_label_sample :
  build_label [("A", 1); ("B", 3); ("C", 2)]%string (fun s => truncate s 8) 2
  = ("Orders 6" +:+ newline +:+ "B" +:+ newline +:+ "C")%string.
Proof. vm_compute. reflexivity. Qed.

(** ** One point of a curve, and the sampler as a whole *)

Lemma digits2_pos_iter_xO m d :
  Z.pos (digits2_pos (Pos.iter xO m d)) = Z.pos (digits2_pos m) + Z.pos d.
Proof.
  induction d as [|d IH] using Pos.peano_ind; simpl; [lia|].
  rewrite Pos.iter_succ. simpl. lia.
Qed.

Lemma round_Z_finite a :
  0 <= a < 2 ^ 1023 -> F64.is_finite (F64.round_Z a) = true.
Proof.
  intros [Ha Hb]. unfold F64.round_Z, binary_normalize.
  destruct a as [|m|m]; [done| |lia].
  assert (Hd : Zdigits2 (Z.pos m) <= 1023).
  { apply F64Facts.Zdigits2_le; lia. }
  simpl in Hd. unfold binary_round, shl_align.
  destruct (fexp _ _ (Z.pos (digits2_pos m) + 0) - 0) as [|d|d] eqn:Ed;
    apply F64Facts.round_aux_finite; try lia; simpl;
    unfold fexp, emin, F64.prec, F64.emax in *;
    try rewrite digits2_pos_iter_xO; lia.
Qed.

Lemma of_int_Ok a :
  0 <= a < 2 ^ 1023 ->
  exists x, F64.of_int a = Ok x /\ F64.is_finite x = true.
Proof.
  intros Ha. pose proof (round_Z_finite a Ha) as Hf. unfold F64.of_int.
  destruct (F64.round_Z a); try done; by eexists.
Qed.

Lemma sats_to_usd_Ok sats btc_usd :
  0 <= sats < 2 ^ 1023 -> is_ok (sats_to_usd sats btc_usd) = true.
Proof.
  intros Hs. unfold sats_to_usd, F64.mul_int_l, F64.div_int_r.
  destruct (of_int_Ok sats Hs) as (x & -> & _). rewrite !bind_Ok_l.
  change (F64.of_int 100000000) with (Ok (F64.round_Z 100000000)).
  rewrite bind_Ok_l, F64Facts.round_1e8. reflexivity.
Qed.



Lemma sum_with_const {A} (f : A -> Z) (l : list A) lo hi :
  Forall (fun x => lo <= f x <= hi) l ->
  Z.of_nat (length l) * lo <= sum_with f l <= Z.of_nat (length l) * hi.
Proof.
  induction 1 as [|x l Hx _ IH]; [simpl; lia|].
  rewrite sum_with_cons. simpl length. lia.
Qed.

Lemma first_cost_elem chunks acct c :
  c ∈ chunks -> Chunk.account c = acct ->
  exists c', c' ∈ chunks /\ first_cost chunks acct = Some (Chunk.cost c').
Proof.
  intros Hin Hacct. unfold first_cost.
  destruct (find _ chunks) as [c'|] eqn:E.
  - apply find_some in E as [Hin' _]. exists c'. split; [|done].
    by apply list_elem_of_In.
  - exfalso. apply find_none with (x := c) in E; [|by apply list_elem_of_In].
    by rewrite bool_decide_eq_false in E.
Qed.

Lemma total_cost_of_bounded chunks sel bound :
  Forall (fun c => 0 <= Chunk.cost c <= bound) chunks ->
  sel ⊆+ chunks ->
  0 <= total_cost_of chunks (orders_of sel) <= Z.of_nat (length chunks) * bound.
Proof.
  intros Hc Hsub. rewrite Forall_forall in Hc.
  set (pc := fun a => default 0 (first_cost chunks a)).
  assert (Hpc : forall c, c ∈ sel -> 0 <= pc (Chunk.account c) <= bound).
  { intros c Hin. pose proof (elem_of_submseteq _ _ _ Hin Hsub) as Hin'.
    destruct (first_cost_elem chunks _ c Hin' eq_refl) as (c' & Hc' & E).
    unfold pc. rewrite E. simpl. by apply Hc. }
  rewrite (total_cost_of_allocation chunks pc).
  - rewrite allocation_cost_orders.
    pose proof (sum_with_const (fun c => pc (Chunk.account c)) sel 0 bound) as Hs.
    destruct Hs as [Hlo Hhi]; [by apply Forall_forall|].
    pose proof (submseteq_length _ _ Hsub) as Hlen.
    split; [lia|].
    assert (Hlen' : Z.of_nat (length sel) <= Z.of_nat (length chunks)) by lia.
    destruct (decide (sel = [])) as [->|Hne].
    + destruct chunks as [|c chunks']; [simpl in *; lia|].
      specialize (Hc c ltac:(left)). simpl in Hhi.
      etrans; [exact Hhi|]. apply Z.mul_nonneg_nonneg; lia.
    + assert (0 <= bound).
      { destruct sel as [|c sel']; [done|]. specialize (Hpc c ltac:(left)). lia. }
      etrans; [exact Hhi|]. apply Z.mul_le_mono_nonneg_r; lia.
  - intros a n Ha. apply orders_of_key in Ha as (c & Hin & <-).
    pose proof (elem_of_submseteq _ _ _ Hin Hsub) as Hin'.
    destruct (first_cost_elem chunks _ c Hin' eq_refl) as (c' & Hc' & E).
    unfold pc. by rewrite E.
Qed.

Lemma usd_to_sats_nonneg usd_amount btc_usd_price budget_sats :
  F64.leb (S754_zero false) (to_double usd_amount) = true ->
  F64.gt0 btc_usd_price = true ->
  usd_to_sats usd_amount btc_usd_price = Ok budget_sats -> 0 <= budget_sats.
Proof.
  intros Ha Hp.
  set (x := F64.mul (SFdiv F64.prec F64.emax (to_double usd_amount) btc_usd_price)
                    (F64.round_Z 100000000)).
  assert (Hrun : usd_to_sats usd_amount btc_usd_price = F64.to_int x).
  { unfold usd_to_sats, truediv, F64.div.
    destruct usd_amount; destruct btc_usd_price as [|[]| |[]]; try discriminate;
      reflexivity. }
  assert (Hsign : nan_or_nonneg x = true).
  { subst x. rewrite F64Facts.round_1e8. apply F64Facts.mul_sign.
    by apply F64Facts.div_sign. }
  rewrite Hrun. intros Hx.
  destruct (F64.is_finite x) eqn:Hfin; [|destruct x; done].
  destruct (F64Facts.to_int_floor x) as [E Hn]; [by destruct x | done |].
  congruence.
Qed.

Lemma capacity_submseteq offers offers' :
  offers' ⊆+ offers -> capacity offers' <= capacity offers.
Proof. intros H. apply sum_with_submseteq; [intros; lia | done]. Qed.

Lemma in_range_submseteq offers offers' :
  offers' ⊆+ offers -> in_range offers -> in_range offers'.
Proof.
  intros Hsub (Hwf & Hcap & bound & Hb & Hn).
  pose proof (bind_submseteq (chunks_of true) _ _ Hsub) as Hcs.
  split; [by eapply submseteq_Forall|].
  split; [pose proof (capacity_submseteq _ _ Hsub); lia|].
  exists (Z.max 0 bound). split.
  - eapply submseteq_Forall; [exact Hcs|].
    eapply Forall_impl; [exact Hb|]. simpl. intros; lia.
  - pose proof (submseteq_length _ _ Hcs) as Hlen.
    destruct (Z.max_spec 0 bound) as [[Hpos ->]|[_ ->]];
      [|rewrite Z.mul_0_r; by apply Z.pow_pos_nonneg].
    eapply Z.le_lt_trans; [|exact Hn]. apply Z.mul_le_mono_nonneg_r; lia.
Qed.

Lemma for_each_Ok {A S} (body : S -> A -> result S) xs s :
  (forall s x, x ∈ xs -> is_ok (body s x) = true) ->
  is_ok (for_each body xs s) = true.
Proof.
  revert s. induction xs as [|x xs IH]; intros s H; [done|]. simpl.
  pose proof (H s x ltac:(left)) as Hx.
  destruct (body s x) as [s'|]; [|done]. rewrite bind_Ok_l.
  apply IH. intros s0 y Hy. apply H. by right.
Qed.

Lemma knapsack_in_range budget_sats offers :
  0 <= budget_sats -> in_range offers ->
  exists max_liq total seller_orders,
    knapsack_liquidity budget_sats offers true = Ok (max_liq, total, seller_orders)
    /\ 0 <= max_liq < 2 ^ 1023 /\ 0 <= total < 2 ^ 1023.
Proof.
  intros Hb (Hwf & Hcap & bound & Hbound & Hn).
  destruct (knapsack_liquidity_well_formed budget_sats offers Hb Hwf)
    as (sel & Hk & [Hsub Hcost] & _).
  eexists _, _, _. split; [exact Hk|].
  pose proof (selection_within_capacity true offers sel Hsub).
  pose proof (knapsack_liquidity_nonneg _ _ _ _ _ _ Hk).
  split; [lia|].
  destruct (build_chunks_well_formed offers Hwf) as [_ Hnn].
  pose proof (total_cost_of_bounded (offers ≫= chunks_of true) sel bound) as Ht.
  destruct Ht as [Hlo Hhi]; [|done|lia].
  apply Forall_forall. intros c Hc. rewrite Forall_forall in Hnn, Hbound.
  split; [by apply Hnn | by apply Hbound].
Qed.

Lemma coarse_point_Ok btc_usd ts cs cv usd :
  F64.leb (S754_zero false) (F64.round_Z usd) = true ->
  F64.gt0 btc_usd = true ->
  is_ok (usd_to_sats (NpInt64 usd) btc_usd) = true ->
  in_range ts -> in_range cs ->
  is_ok (coarse_point btc_usd ts cs cv usd) = true.
Proof.
  intros Husd Hgt Hconv Hts Hcs. unfold coarse_point.
  destruct (usd_to_sats (NpInt64 usd) btc_usd) as [budget_sats|] eqn:Eb; [|done].
  pose proof (usd_to_sats_nonneg (NpInt64 usd) btc_usd budget_sats Husd Hgt Eb) as Hb.
  rewrite bind_Ok_l.
  destruct (knapsack_in_range budget_sats ts Hb Hts) as (l1 & t1 & o1 & -> & Hl1 & Ht1).
  rewrite bind_Ok_l.
  pose proof (sats_to_usd_Ok l1 btc_usd Hl1) as Hy1.
  destruct (sats_to_usd l1 btc_usd); [|done]. rewrite bind_Ok_l.
  pose proof (sats_to_usd_Ok t1 btc_usd Ht1) as Hc1.
  destruct (sats_to_usd t1 btc_usd); [|done]. rewrite bind_Ok_l.
  destruct (knapsack_in_range budget_sats cs Hb Hcs) as (l2 & t2 & o2 & -> & Hl2 & Ht2).
  rewrite bind_Ok_l.
  pose proof (sats_to_usd_Ok l2 btc_usd Hl2) as Hy2.
  destruct (sats_to_usd l2 btc_usd); [|done]. rewrite bind_Ok_l.
  pose proof (sats_to_usd_Ok t2 btc_usd Ht2) as Hc2.
  destruct (sats_to_usd t2 btc_usd); [|done]. by rewrite bind_Ok_l.
Qed.

Lemma leb_zero_nonneg x :
  nonneg_number x = true -> F64.leb (S754_zero false) x = true.
Proof. by destruct x as [s|[]| |[] m e]. Qed.

Lemma grid_nonneg usd :
  usd ∈ budgets_usd_coarse ->
  F64.leb (S754_zero false) (F64.round_Z usd) = true.
Proof.
  unfold budgets_usd_coarse, arange. intros Hin.
  apply list_elem_of_fmap in Hin as (k & -> & _).
  apply leb_zero_nonneg, F64Facts.round_Z_nonneg. lia.
Qed.

(** X16: with a price that is positive and finite and at which the 21
    budgets of the grid convert to sats, and offers in range, the sampler
    returns: no exception on the way, and each of the four series has 21
    values, the liquidities numbers that are not negative. *)
Theorem sample_curves_returns btc_usd offers :
  F64.gt0 btc_usd = true -> F64.is_finite btc_usd = true ->
  Forall (fun usd => is_ok (usd_to_sats (NpInt64 usd) btc_usd) = true)
         budgets_usd_coarse ->
  in_range offers ->
  exists cv, sample_curves btc_usd offers = Ok cv
    /\ recorded (length budgets_usd_coarse) cv.
Proof.
  intros Hgt Hfin Hconv Hrange.
  assert (Hret : is_ok (sample_curves btc_usd offers) = true).
  { unfold sample_curves.
    set (offers_tor := filter (fun o => is_tor_restricted o = false) offers).
    assert (Hsub : offers_tor ⊆+ offers) by apply sublist_submseteq, sublist_filter.
    pose proof (in_range_submseteq _ _ Hsub Hrange) as Hrange_tor.
    destruct (py_sorted_perm offer_price_per_sat offers_tor) as (ts & -> & Hpt).
    { eapply Forall_impl; [exact (proj1 Hrange_tor)|]. apply offer_price_well_formed. }
    destruct (py_sorted_perm offer_price_per_sat offers) as (cs & -> & Hpc).
    { eapply Forall_impl; [exact (proj1 Hrange)|]. apply offer_price_well_formed. }
    rewrite !bind_Ok_l. apply for_each_Ok. intros cv usd Husd.
    rewrite Forall_forall in Hconv.
    apply coarse_point_Ok; [by apply grid_nonneg | done | by apply Hconv | |].
    - eapply in_range_submseteq; [|exact Hrange_tor]. by apply Permutation_submseteq.
    - eapply in_range_submseteq; [|exact Hrange]. by apply Permutation_submseteq. }
  destruct (sample_curves btc_usd offers) as [cv|] eqn:E; [|done].
  exists cv. split; [done|]. by eapply sample_curves_recorded.
Qed.

Lemma sample_curves_returns_witness :
  exists cv, sample_curves sat_price [offer_a; offer_b] = Ok cv
    /\ recorded (length budgets_usd_coarse) cv.
Proof.
  apply (sample_curves_returns sat_price [offer_a; offer_b]).
  - vm_compute. reflexivity.
  - vm_compute. reflexivity.
  - apply (bool_decide_unpack _). vm_compute. reflexivity.
  - split; [|split].
    + repeat apply Forall_cons_2; [| |apply Forall_nil_2];
        (unfold well_formed; simpl; repeat split; try lia; try (eexists; split; [reflexivity|lia]);
       apply Z.pow_pos_nonneg; lia).
    + vm_compute. reflexivity.
    + exists 4. split.
      * apply (bool_decide_unpack _). vm_compute. reflexivity.
      * vm_compute. reflexivity.
Defined.

(** ** Transaction identifiers *)

Lemma hex_class c :
  existsb (Re.in_range c) [("0", "9"); ("a", "f"); ("A", "F")]%char
  = bool_decide (c ∈ hex_digits).
Proof. destruct c as [[] [] [] [] [] [] [] []]; vm_compute; reflexivity. Qed.

Lemma starts_in_S ranges n s :
  starts_in ranges (S n) s
  = starts_in ranges n s
    && match string_drop n s with
       | String c _ => existsb (Re.in_range c) ranges
       | EmptyString => false
       end.
Proof.
  revert s. induction n as [|n IH]; intros [|c s]; try done.
  - simpl. by rewrite andb_true_r.
  - change (starts_in ranges (S (S n)) (String c s))
      with (existsb (Re.in_range c) ranges && starts_in ranges (S n) s).
    rewrite IH. simpl. by rewrite andb_assoc.
Qed.

Lemma string_drop_S n s :
  string_drop (S n) s
  = match string_drop n s with String _ s' => s' | EmptyString => EmptyString end.
Proof.
  revert s. induction n as [|n IH]; intros [|c s]; try done.
  change (string_drop (S (S n)) (String c s)) with (string_drop (S n) s).
  by rewrite IH.
Qed.

Lemma matches_repeat_class ranges n s :
  Re.matches (Re.Repeat (Re.Class ranges) n) s
  = if starts_in ranges n s then [string_drop n s] else [].
Proof.
  induction n as [|n IH]; [done|].
  change (Re.matches (Re.Repeat (Re.Class ranges) (S n)) s)
    with (Re.matches (Re.Repeat (Re.Class ranges) n) s ≫= Re.matches (Re.Class ranges)).
  rewrite IH, starts_in_S, string_drop_S.
  destruct (starts_in ranges n s); [|done]. simpl.
  destruct (string_drop n s) as [|c s']; [done|]. simpl.
  by destruct (existsb _ ranges).
Qed.

Lemma starts_in_all ranges n s :
  starts_in ranges n s = true /\ string_drop n s = EmptyString
  <-> String.length s = n
      /\ Forall (fun c => existsb (Re.in_range c) ranges = true) (characters s).
Proof.
  revert s. induction n as [|n IH]; intros [|c s]; simpl.
  - by repeat split.
  - split; [by intros [_ ?] | by intros [? _]].
  - split; [by intros [? _] | by intros [? _]].
  - rewrite andb_true_iff, Forall_cons. specialize (IH s). split.
    + intros [[Hc Hs] Hd]. destruct IH as [IH _].
      destruct (IH (conj Hs Hd)) as [-> ?]. done.
    + intros [[= Hl] [Hc Hs]]. destruct IH as [_ IH].
      destruct (IH (conj Hl Hs)). done.
Qed.

(** X17: [is_valid_txid] accepts a text exactly when it has 64 characters,
    each one of the digits [0-9], [a-f] and [A-F]. *)
Theorem valid_txid_is_64_hex_digits txid :
  Bot.is_valid_txid txid = true
  <-> String.length txid = 64%nat /\ Forall (fun c => c ∈ hex_digits) (characters txid).
Proof.
  unfold Bot.is_valid_txid, Re.fullmatch, Bot.txid_pattern.
  rewrite bool_decide_eq_true, matches_repeat_class.
  rewrite <-(Forall_iff (fun c => existsb (Re.in_range c)
                                   [("0", "9"); ("a", "f"); ("A", "F")]%char = true));
    [|intros c; by rewrite hex_class, bool_decide_eq_true].
  rewrite <-starts_in_all.
  destruct (starts_in _ 64 txid).
  - rewrite list_elem_of_singleton. split; [by intros <- | by intros [_ ->]].
  - split; [by intros ?%elem_of_nil | by intros [? _]].
Qed.

(** ** The watch list as a dictionary *)

Section Dict.
Context {V : Type}.
Implicit Types (d : Bot.dict V) (k : string) (v : V).

Lemma dict_get_Some d k v : Bot.dict_get d k = Some v -> (k, v) ∈ d.
Proof.
  induction d as [|[k' v'] d IH]; simpl; [done|].
  destruct (decide (k' = k)) as [->|]; [intros [= ->]; left | right; auto].
Qed.

Lemma dict_get_None d k : Bot.dict_get d k = None <-> k ∉ d.*1.
Proof.
  induction d as [|[k' v'] d IH]; simpl.
  - split; [intros _; apply not_elem_of_nil | done].
  - rewrite not_elem_of_cons. destruct (decide (k' = k)) as [->|Hne].
    + split; [done | by intros [? _]].
    + rewrite IH. split; [by intros ? | by intros [_ ?]].
Qed.

Lemma dict_get_elem d k v : NoDup d.*1 -> (k, v) ∈ d -> Bot.dict_get d k = Some v.
Proof.
  induction d as [|[k' v'] d IH]; simpl; intros Hnd Hin; [by apply elem_of_nil in Hin|].
  apply NoDup_cons in Hnd as [Hk' Hnd].
  apply elem_of_cons in Hin as [[= <- <-]|Hin].
  - by rewrite decide_True.
  - destruct (decide (k' = k)) as [->|]; [|by apply IH].
    exfalso. apply Hk'. apply list_elem_of_fmap. by exists (k, v).
Qed.

Lemma dict_get_set d k v k' :
  Bot.dict_get (Bot.dict_set d k v) k'
  = if decide (k = k') then Some v else Bot.dict_get d k'.
Proof.
  induction d as [|[k0 v0] d IH]; simpl.
  - by destruct (decide (k = k')).
  - destruct (decide (k0 = k)) as [->|Hne]; simpl.
    + by destruct (decide (k = k')).
    + rewrite IH. destruct (decide (k0 = k')) as [->|]; [|done].
      by rewrite decide_False.
Qed.

Lemma dict_set_keys d k v :
  (Bot.dict_set d k v).*1 = if decide (k ∈ d.*1) then d.*1 else d.*1 ++ [k].
Proof.
  induction d as [|[k0 v0] d IH]; csimpl; [done|].
  destruct (decide (k0 = k)) as [->|Hne]; csimpl.
  - rewrite decide_True; [done | left].
  - rewrite IH. destruct (decide (k ∈ d.*1)) as [Hin|Hnin].
    + rewrite decide_True; [done | by right].
    + rewrite decide_False; [done|]. by apply not_elem_of_cons.
Qed.

Lemma dict_set_NoDup d k v : NoDup d.*1 -> NoDup (Bot.dict_set d k v).*1.
Proof.
  intros Hnd. rewrite dict_set_keys. destruct (decide _); [done|].
  apply NoDup_app. split; [done|]. split; [|apply NoDup_singleton].
  intros x Hx ->%list_elem_of_singleton. done.
Qed.

Lemma dict_set_Forall (P : string * V -> Prop) d k v :
  Forall P d -> P (k, v) -> Forall P (Bot.dict_set d k v).
Proof.
  intros Hd Hv. induction Hd as [|[k0 v0] d H0 Hd IH]; simpl; [by repeat constructor|].
  destruct (decide (k0 = k)) as [->|]; constructor; auto.
Qed.

Lemma dict_set_same d k v : Bot.dict_get d k = Some v -> Bot.dict_set d k v = d.
Proof.
  induction d as [|[k0 v0] d IH]; simpl; [done|].
  destruct (decide (k0 = k)) as [->|]; [by intros [= ->] | intros; f_equal; auto].
Qed.

Lemma dict_set_set d k v v' :
  Bot.dict_set (Bot.dict_set d k v) k v' = Bot.dict_set d k v'.
Proof.
  induction d as [|[k0 v0] d IH]; simpl; [by rewrite decide_True|].
  destruct (decide (k0 = k)) as [->|Hne]; simpl.
  - by rewrite decide_True.
  - rewrite decide_False by done. by rewrite IH.
Qed.

Lemma dict_set_new d k v : k ∉ d.*1 -> Bot.dict_set d k v = d ++ [(k, v)].
Proof.
  induction d as [|[k0 v0] d IH]; simpl; [done|].
  intros [Hne Hnin]%not_elem_of_cons. rewrite decide_False by done. by rewrite IH.
Qed.

Lemma dict_del_app d d' k :
  Bot.dict_del (d ++ d') k = Bot.dict_del d k ++ Bot.dict_del d' k.
Proof. apply filter_app. Qed.

Lemma dict_del_absent d k : k ∉ d.*1 -> Bot.dict_del d k = d.
Proof.
  unfold Bot.dict_del. induction d as [|[k0 v0] d IH]; [done|].
  rewrite fmap_cons. intros [Hne Hnin]%not_elem_of_cons. rewrite filter_cons.
  simpl. rewrite decide_True by done. by rewrite IH.
Qed.

Lemma dict_get_del d k k' :
  Bot.dict_get (Bot.dict_del d k) k'
  = if decide (k = k') then None else Bot.dict_get d k'.
Proof.
  unfold Bot.dict_del. induction d as [|[k0 v0] d IH].
  - simpl. by destruct (decide (k = k')).
  - rewrite filter_cons. simpl. destruct (decide (k0 <> k)) as [Hne|Heq]; simpl.
    + rewrite IH. destruct (decide (k0 = k')) as [->|]; [|done].
      by rewrite decide_False.
    + apply dec_stable in Heq as ->. rewrite IH.
      destruct (decide (k = k')); [done|]. done.
Qed.

Lemma dict_del_NoDup d k : NoDup d.*1 -> NoDup (Bot.dict_del d k).*1.
Proof.
  intros Hnd. eapply sublist_NoDup; [exact Hnd|].
  apply fmap_sublist, sublist_filter.
Qed.

Lemma dict_del_Forall (P : string * V -> Prop) d k :
  Forall P d -> Forall P (Bot.dict_del d k).
Proof.
  intros H. apply Forall_forall. intros x Hx%list_elem_of_filter.
  rewrite Forall_forall in H. apply H, Hx.
Qed.

End Dict.

Lemma dict_del_set {V} (d : Bot.dict V) k v :
  Bot.dict_del (Bot.dict_set d k v) k = Bot.dict_del d k.
Proof.
  unfold Bot.dict_del. induction d as [|[k0 v0] d IH]; simpl.
  - rewrite filter_cons. simpl. by rewrite decide_False by (by intros ?).
  - destruct (decide (k0 = k)) as [->|Hne].
    + rewrite !filter_cons. simpl. by rewrite !decide_False by (by intros ?).
    + rewrite !filter_cons. simpl. rewrite !decide_True by done. by rewrite IH.
Qed.

Lemma existsb_chat ws chat_id :
  existsb (fun entry => Bot.Watcher.chat_id entry =? chat_id) ws = true
  <-> chat_id ∈ Bot.Watcher.chat_id <$> ws.
Proof.
  rewrite existsb_exists, list_elem_of_fmap. split.
  - intros (w & Hin & Heq%Z.eqb_eq). exists w. split; [done | by apply list_elem_of_In].
  - intros (w & -> & Hin). exists w. split; [by apply list_elem_of_In | by apply Z.eqb_eq].
Qed.

Lemma set_watched_tx_same st : Bot.set_watched_tx st (Bot.watched_tx st) = st.
Proof. by destruct st. Qed.

Lemma watch_spec st txid chat_id :
  Bot.watch st txid chat_id
  = if decide (watches st chat_id txid) then st
    else Bot.save_state
           (Bot.set_watched_tx st
              (Bot.dict_set (Bot.watched_tx st) txid
                 (watchers_of st txid ++ [Bot.Watcher.mk chat_id false]))).
Proof.
  unfold Bot.watch.
  destruct (decide (watches st chat_id txid)) as [Hw|Hnw];
    unfold watches, watchers_of in *;
    destruct (Bot.dict_get (Bot.watched_tx st) txid) as [ws|] eqn:Hget; simpl in *.
  - rewrite Hget. simpl.
    apply existsb_chat in Hw. rewrite Hw. apply set_watched_tx_same.
  - by apply elem_of_nil in Hw.
  - rewrite Hget. simpl.
    destruct (existsb _ ws) eqn:E; [|done]. by apply existsb_chat in E.
  - rewrite dict_get_set, decide_True by done. simpl. by rewrite dict_set_set.
Qed.

Lemma watch_well_kept st txid chat_id :
  Bot.is_valid_txid txid = true -> well_kept st -> well_kept (Bot.watch st txid chat_id).
Proof.
  intros Hvalid [Hnd Hall]. rewrite watch_spec.
  destruct (decide (watches st chat_id txid)) as [|Hnot]; [done|].
  split; simpl; [by apply dict_set_NoDup|].
  apply dict_set_Forall; [done|]. simpl. split; [done|].
  split; [by destruct (watchers_of st txid)|].
  rewrite fmap_app. simpl. apply NoDup_app. split; [|split].
  - unfold watchers_of.
    destruct (Bot.dict_get (Bot.watched_tx st) txid) as [ws|] eqn:Hget; [|constructor].
    apply dict_get_Some in Hget. rewrite Forall_forall in Hall.
    by destruct (Hall _ Hget) as (_ & _ & Hws).
  - intros x Hx ->%list_elem_of_singleton. by apply Hnot.
  - apply NoDup_singleton.
Qed.

Lemma save_state_persisted st : persisted (Bot.save_state st).
Proof. by left. Qed.

Lemma watch_persisted st txid chat_id :
  persisted st -> persisted (Bot.watch st txid chat_id).
Proof.
  intros H. rewrite watch_spec. destruct (decide _); [done | apply save_state_persisted].
Qed.

Lemma filter_length_eq {A} (P : A -> Prop) `{forall x, Decision (P x)} (l : list A) :
  length (filter P l) = length l <-> Forall P l.
Proof.
  induction l as [|x l IH]; [by split; [constructor|]|].
  rewrite filter_cons. pose proof (length_filter P l) as Hle.
  destruct (decide (P x)) as [Hx|Hx]; simpl.
  - rewrite Forall_cons. split.
    + intros [= Hl]. split; [done | by apply IH].
    + intros [_ Hl]. f_equal. by apply IH.
  - split; [lia | by intros [? _]%Forall_cons].
Qed.

Lemma not_watching_filter ws chat_id :
  Forall (fun w => Bot.Watcher.chat_id w <> chat_id) ws
  <-> chat_id ∉ Bot.Watcher.chat_id <$> ws.
Proof.
  rewrite Forall_forall, list_elem_of_fmap. split.
  - intros H (w & -> & Hin). by apply (H w).
  - intros H w Hin Heq. apply H. by exists w.
Qed.

Lemma remove_spec st arg args chat_id :
  Bot.is_valid_txid (Bot.strip arg) = true ->
  Bot.remove st (arg :: args) chat_id
  = match Bot.dict_get (Bot.watched_tx st) (Bot.strip arg) with
    | Some ws =>
        let kept := filter (fun w => Bot.Watcher.chat_id w <> chat_id) ws in
        (Bot.save_state
           (Bot.set_watched_tx st
              (if decide (kept = [])
               then Bot.dict_del (Bot.watched_tx st) (Bot.strip arg)
               else Bot.dict_set (Bot.watched_tx st) (Bot.strip arg) kept)),
         [if decide (chat_id ∈ Bot.Watcher.chat_id <$> ws)
          then Bot.StoppedMonitoring (Bot.strip arg)
          else Bot.NotMonitoring (Bot.strip arg)])
    | None => (st, [Bot.NotMonitoring (Bot.strip arg)])
    end.
Proof.
  intros Hvalid. unfold Bot.remove. rewrite Hvalid. simpl.
  destruct (Bot.dict_get (Bot.watched_tx st) (Bot.strip arg)) as [ws|]; [|done].
  cbv zeta. f_equal.
  - do 2 f_equal. destruct (decide (filter _ ws = [])) as [->|Hne]; simpl.
    + apply dict_del_set.
    + destruct (filter _ ws); done.
  - f_equal. destruct (Nat.eqb_spec (length ws) (length (filter
      (fun w => Bot.Watcher.chat_id w <> chat_id) ws))) as [Heq|Hne].
    + rewrite decide_False; [done|]. apply not_watching_filter.
      apply (proj1 (filter_length_eq _ ws)). by symmetry.
    + rewrite decide_True; [done|].
      destruct (decide (chat_id ∈ Bot.Watcher.chat_id <$> ws)) as [|Hnot]; [done|].
      exfalso. apply Hne. symmetry.
      apply (proj2 (filter_length_eq _ ws)). by apply not_watching_filter.
Qed.

Lemma remove_well_kept st args chat_id :
  well_kept st -> well_kept (Bot.remove st args chat_id).1.
Proof.
  intros [Hnd Hall]. destruct args as [|arg args]; [done|].
  destruct (Bot.is_valid_txid (Bot.strip arg)) eqn:Hvalid;
    [|unfold Bot.remove; by rewrite Hvalid].
  rewrite remove_spec by done.
  destruct (Bot.dict_get _ _) as [ws|] eqn:Hget; [|done]. cbv zeta. simpl.
  apply dict_get_Some in Hget. rewrite Forall_forall in Hall.
  destruct (Hall _ Hget) as (_ & _ & Hws). simpl in Hws.
  destruct (decide _) as [|Hne]; split; simpl.
  - by apply dict_del_NoDup.
  - by apply dict_del_Forall, Forall_forall.
  - by apply dict_set_NoDup.
  - apply dict_set_Forall; [by apply Forall_forall|]. simpl.
    split; [done|]. split; [done|].
    eapply sublist_NoDup; [exact Hws|]. apply fmap_sublist, sublist_filter.
Qed.

Lemma remove_persisted st args chat_id :
  persisted st -> persisted (Bot.remove st args chat_id).1.
Proof.
  intros H. destruct args as [|arg args]; [done|].
  destruct (Bot.is_valid_txid (Bot.strip arg)) eqn:Hvalid;
    [|unfold Bot.remove; by rewrite Hvalid].
  rewrite remove_spec by done.
  destruct (Bot.dict_get _ _) as [ws|]; [|done]. apply save_state_persisted.
Qed.

Lemma check_one_spec lookup st to_remove sent txid ws :
  Bot.check_one lookup (st, to_remove, sent) (txid, ws)
  = (if confirmed lookup txid && pending ws
     then Bot.save_state
            (Bot.set_watched_tx st
               (Bot.dict_set (Bot.watched_tx st) txid (mark_notified ws)))
     else st,
     if pending ws then to_remove else to_remove ++ [txid],
     sent ++ notices_of lookup (txid, ws)).
Proof.
  unfold Bot.check_one, notices_of, confirmed, pending. simpl.
  destruct (forallb _ ws); simpl.
  - by rewrite andb_false_r, app_nil_r.
  - rewrite andb_true_r. destruct (lookup txid) as [c|]; [|by rewrite app_nil_r].
    destruct (6 <=? c); [done | by rewrite app_nil_r].
Qed.

Lemma dict_set_middle {V} (d1 d2 : Bot.dict V) k v0 v :
  k ∉ d1.*1 -> Bot.dict_set (d1 ++ (k, v0) :: d2) k v = d1 ++ (k, v) :: d2.
Proof.
  induction d1 as [|[k1 v1] d1 IH]; simpl.
  - intros _. by rewrite decide_True.
  - intros [Hne Hnin]%not_elem_of_cons. rewrite decide_False by done. by rewrite IH.
Qed.

Lemma fold_left_step {A B} (f : A -> B -> A) x l a :
  fold_left f (x :: l) a = fold_left f l (f a x).
Proof. reflexivity. Qed.

Lemma check_loop lookup rest :
  forall done st to_remove sent,
    Bot.watched_tx st = done ++ rest -> NoDup (done ++ rest).*1 ->
    exists st',
      fold_left (Bot.check_one lookup) rest (st, to_remove, sent)
      = (st', to_remove ++ (filter (fun item => pending item.2 = false) rest).*1,
         sent ++ (rest ≫= notices_of lookup))
      /\ Bot.watched_tx st' = done ++ (settle lookup <$> rest)
      /\ Bot.block_notify_users st' = Bot.block_notify_users st
      /\ Bot.last_block_height st' = Bot.last_block_height st
      /\ (persisted st -> persisted st').
Proof.
  induction rest as [|[txid ws] rest IH]; intros done st to_remove sent Hw Hnd.
  - exists st. simpl. rewrite app_nil_r in Hw. by rewrite !app_nil_r.
  - rewrite fold_left_step, check_one_spec.
    assert (Hnin : txid ∉ done.*1).
    { rewrite fmap_app in Hnd. apply NoDup_app in Hnd as (_ & Hdis & _).
      intros Hin. apply (Hdis _ Hin). left. }
    set (st1 := if confirmed lookup txid && pending ws then _ else st).
    assert (Hw1 : Bot.watched_tx st1 = (done ++ [settle lookup (txid, ws)]) ++ rest).
    { unfold st1, settle. simpl. rewrite <-app_assoc. simpl.
      destruct (confirmed lookup txid && pending ws); [|done].
      simpl. rewrite Hw. by apply dict_set_middle. }
    assert (Hkeys : (settle lookup (txid, ws)).1 = txid).
    { unfold settle. simpl. by destruct (_ && _). }
    destruct (IH (done ++ [settle lookup (txid, ws)]) st1
                (if pending ws then to_remove else to_remove ++ [txid])
                (sent ++ notices_of lookup (txid, ws)) Hw1)
      as (st' & -> & Hw' & Hu & Hl & Hp).
    { rewrite <-app_assoc. simpl. rewrite fmap_app, fmap_cons, Hkeys.
      by rewrite fmap_app, fmap_cons in Hnd. }
    exists st'. split; [|split; [|split; [|split]]].
    + f_equal; [f_equal|].
      * rewrite filter_cons. simpl. destruct (pending ws); simpl.
        -- done.
        -- by rewrite <-app_assoc.
      * by rewrite bind_cons, app_assoc.
    + by rewrite Hw', <-app_assoc.
    + rewrite Hu. unfold st1. by destruct (_ && _).
    + rewrite Hl. unfold st1. by destruct (_ && _).
    + intros Hper. apply Hp. unfold st1. destruct (_ && _); [|done].
      apply save_state_persisted.
Qed.

Lemma filter_del {V} (d : Bot.dict V) txid to_remove :
  filter (fun item => item.1 ∉ to_remove) (Bot.dict_del d txid)
  = filter (fun item => item.1 ∉ txid :: to_remove) d.
Proof.
  unfold Bot.dict_del. induction d as [|item d IHd]; [done|].
  rewrite !filter_cons.
  destruct (decide (item.1 <> txid)) as [Hne|Heq].
  - rewrite filter_cons. destruct (decide (item.1 ∉ to_remove)) as [Hnin|Hin].
    + rewrite decide_True by (by apply not_elem_of_cons). by f_equal.
    + rewrite decide_False; [done|]. intros [_ ?]%not_elem_of_cons. done.
  - rewrite decide_False; [done|]. intros [? _]%not_elem_of_cons. done.
Qed.

Lemma delete_loop to_remove :
  forall st,
    exists st',
      fold_left (fun st txid =>
                   Bot.save_state (Bot.set_watched_tx st (Bot.dict_del (Bot.watched_tx st) txid)))
                to_remove st = st'
      /\ Bot.watched_tx st' = filter (fun item => item.1 ∉ to_remove) (Bot.watched_tx st)
      /\ Bot.block_notify_users st' = Bot.block_notify_users st
      /\ Bot.last_block_height st' = Bot.last_block_height st
      /\ (persisted st -> persisted st').
Proof.
  induction to_remove as [|txid to_remove IH]; intros st.
  - exists st. split; [done|]. split; [|done].
    induction (Bot.watched_tx st) as [|item d IHd]; [done|].
    rewrite filter_cons, decide_True by apply not_elem_of_nil. by f_equal.
  - rewrite fold_left_step.
    destruct (IH (Bot.save_state
                    (Bot.set_watched_tx st (Bot.dict_del (Bot.watched_tx st) txid))))
      as (st' & -> & Hw & Hu & Hl & Hp).
    exists st'. split; [done|]. split; [|split; [done|split; [done|]]].
    + rewrite Hw. simpl. apply filter_del.
    + intros _. apply Hp, save_state_persisted.
Qed.

Lemma settle_key lookup item : (settle lookup item).1 = item.1.
Proof. unfold settle. by destruct (_ && _). Qed.

Lemma settle_keys lookup (d : Bot.dict (list Bot.Watcher.t)) :
  (settle lookup <$> d).*1 = d.*1.
Proof.
  induction d as [|item d IH]; [done|]. csimpl. by rewrite settle_key, IH.
Qed.

Lemma settled_filter lookup (d : Bot.dict (list Bot.Watcher.t)) :
  forall extra,
    NoDup d.*1 -> (forall k, k ∈ extra -> k ∉ d.*1) ->
    filter (fun item => item.1 ∉ extra ++ (filter (fun item => pending item.2 = false) d).*1)
           (settle lookup <$> d)
    = settle lookup <$> filter (fun item => pending item.2 = true) d.
Proof.
  induction d as [|item d IH]; intros extra Hnd Hextra; [done|].
  rewrite fmap_cons in Hnd. apply NoDup_cons in Hnd as [Hhead Hnd].
  assert (Hsub : forall k, k ∈ (filter (fun item => pending item.2 = false) d).*1 -> k ∈ d.*1).
  { intros k (x & -> & Hx%list_elem_of_filter)%list_elem_of_fmap.
    apply list_elem_of_fmap. exists x. by destruct Hx. }
  assert (Hex : item.1 ∉ extra).
  { intros Hin. apply (Hextra _ Hin). rewrite fmap_cons. left. }
  rewrite fmap_cons, !filter_cons, settle_key.
  destruct (pending item.2) eqn:Hp.
  - rewrite (decide_False (P := true = false)) by done.
    rewrite (decide_True (P := true = true)) by done.
    rewrite decide_True.
    + rewrite fmap_cons. f_equal. apply IH; [done|].
      intros k Hk Hin. apply (Hextra k Hk). rewrite fmap_cons. by right.
    + intros [?|?%Hsub]%elem_of_app; done.
  - rewrite (decide_True (P := false = false)) by done.
    rewrite (decide_False (P := false = true)) by done.
    rewrite decide_False.
    + rewrite fmap_cons, cons_middle, app_assoc.
      apply IH; [done|]. intros k [Hk| ->%list_elem_of_singleton]%elem_of_app; [|done].
      intros Hin. apply (Hextra k Hk). rewrite fmap_cons. by right.
    + intros Hnot. apply Hnot. apply elem_of_app. right. rewrite fmap_cons. left.
Qed.

Lemma check_confirmations_spec st lookup :
  NoDup (Bot.watched_tx st).*1 ->
  exists st',
    Bot.check_confirmations st lookup = (st', Bot.watched_tx st ≫= notices_of lookup)
    /\ Bot.watched_tx st'
       = settle lookup <$> filter (fun item => pending item.2 = true) (Bot.watched_tx st)
    /\ Bot.block_notify_users st' = Bot.block_notify_users st
    /\ Bot.last_block_height st' = Bot.last_block_height st
    /\ (persisted st -> persisted st').
Proof.
  intros Hnd. unfold Bot.check_confirmations.
  destruct (check_loop lookup (Bot.watched_tx st) [] st [] [])
    as (st1 & -> & Hw1 & Hu1 & Hl1 & Hp1); [done..|].
  simpl in *.
  destruct (delete_loop
              (filter (fun item => pending item.2 = false) (Bot.watched_tx st)).*1 st1)
    as (st2 & -> & Hw2 & Hu2 & Hl2 & Hp2).
  exists st2. split; [done|]. split; [|split; [congruence|split; [congruence|auto]]].
  rewrite Hw2, Hw1.
  apply (settled_filter lookup (Bot.watched_tx st) []); [done|].
  by intros k ?%elem_of_nil.
Qed.

(** ** The handlers of the bot *)

Lemma mark_notified_chats ws :
  Bot.Watcher.chat_id <$> mark_notified ws = Bot.Watcher.chat_id <$> ws.
Proof. unfold mark_notified. rewrite <-list_fmap_compose. done. Qed.

Lemma handle_txid_state st text chat_id confirmations :
  (Bot.handle_txid st text chat_id confirmations).1
  = if Bot.is_valid_txid (Bot.strip text)
       && negb (match confirmations with Some c => 6 <=? c | None => false end)
    then Bot.watch st (Bot.strip text) chat_id else st.
Proof.
  unfold Bot.handle_txid. destruct (Bot.is_valid_txid _); [|done]. simpl.
  destruct confirmations as [c|]; [|done]. by destruct (6 <=? c).
Qed.

Lemma check_confirmations_well_kept st lookup :
  well_kept st -> well_kept (Bot.check_confirmations st lookup).1.
Proof.
  intros [Hnd Hall].
  destruct (check_confirmations_spec st lookup Hnd) as (st' & -> & Hw & _). simpl.
  split; rewrite Hw.
  - rewrite settle_keys. eapply sublist_NoDup; [exact Hnd|].
    apply fmap_sublist, sublist_filter.
  - apply Forall_fmap, Forall_forall. intros item [_ Hin]%list_elem_of_filter.
    rewrite Forall_forall in Hall. destruct (Hall _ Hin) as (Hv & Hne & Hws).
    unfold compose, settle.
    destruct (confirmed lookup item.1 && pending item.2); simpl;
      [|exact (conj Hv (conj Hne Hws))].
    split; [exact Hv|]. split; [by destruct item.2 | by rewrite mark_notified_chats].
Qed.

Lemma step_well_kept st ev : well_kept st -> well_kept (Bot.step st ev).
Proof.
  intros H. destruct ev as [text chat c|chat|chat|args chat|lookup|resp];
    unfold Bot.step.
  - rewrite handle_txid_state.
    destruct (Bot.is_valid_txid _) eqn:Hv; [|exact H]. rewrite andb_true_l.
    destruct (negb _); [apply watch_well_kept; [exact Hv | exact H] | exact H].
  - exact H.
  - unfold Bot.stopblocks. destruct (bool_decide _); exact H.
  - by apply remove_well_kept.
  - by apply check_confirmations_well_kept.
  - unfold Bot.check_new_block. destruct resp as [resp|]; [|exact H].
    destruct (_ =? 200); [|exact H]. destruct (Bot.json resp) as [[|tip blocks]|]; exact H.
Qed.

Lemma step_persisted st ev : well_kept st -> persisted st -> persisted (Bot.step st ev).
Proof.
  intros Hk H. destruct ev as [text chat c|chat|chat|args chat|lookup|resp];
    unfold Bot.step.
  - rewrite handle_txid_state.
    destruct (Bot.is_valid_txid _ && _); [by apply watch_persisted | done].
  - apply save_state_persisted.
  - unfold Bot.stopblocks. destruct (bool_decide _); [apply save_state_persisted | done].
  - by apply remove_persisted.
  - destruct (check_confirmations_spec st lookup (proj1 Hk)) as (st' & -> & _ & _ & _ & Hp).
    by apply Hp.
  - unfold Bot.check_new_block. destruct resp as [resp|]; [|done].
    destruct (_ =? 200); [|done]. by destruct (Bot.json resp) as [[|tip blocks]|].
Qed.

Lemma run_snoc evs ev : Bot.run (evs ++ [ev]) = Bot.step (Bot.run evs) ev.
Proof. unfold Bot.run. by rewrite fold_left_app. Qed.

Lemma run_kept evs : well_kept (Bot.run evs) /\ persisted (Bot.run evs).
Proof.
  induction evs as [|ev evs [IHk IHp]] using rev_ind.
  - split; [split; constructor | by right].
  - rewrite run_snoc. split; [by apply step_well_kept | by apply step_persisted].
Qed.

(** X18: whatever messages, commands and jobs the bot has handled since a
    start without a state file, every key of the watch list is a transaction
    identifier that [is_valid_txid] accepts, no key is there without a
    watcher, and no chat watches a transaction twice. *)
Theorem watch_list_stays_well_kept evs :
  let st := Bot.run evs in
  NoDup (Bot.watched_tx st).*1
  /\ forall txid watchers,
       Bot.dict_get (Bot.watched_tx st) txid = Some watchers ->
       Bot.is_valid_txid txid = true
       /\ watchers <> []
       /\ NoDup (Bot.Watcher.chat_id <$> watchers).
Proof.
  destruct (run_kept evs) as [[Hnd Hall] _]. split; [exact Hnd|].
  intros txid watchers Hget%dict_get_Some.
  rewrite Forall_forall in Hall. exact (Hall _ Hget).
Qed.

(** X19: whatever the bot has handled since a start without a state file, a
    new process that loads the state file finds the watch list and the block
    subscribers as the old process left them: every change was saved. *)
Theorem restart_restores_the_state evs :
  Bot.watched_tx (Bot.restart (Bot.run evs)) = Bot.watched_tx (Bot.run evs)
  /\ Bot.block_notify_users (Bot.restart (Bot.run evs))
     = Bot.block_notify_users (Bot.run evs).
Proof.
  destruct (run_kept evs) as [_ [Hfile|(Hfile & Hw & Hu)]];
    unfold Bot.restart, Bot.load_state; simpl; rewrite Hfile; simpl; [done|].
  by rewrite Hw, Hu.
Qed.

Lemma watchers_of_set st d txid :
  watchers_of (Bot.save_state (Bot.set_watched_tx st d)) txid
  = default [] (Bot.dict_get d txid).
Proof. reflexivity. Qed.

(** X20: [/remove txid] with a valid identifier leaves the chat not watching
    the transaction, keeps every other watcher of it, and leaves the
    watchers of every other transaction as they were. The reply is [Stopped
    monitoring] when the chat was watching the transaction and [You were not
    monitoring] when it was not. *)
Theorem remove_forgets_only_the_chat st arg args chat_id :
  Bot.is_valid_txid (Bot.strip arg) = true ->
  let txid := Bot.strip arg in
  let st' := (Bot.remove st (arg :: args) chat_id).1 in
  let replies := (Bot.remove st (arg :: args) chat_id).2 in
  ~ watches st' chat_id txid
  /\ (forall w, Bot.Watcher.chat_id w <> chat_id ->
        w ∈ watchers_of st' txid <-> w ∈ watchers_of st txid)
  /\ (forall other, other <> txid -> watchers_of st' other = watchers_of st other)
  /\ (watches st chat_id txid /\ replies = [Bot.StoppedMonitoring txid]
      \/ ~ watches st chat_id txid /\ replies = [Bot.NotMonitoring txid]).
Proof.
  intros Hvalid txid st' replies. subst st' replies.
  rewrite remove_spec by exact Hvalid. fold txid.
  unfold watches, watchers_of.
  destruct (Bot.dict_get (Bot.watched_tx st) txid) as [ws|] eqn:Hget; simpl.
  - set (kept := filter (fun w => Bot.Watcher.chat_id w <> chat_id) ws).
    assert (Hkept : default [] (Bot.dict_get
                      (if decide (kept = []) then Bot.dict_del (Bot.watched_tx st) txid
                       else Bot.dict_set (Bot.watched_tx st) txid kept) txid) = kept).
    { destruct (decide (kept = [])) as [->|_].
      - by rewrite dict_get_del, decide_True.
      - by rewrite dict_get_set, decide_True. }
    split; [|split; [|split]].
    + rewrite Hkept. intros (w & Heq & [Hne _]%list_elem_of_filter)%list_elem_of_fmap.
      by apply Hne.
    + intros w Hw. rewrite Hkept. unfold kept. rewrite list_elem_of_filter.
      split; [by intros [_ ?] | by split].
    + intros other Hne. destruct (decide (kept = [])).
      * by rewrite dict_get_del, decide_False.
      * by rewrite dict_get_set, decide_False.
    + destruct (decide (chat_id ∈ Bot.Watcher.chat_id <$> ws)); [by left | by right].
  - rewrite Hget. simpl. split; [by intros ?%elem_of_nil|]. split; [done|]. split; [done|].
    right. split; [by intros ?%elem_of_nil | done].
Qed.

Lemma remove_forgets_only_the_chat_witness :
  let txid := Bot.strip sample_txid in
  let st' := (Bot.remove sample_state [sample_txid] 7).1 in
  let replies := (Bot.remove sample_state [sample_txid] 7).2 in
  ~ watches st' 7 txid
  /\ (forall w, Bot.Watcher.chat_id w <> 7 ->
        w ∈ watchers_of st' txid <-> w ∈ watchers_of sample_state txid)
  /\ (forall other, other <> txid -> watchers_of st' other = watchers_of sample_state other)
  /\ (watches sample_state 7 txid /\ replies = [Bot.StoppedMonitoring txid]
      \/ ~ watches sample_state 7 txid /\ replies = [Bot.NotMonitoring txid]).
Proof.
  apply (remove_forgets_only_the_chat sample_state sample_txid [] 7).
  vm_compute. reflexivity.
Defined.

Lemma filter_other_chats ws chat_id :
  chat_id ∉ Bot.Watcher.chat_id <$> ws ->
  filter (fun w => Bot.Watcher.chat_id w <> chat_id) (ws ++ [Bot.Watcher.mk chat_id false])
  = ws.
Proof.
  intros Hnot. rewrite filter_app, filter_cons. simpl.
  rewrite decide_False by (by intros ?). rewrite filter_nil, app_nil_r.
  induction ws as [|w ws IH]; [done|].
  rewrite fmap_cons in Hnot. apply not_elem_of_cons in Hnot as [Hne Hnot].
  rewrite filter_cons, decide_True by done. by rewrite IH.
Qed.

(** X21: on a well-kept watch list, when a chat that does not watch a valid
    transaction sends it and the transaction has fewer than 6 confirmations
    or cannot be checked, the chat watches it afterwards, and [/remove] with
    the same text then gives back the watch list as it was before. *)
Theorem remove_undoes_watching st text chat_id confirmations :
  well_kept st ->
  Bot.is_valid_txid (Bot.strip text) = true ->
  ~ watches st chat_id (Bot.strip text) ->
  (forall c, confirmations = Some c -> c < 6) ->
  let st1 := (Bot.handle_txid st text chat_id confirmations).1 in
  watches st1 chat_id (Bot.strip text)
  /\ Bot.watched_tx (Bot.remove st1 [text] chat_id).1 = Bot.watched_tx st.
Proof.
  intros [Hnd Hall] Hvalid Hnot Hconf st1. subst st1.
  rewrite handle_txid_state, Hvalid, andb_true_l.
  assert (negb match confirmations with Some c => 6 <=? c | None => false end = true)
    as ->.
  { destruct confirmations as [c|]; [|done]. specialize (Hconf c eq_refl).
    apply negb_true_iff, Z.leb_gt. lia. }
  rewrite watch_spec, decide_False by exact Hnot.
  set (txid := Bot.strip text) in *.
  set (ws := watchers_of st txid) in *.
  split.
  { unfold watches. rewrite watchers_of_set, dict_get_set, decide_True by done.
    simpl. rewrite fmap_app. apply elem_of_app. right. left. }
  rewrite remove_spec by exact Hvalid. fold txid. simpl.
  rewrite dict_get_set, decide_True by done. simpl.
  rewrite filter_other_chats by exact Hnot.
  unfold ws, watchers_of in *.
  destruct (Bot.dict_get (Bot.watched_tx st) txid) as [ws0|] eqn:Hget; simpl.
  - rewrite decide_False.
    + rewrite dict_set_set. by apply dict_set_same.
    + apply dict_get_Some in Hget. rewrite Forall_forall in Hall.
      by destruct (Hall _ Hget) as (_ & ? & _).
  - rewrite dict_del_set. apply dict_del_absent. by apply dict_get_None.
Qed.

Lemma remove_undoes_watching_witness :
  let st1 := (Bot.handle_txid sample_state other_txid 7 (Some 0)).1 in
  watches st1 7 (Bot.strip other_txid)
  /\ Bot.watched_tx (Bot.remove st1 [other_txid] 7).1 = Bot.watched_tx sample_state.
Proof.
  apply (remove_undoes_watching sample_state other_txid 7 (Some 0)).
  - apply (bool_decide_unpack _). vm_compute. reflexivity.
  - vm_compute. reflexivity.
  - apply (bool_decide_unpack _). vm_compute. reflexivity.
  - intros c [= <-]. lia.
Defined.

(** X22: when a chat sends a valid transaction that has fewer than 6
    confirmations or cannot be checked, and then sends it again, the second
    message changes nothing in the state, whatever the explorer answers the
    second time: no second watcher is added. *)
Theorem watching_twice_changes_nothing st text chat_id confirmations again :
  Bot.is_valid_txid (Bot.strip text) = true ->
  (forall c, confirmations = Some c -> c < 6) ->
  let st1 := (Bot.handle_txid st text chat_id confirmations).1 in
  (Bot.handle_txid st1 text chat_id again).1 = st1.
Proof.
  intros Hvalid Hconf st1. subst st1.
  rewrite !handle_txid_state, Hvalid, !andb_true_l.
  assert (negb match confirmations with Some c => 6 <=? c | None => false end = true)
    as ->.
  { destruct confirmations as [c|]; [|done]. specialize (Hconf c eq_refl).
    apply negb_true_iff, Z.leb_gt. lia. }
  destruct (negb _); [|done].
  rewrite (watch_spec (Bot.watch st _ _)), decide_True; [done|].
  rewrite watch_spec. destruct (decide (watches st chat_id (Bot.strip text))); [done|].
  unfold watches. rewrite watchers_of_set, dict_get_set, decide_True by done.
  simpl. rewrite fmap_app. apply elem_of_app. right. left.
Qed.

Lemma watching_twice_changes_nothing_witness :
  let st1 := (Bot.handle_txid sample_state other_txid 9 None).1 in
  (Bot.handle_txid st1 other_txid 9 (Some 3)).1 = st1.
Proof.
  apply (watching_twice_changes_nothing sample_state other_txid 9 None (Some 3)).
  - vm_compute. reflexivity.
  - intros c [=].
Defined.

Lemma pending_exists ws :
  pending ws = true <-> exists w, w ∈ ws /\ Bot.Watcher.notified w = false.
Proof.
  unfold pending. rewrite negb_true_iff, <-not_true_iff_false, forallb_forall. split.
  - intros Hnot. induction ws as [|w ws IH].
    + exfalso. apply Hnot. by intros x [].
    + destruct (Bot.Watcher.notified w) eqn:Hw.
      * destruct IH as (w' & Hin & Hw').
        { intros Hall. apply Hnot. intros x [<-|Hx]; [done | by apply Hall]. }
        exists w'. split; [by right | done].
      * exists w. split; [left | done].
  - intros (w & Hin%list_elem_of_In & Hw) Hall. specialize (Hall w Hin). congruence.
Qed.

Lemma dict_get_item {V} (item : string * V) (d : Bot.dict V) k :
  Bot.dict_get (item :: d) k
  = if decide (item.1 = k) then Some item.2 else Bot.dict_get d k.
Proof. by destruct item. Qed.

Lemma dict_get_settled lookup (d : Bot.dict (list Bot.Watcher.t)) txid :
  NoDup d.*1 ->
  Bot.dict_get (settle lookup <$> filter (fun item => pending item.2 = true) d) txid
  = match Bot.dict_get d txid with
    | Some ws => if pending ws then Some (settle lookup (txid, ws)).2 else None
    | None => None
    end.
Proof.
  induction d as [|[k ws] d IH]; [done|].
  rewrite fmap_cons. intros [Hk Hnd]%NoDup_cons. cbn [fst] in Hk.
  rewrite filter_cons, (dict_get_item (k, ws) d).
  cbn [fst snd].
  destruct (decide (k = txid)) as [->|Hne].
  - destruct (pending ws) eqn:Hp.
    + rewrite decide_True by done. rewrite fmap_cons, dict_get_item, settle_key.
      cbn [fst snd]. by rewrite decide_True.
    + rewrite decide_False by done. rewrite IH by done.
      apply dict_get_None in Hk. by rewrite Hk.
  - destruct (decide (pending ws = true)); [|by apply IH].
    rewrite fmap_cons, dict_get_item, settle_key. cbn [fst snd].
    rewrite decide_False by done. by apply IH.
Qed.

Lemma watchers_after_pass st lookup txid :
  NoDup (Bot.watched_tx st).*1 ->
  watchers_of (Bot.check_confirmations st lookup).1 txid
  = if pending (watchers_of st txid)
    then if confirmed lookup txid
         then mark_notified (watchers_of st txid)
         else watchers_of st txid
    else [].
Proof.
  intros Hnd.
  destruct (check_confirmations_spec st lookup Hnd) as (st' & -> & Hw & _). simpl.
  unfold watchers_of. rewrite Hw, dict_get_settled by exact Hnd.
  destruct (Bot.dict_get (Bot.watched_tx st) txid) as [ws|]; [|done]. simpl.
  unfold settle. simpl. destruct (pending ws); [|done]. simpl.
  rewrite andb_true_r. by destruct (confirmed lookup txid).
Qed.

Lemma notices_of_pass st lookup chat_id txid :
  NoDup (Bot.watched_tx st).*1 ->
  Bot.Confirmed chat_id txid ∈ (Bot.check_confirmations st lookup).2
  <-> confirmed lookup txid = true
      /\ exists w, w ∈ watchers_of st txid
           /\ Bot.Watcher.chat_id w = chat_id
           /\ Bot.Watcher.notified w = false.
Proof.
  intros Hnd.
  destruct (check_confirmations_spec st lookup Hnd) as (st' & -> & _). simpl.
  unfold watchers_of. rewrite list_elem_of_bind. split.
  - intros ([k ws] & Hin & Hitem). unfold notices_of in Hin. simpl in Hin.
    destruct (confirmed lookup k) eqn:Hc; [|by apply elem_of_nil in Hin].
    destruct (pending ws); [|by apply elem_of_nil in Hin]. simpl in Hin.
    apply list_elem_of_fmap in Hin as (w & [= -> ->] & [Hw' Hin]%list_elem_of_filter).
    split; [done|]. exists w.
    by rewrite (dict_get_elem _ _ _ Hnd Hitem).
  - intros (Hc & w & Hin & <- & Hw').
    destruct (Bot.dict_get (Bot.watched_tx st) txid) as [ws|] eqn:Hget;
      [|by apply elem_of_nil in Hin].
    simpl in Hin. exists (txid, ws). split; [|by apply dict_get_Some].
    unfold notices_of. simpl. rewrite Hc.
    assert (pending ws = true) as -> by (apply pending_exists; eauto).
    simpl. apply list_elem_of_fmap. exists w. split; [done|].
    by apply list_elem_of_filter.
Qed.

(** X23: one pass of the confirmation job over a well-kept watch list, when
    no handler runs in between. A transaction whose watchers have all been
    notified is dropped; one that the explorer reports with 6 confirmations
    or more keeps its watchers, all marked notified; every other keeps its
    watchers as they are. A notice goes to a chat for a transaction exactly
    when the explorer reports 6 confirmations or more for it and the chat
    watches it without having been notified; nothing else is sent. *)
Theorem confirmation_pass st lookup :
  well_kept st ->
  let st' := (Bot.check_confirmations st lookup).1 in
  let sent := (Bot.check_confirmations st lookup).2 in
  (forall txid,
     watchers_of st' txid
     = if pending (watchers_of st txid)
       then if confirmed lookup txid
            then mark_notified (watchers_of st txid)
            else watchers_of st txid
       else [])
  /\ (forall chat_id txid,
        Bot.Confirmed chat_id txid ∈ sent
        <-> confirmed lookup txid = true
            /\ exists w, w ∈ watchers_of st txid
                 /\ Bot.Watcher.chat_id w = chat_id
                 /\ Bot.Watcher.notified w = false)
  /\ (forall notice, notice ∈ sent -> exists chat_id txid, notice = Bot.Confirmed chat_id txid).
Proof.
  intros [Hnd _] st' sent. subst st' sent. split; [|split].
  - intros txid. by apply watchers_after_pass.
  - intros chat_id txid. by apply notices_of_pass.
  - destruct (check_confirmations_spec st lookup Hnd) as (st' & -> & _). simpl.
    intros notice ([k ws] & Hin & _)%list_elem_of_bind. unfold notices_of in Hin.
    destruct (_ && _); [|by apply elem_of_nil in Hin].
    apply list_elem_of_fmap in Hin as (w & -> & _). eauto.
Qed.

Lemma confirmation_pass_witness :
  let st' := (Bot.check_confirmations sample_state sample_lookup).1 in
  let sent := (Bot.check_confirmations sample_state sample_lookup).2 in
  (forall txid,
     watchers_of st' txid
     = if pending (watchers_of sample_state txid)
       then if confirmed sample_lookup txid
            then mark_notified (watchers_of sample_state txid)
            else watchers_of sample_state txid
       else [])
  /\ (forall chat_id txid,
        Bot.Confirmed chat_id txid ∈ sent
        <-> confirmed sample_lookup txid = true
            /\ exists w, w ∈ watchers_of sample_state txid
                 /\ Bot.Watcher.chat_id w = chat_id
                 /\ Bot.Watcher.notified w = false)
  /\ (forall notice, notice ∈ sent -> exists chat_id txid, notice = Bot.Confirmed chat_id txid).
Proof.
  apply (confirmation_pass sample_state sample_lookup).
  apply (bool_decide_unpack _). vm_compute. reflexivity.
Defined.

(** ** /status and the jobs *)

Lemma awaits_exists chat_id ws :
  awaits chat_id ws = true
  <-> exists w, w ∈ ws /\ Bot.Watcher.chat_id w = chat_id /\ Bot.Watcher.notified w = false.
Proof.
  unfold awaits. rewrite existsb_exists. split.
  - intros (w & Hin%list_elem_of_In & [Hc%Z.eqb_eq Hn%negb_true_iff]%andb_true_iff). eauto.
  - intros (w & Hin%list_elem_of_In & Hc%Z.eqb_eq & Hn%negb_true_iff).
    exists w. by rewrite Hc, Hn.
Qed.

Lemma awaits_mark_notified chat_id ws : awaits chat_id (mark_notified ws) = false.
Proof.
  unfold awaits, mark_notified. induction ws as [|w ws IH]; [done|].
  rewrite fmap_cons. cbn [existsb Bot.Watcher.notified negb]. by rewrite andb_false_r.
Qed.

Lemma awaits_pending chat_id ws : awaits chat_id ws = true -> pending ws = true.
Proof.
  intros (w & Hin & _ & Hn)%awaits_exists. apply pending_exists. eauto.
Qed.

(** X24: on a well-kept watch list, the transactions [/status] reports to a
    chat are those the chat watches without having been notified, each of
    them once. *)
Theorem status_lists_what_the_chat_awaits st chat_id :
  well_kept st ->
  NoDup (Bot.user_txids st chat_id)
  /\ forall txid,
       txid ∈ Bot.user_txids st chat_id
       <-> exists w, w ∈ watchers_of st txid
             /\ Bot.Watcher.chat_id w = chat_id
             /\ Bot.Watcher.notified w = false.
Proof.
  intros [Hnd _]. unfold Bot.user_txids. split.
  - eapply sublist_NoDup; [exact Hnd|]. apply fmap_sublist, sublist_filter.
  - intros txid. rewrite list_elem_of_fmap. unfold watchers_of. split.
    + intros ([k ws] & -> & [Ha Hin]%list_elem_of_filter). simpl in *.
      rewrite (dict_get_elem _ _ _ Hnd Hin). simpl. by apply awaits_exists.
    + intros Hw. destruct (Bot.dict_get (Bot.watched_tx st) txid) as [ws|] eqn:Hget.
      * exists (txid, ws). split; [done|]. apply list_elem_of_filter.
        split; [by apply awaits_exists | by apply dict_get_Some].
      * destruct Hw as (w & Hin & _). by apply elem_of_nil in Hin.
Qed.

Lemma status_lists_what_the_chat_awaits_witness :
  NoDup (Bot.user_txids sample_state 7)
  /\ forall txid,
       txid ∈ Bot.user_txids sample_state 7
       <-> exists w, w ∈ watchers_of sample_state txid
             /\ Bot.Watcher.chat_id w = 7
             /\ Bot.Watcher.notified w = false.
Proof.
  apply (status_lists_what_the_chat_awaits sample_state 7).
  apply (bool_decide_unpack _). vm_compute. reflexivity.
Defined.

Lemma settle_confirmed lookup k ws :
  confirmed lookup k = true -> pending ws = true ->
  settle lookup (k, ws) = (k, mark_notified ws).
Proof. unfold settle. cbn [fst snd]. by intros -> ->. Qed.

Lemma settle_unconfirmed lookup k ws :
  confirmed lookup k = false -> settle lookup (k, ws) = (k, ws).
Proof. unfold settle. cbn [fst snd]. by intros ->. Qed.

Lemma user_txids_settled lookup chat_id (d : Bot.dict (list Bot.Watcher.t)) :
  (filter (fun item : string * list Bot.Watcher.t => awaits chat_id item.2 = true)
          (settle lookup <$> filter (fun item => pending item.2 = true) d)).*1
  = filter (fun txid => confirmed lookup txid = false)
           (filter (fun item : string * list Bot.Watcher.t => awaits chat_id item.2 = true)
                   d).*1.
Proof.
  induction d as [|[k ws] d IH]; [done|].
  destruct (awaits chat_id ws) eqn:Ha.
  - pose proof (awaits_pending _ _ Ha) as Hp.
    rewrite (filter_cons_True (fun item => pending item.2 = true)) by exact Hp.
    rewrite (filter_cons_True (fun item => awaits chat_id item.2 = true) (k, ws))
      by exact Ha.
    rewrite !fmap_cons. cbn [fst].
    destruct (confirmed lookup k) eqn:Hc.
    + rewrite settle_confirmed by done.
      rewrite filter_cons_False
        by (cbn [snd]; rewrite awaits_mark_notified; discriminate).
      rewrite filter_cons_False by (rewrite Hc; discriminate).
      exact IH.
    + rewrite settle_unconfirmed by done.
      rewrite filter_cons_True by exact Ha.
      rewrite filter_cons_True by exact Hc.
      rewrite fmap_cons. cbn [fst]. by rewrite IH.
  - rewrite (filter_cons_False (fun item => awaits chat_id item.2 = true) (k, ws))
      by (cbn [snd]; rewrite Ha; discriminate).
    destruct (pending ws) eqn:Hp.
    + rewrite filter_cons_True by exact Hp. rewrite fmap_cons.
      rewrite filter_cons_False; [exact IH|].
      unfold settle. cbn [fst snd]. rewrite Hp, andb_true_r.
      destruct (confirmed lookup k); cbn [snd].
      * rewrite awaits_mark_notified. discriminate.
      * rewrite Ha. discriminate.
    + rewrite filter_cons_False by (cbn [snd]; rewrite Hp; discriminate).
      exact IH.
Qed.

(** X25: after a pass of the confirmation job over a well-kept watch list,
    [/status] reports to a chat the transactions it reported before, in the
    same order, less those the explorer reported with 6 confirmations or
    more during the pass. *)
Theorem status_after_confirmation_pass st lookup chat_id :
  well_kept st ->
  Bot.user_txids (Bot.check_confirmations st lookup).1 chat_id
  = filter (fun txid => confirmed lookup txid = false) (Bot.user_txids st chat_id).
Proof.
  intros [Hnd _].
  destruct (check_confirmations_spec st lookup Hnd) as (st' & -> & Hw & _). simpl.
  unfold Bot.user_txids. rewrite Hw. apply user_txids_settled.
Qed.

Lemma status_after_confirmation_pass_witness :
  Bot.user_txids (Bot.check_confirmations sample_state sample_lookup).1 7
  = filter (fun txid => confirmed sample_lookup txid = false)
           (Bot.user_txids sample_state 7).
Proof.
  apply (status_after_confirmation_pass sample_state sample_lookup 7).
  apply (bool_decide_unpack _). vm_compute. reflexivity.
Defined.

(** X26: the block job changes neither the watch list nor the subscribers
    nor the state file. It alerts a chat of a height exactly when the chat
    is subscribed, a height was known before, and the explorer's tip, which
    becomes the known height, is above it; no chat is alerted twice. A
    second poll with the same answer alerts nobody, nor does the first poll
    after a restart. *)
Theorem block_alerts st resp :
  let st' := (Bot.check_new_block st resp).1 in
  let sent := (Bot.check_new_block st resp).2 in
  Bot.watched_tx st' = Bot.watched_tx st
  /\ Bot.block_notify_users st' = Bot.block_notify_users st
  /\ Bot.state_file st' = Bot.state_file st
  /\ NoDup sent
  /\ (forall notice,
        notice ∈ sent
        <-> exists chat_id height last,
              notice = Bot.NewBlock chat_id height
              /\ chat_id ∈ Bot.block_notify_users st
              /\ Bot.last_block_height st = Some last
              /\ Bot.last_block_height st' = Some height
              /\ last < height)
  /\ (Bot.check_new_block st' resp).2 = []
  /\ (Bot.check_new_block (Bot.restart st) resp).2 = [].
Proof.
  assert (Hrestart : Bot.last_block_height (Bot.restart st) = None).
  { unfold Bot.restart, Bot.load_state. simpl.
    by destruct (Bot.state_file st) as [[? ?]|]. }
  unfold Bot.check_new_block. rewrite Hrestart.
  assert (Hnone : forall notice : Bot.notice,
             notice ∈ [] <-> exists chat_id height last,
               notice = Bot.NewBlock chat_id height
               /\ chat_id ∈ Bot.block_notify_users st
               /\ Bot.last_block_height st = Some last
               /\ Bot.last_block_height st = Some height
               /\ last < height).
  { intros notice. split; [by intros ?%elem_of_nil|].
    intros (? & ? & ? & _ & _ & -> & [= ->] & ?). lia. }
  destruct resp as [resp|]; simpl;
    [|by repeat split; try apply NoDup_nil_2; try apply Hnone].
  destruct (Bot.status_code resp =? 200); simpl;
    [|by repeat split; try apply NoDup_nil_2; try apply Hnone].
  destruct (Bot.json resp) as [[|tip blocks]|]; simpl;
    try by repeat split; try apply NoDup_nil_2; try apply Hnone.
  rewrite Z.ltb_irrefl.
  destruct (Bot.last_block_height st) as [last|] eqn:Hlast.
  2:{ repeat split; try done; try apply NoDup_nil_2.
      - by intros ?%elem_of_nil.
      - by intros (? & ? & ? & _ & _ & ? & _). }
  destruct (Z.ltb_spec last (Bot.height tip)) as [Hlt|Hge].
  - repeat split; try done.
    + apply NoDup_fmap_2; [by intros ?? [= ->] | apply NoDup_elements].
    + intros (chat_id & -> & Hin%elem_of_elements)%list_elem_of_fmap.
      by exists chat_id, (Bot.height tip), last.
    + intros (chat_id & height & ? & -> & Hin & [= <-] & [= <-] & _).
      apply list_elem_of_fmap. exists chat_id. by rewrite elem_of_elements.
  - repeat split; try done; try apply NoDup_nil_2.
    + by intros ?%elem_of_nil.
    + intros (? & ? & ? & _ & _ & [= <-] & [= <-] & ?). lia.
Qed.

(** X27: a count [get_confirmations] returns is never negative, and it is
    returned only when the explorer answered with status 200 and a body that
    decodes; a positive count in that body is returned as it is. *)
Theorem confirmations_never_negative resp blocks_resp n :
  Bot.get_confirmations resp blocks_resp = Some n ->
  0 <= n
  /\ exists answer data,
       resp = Some answer /\ Bot.status_code answer = 200
       /\ Bot.json answer = Some data
       /\ (forall c, Bot.confirmations data = Some c -> 0 < c -> n = c).
Proof.
  assert (Hheight : forall data, Bot.confirmations_from_height data blocks_resp = Some n ->
                                 0 <= n).
  { intros data. unfold Bot.confirmations_from_height.
    destruct (Bot.py_or _ _) as [h|]; [|intros [= <-]; lia].
    destruct (h =? 0); [intros [= <-]; lia|].
    destruct blocks_resp as [blocks|]; [|done].
    destruct (Bot.status_code blocks =? 200); [|intros [= <-]; lia].
    destruct (Bot.json blocks) as [[|tip ?]|]; [intros [= <-]; lia | | done].
    intros [= <-]. lia. }
  unfold Bot.get_confirmations.
  destruct resp as [answer|]; [|done].
  destruct (Bot.status_code answer =? 200) eqn:Hcode; [|done].
  apply Z.eqb_eq in Hcode.
  destruct (Bot.json answer) as [data|] eqn:Hjson; [|done].
  destruct (Bot.confirmations data) as [c|] eqn:Hc.
  - destruct (Z.ltb_spec 0 c) as [Hpos|Hle].
    + intros [= <-]. split; [lia|]. exists answer, data.
      repeat split; try done. intros c0 Heq _. congruence.
    + intros Hn. split; [by apply (Hheight data)|]. exists answer, data.
      repeat split; try done. intros c0 Heq Hc0. assert (c0 = c) by congruence. lia.
  - intros Hn. split; [by apply (Hheight data)|]. exists answer, data.
    repeat split; try done. intros c0 Heq. congruence.
Qed.

Lemma confirmations_never_negative_witness :
  0 <= 2
  /\ exists answer data,
       Some (Bot.mk_response 200 (Some (Bot.mk_tx_data None (Some 799999) None)))
       = Some answer
       /\ Bot.status_code answer = 200
       /\ Bot.json answer = Some data
       /\ (forall c, Bot.confirmations data = Some c -> 0 < c -> 2 = c).
Proof.
  apply (confirmations_never_negative
           (Some (Bot.mk_response 200 (Some (Bot.mk_tx_data None (Some 799999) None))))
           (tip_at 800000) 2).
  reflexivity.
Defined.

Lemma mark_notified_notified ws w :
  w ∈ mark_notified ws -> Bot.Watcher.notified w = true.
Proof. unfold mark_notified. by intros (? & -> & _)%list_elem_of_fmap. Qed.

Lemma notices_of_NoDup lookup (item : string * list Bot.Watcher.t) :
  NoDup (Bot.Watcher.chat_id <$> item.2) -> NoDup (notices_of lookup item).
Proof.
  intros Hnd. unfold notices_of. destruct (_ && _); [|apply NoDup_nil_2].
  apply NoDup_fmap_2_strong.
  - intros w1 w2 [Hn1 Hin1]%list_elem_of_filter [Hn2 Hin2]%list_elem_of_filter [= Hc].
    destruct w1 as [c1 n1], w2 as [c2 n2]. simpl in *. congruence.
  - apply (NoDup_fmap_1 Bot.Watcher.chat_id).
    eapply sublist_NoDup; [exact Hnd|]. apply fmap_sublist, sublist_filter.
Qed.

Lemma notices_of_key lookup (item : string * list Bot.Watcher.t) notice :
  notice ∈ notices_of lookup item -> exists chat_id, notice = Bot.Confirmed chat_id item.1.
Proof.
  unfold notices_of. destruct (_ && _); [|by intros ?%elem_of_nil].
  intros (w & -> & _)%list_elem_of_fmap. eauto.
Qed.

(** X28: a pass of the confirmation job over a well-kept watch list sends no
    notice twice, and the pass that follows it repeats none of its notices,
    whatever the explorer answers then. *)
Theorem confirmation_notices_not_repeated st lookup lookup' :
  well_kept st ->
  let st' := (Bot.check_confirmations st lookup).1 in
  let sent := (Bot.check_confirmations st lookup).2 in
  NoDup sent
  /\ forall notice, notice ∈ sent -> notice ∉ (Bot.check_confirmations st' lookup').2.
Proof.
  intros Hkept st' sent. subst st' sent.
  pose proof (check_confirmations_well_kept st lookup Hkept) as [Hnd' _].
  destruct Hkept as [Hnd Hall]. split.
  - destruct (check_confirmations_spec st lookup Hnd) as (st' & -> & _). simpl.
    apply NoDup_bind.
    + intros [k1 ws1] [k2 ws2] notice Hin1 Hin2
        [c1 ->]%notices_of_key [c2 [= _ Hk]]%notices_of_key.
      simpl in Hk. subst k2.
      pose proof (dict_get_elem _ _ _ Hnd Hin1) as H1.
      pose proof (dict_get_elem _ _ _ Hnd Hin2) as H2. congruence.
    + intros item Hin. apply notices_of_NoDup.
      rewrite Forall_forall in Hall. by apply Hall.
    + by apply (NoDup_fmap_1 fst).
  - intros notice Hin Hin'.
    assert (exists chat_id txid, notice = Bot.Confirmed chat_id txid) as (chat_id & txid & ->).
    { destruct (check_confirmations_spec st lookup Hnd) as (st' & Heq & _).
      rewrite Heq in Hin. simpl in Hin.
      apply list_elem_of_bind in Hin as (item & [c ->]%notices_of_key & _). eauto. }
    apply notices_of_pass in Hin as (Hc & w & Hw & _ & Hn); [|exact Hnd].
    apply notices_of_pass in Hin' as (_ & w' & Hw' & _ & Hn'); [|exact Hnd'].
    rewrite watchers_after_pass in Hw' by exact Hnd.
    assert (pending (watchers_of st txid) = true) as Hp by (apply pending_exists; eauto).
    rewrite Hp, Hc in Hw'. apply mark_notified_notified in Hw'. congruence.
Qed.

Lemma confirmation_notices_not_repeated_witness :
  let st' := (Bot.check_confirmations sample_state sample_lookup).1 in
  let sent := (Bot.check_confirmations sample_state sample_lookup).2 in
  NoDup sent
  /\ forall notice, notice ∈ sent -> notice ∉ (Bot.check_confirmations st' sample_lookup).2.
Proof.
  apply (confirmation_notices_not_repeated sample_state sample_lookup sample_lookup).
  apply (bool_decide_unpack _). vm_compute. reflexivity.
Defined.

(** X29: on a well-kept watch list, when a chat sends a valid transaction
    that has fewer than 6 confirmations or cannot be checked, and the chat
    has not been notified of it before, the next pass of the confirmation
    job notifies the chat exactly when the explorer then reports 6
    confirmations or more. *)
Theorem watched_until_confirmed st text chat_id confirmations lookup :
  well_kept st ->
  Bot.is_valid_txid (Bot.strip text) = true ->
  (forall c, confirmations = Some c -> c < 6) ->
  (forall w, w ∈ watchers_of st (Bot.strip text) ->
             Bot.Watcher.chat_id w = chat_id -> Bot.Watcher.notified w = false) ->
  let st1 := (Bot.handle_txid st text chat_id confirmations).1 in
  Bot.Confirmed chat_id (Bot.strip text) ∈ (Bot.check_confirmations st1 lookup).2
  <-> confirmed lookup (Bot.strip text) = true.
Proof.
  intros Hkept Hvalid Hlow Hfresh st1. subst st1.
  assert (Hst1 : (Bot.handle_txid st text chat_id confirmations).1
                 = Bot.watch st (Bot.strip text) chat_id).
  { rewrite handle_txid_state, Hvalid, andb_true_l.
    destruct confirmations as [c|]; [|done].
    specialize (Hlow c eq_refl). by rewrite (proj2 (Z.leb_gt 6 c)). }
  rewrite Hst1.
  pose proof (watch_well_kept st _ chat_id Hvalid Hkept) as [Hnd1 _].
  rewrite notices_of_pass by exact Hnd1.
  split; [by intros [? _]|]. intros Hc. split; [exact Hc|].
  rewrite watch_spec. destruct (decide (watches st chat_id (Bot.strip text))) as [Hw|Hnw].
  - unfold watches in Hw. apply list_elem_of_fmap in Hw as (w & Hcw & Hin).
    exists w. split; [exact Hin|]. split; [done|]. by apply Hfresh.
  - exists (Bot.Watcher.mk chat_id false). split; [|done].
    unfold watchers_of at 1. simpl. rewrite dict_get_set, decide_True by done. simpl.
    apply elem_of_app. right. apply list_elem_of_singleton. done.
Qed.

Lemma watched_until_confirmed_witness :
  let st1 := (Bot.handle_txid sample_state sample_txid 9 (Some 5)).1 in
  Bot.Confirmed 9 (Bot.strip sample_txid) ∈ (Bot.check_confirmations st1 sample_lookup).2
  <-> confirmed sample_lookup (Bot.strip sample_txid) = true.
Proof.
  apply (watched_until_confirmed sample_state sample_txid 9 (Some 5) sample_lookup).
  - apply (bool_decide_unpack _). vm_compute. reflexivity.
  - vm_compute. reflexivity.
  - intros c [= <-]. lia.
  - intros w Hin Hchat. vm_compute in Hin.
    apply elem_of_cons in Hin as [->|Hin]; [discriminate Hchat|].
    apply elem_of_cons in Hin as [->|Hin]; [discriminate Hchat|].
    by apply elem_of_nil in Hin.
Defined.

Lemma check_confirmations_users st lookup :
  well_kept st ->
  Bot.block_notify_users (Bot.check_confirmations st lookup).1 = Bot.block_notify_users st.
Proof.
  intros [Hnd _].
  by destruct (check_confirmations_spec st lookup Hnd) as (st' & -> & _ & Hu & _).
Qed.

Lemma watch_users st txid chat_id :
  Bot.block_notify_users (Bot.watch st txid chat_id) = Bot.block_notify_users st.
Proof. rewrite watch_spec. by destruct (decide _). Qed.

Lemma remove_users st args chat_id :
  Bot.block_notify_users (Bot.remove st args chat_id).1 = Bot.block_notify_users st.
Proof.
  destruct args as [|arg args]; [done|].
  destruct (Bot.is_valid_txid (Bot.strip arg)) eqn:Hv.
  - rewrite remove_spec by exact Hv. by destruct (Bot.dict_get _ _).
  - unfold Bot.remove. by rewrite Hv.
Qed.

Lemma check_new_block_users st resp :
  Bot.block_notify_users (Bot.check_new_block st resp).1 = Bot.block_notify_users st.
Proof.
  unfold Bot.check_new_block. destruct resp as [resp|]; [|done].
  destruct (_ =? 200); [|done]. by destruct (Bot.json resp) as [[|tip blocks]|].
Qed.

Lemma block_alert_subscribed st resp chat_id height :
  Bot.NewBlock chat_id height ∈ (Bot.check_new_block st resp).2 ->
  chat_id ∈ Bot.block_notify_users st.
Proof.
  unfold Bot.check_new_block. destruct resp as [resp|]; [|by intros ?%elem_of_nil].
  destruct (_ =? 200); [|by intros ?%elem_of_nil].
  destruct (Bot.json resp) as [[|tip blocks]|]; simpl; try by intros ?%elem_of_nil.
  destruct (Bot.last_block_height st) as [last|]; [|by intros ?%elem_of_nil].
  destruct (last <? _); [|by intros ?%elem_of_nil].
  intros (c & Heq & Hin%elem_of_elements)%list_elem_of_fmap. congruence.
Qed.

Lemma unsubscribed_stays st chat_id evs :
  well_kept st ->
  Forall (fun ev => ev <> Bot.NotifyBlocks chat_id) evs ->
  chat_id ∉ Bot.block_notify_users st ->
  chat_id ∉ Bot.block_notify_users (fold_left Bot.step evs st).
Proof.
  intros Hkept Hevs. revert st Hkept.
  induction Hevs as [|ev evs Hev _ IH]; intros st Hkept Hout; [exact Hout|].
  simpl. apply IH; [by apply step_well_kept|].
  destruct ev as [text chat c|chat|chat|args chat|lookup|resp]; unfold Bot.step.
  - rewrite handle_txid_state. destruct (_ && _); [by rewrite watch_users | exact Hout].
  - simpl. rewrite not_elem_of_union, not_elem_of_singleton.
    split; [congruence | exact Hout].
  - unfold Bot.stopblocks. destruct (bool_decide _); [|exact Hout].
    simpl. rewrite elem_of_difference. by intros [? _].
  - by rewrite remove_users.
  - by rewrite check_confirmations_users.
  - by rewrite check_new_block_users.
Qed.

(** X30: on a well-kept watch list, once a chat has sent [/stopblocks], no
    block job alerts it, whatever the bot handles in between, as long as the
    chat does not send [/notifyblocks] again. *)
Theorem no_block_alerts_after_stopblocks st chat_id evs resp height :
  well_kept st ->
  Forall (fun ev => ev <> Bot.NotifyBlocks chat_id) evs ->
  Bot.NewBlock chat_id height
    ∉ (Bot.check_new_block (fold_left Bot.step evs (Bot.stopblocks st chat_id).1) resp).2.
Proof.
  intros Hkept Hevs Hin%block_alert_subscribed. revert Hin.
  apply unsubscribed_stays; [|exact Hevs|].
  - unfold Bot.stopblocks. destruct (bool_decide _); exact Hkept.
  - unfold Bot.stopblocks.
    destruct (bool_decide_reflect (chat_id ∈ Bot.block_notify_users st)); [|done].
    simpl. rewrite elem_of_difference, elem_of_singleton. by intros [_ ?].
Qed.

Lemma no_block_alerts_after_stopblocks_witness :
  Bot.NewBlock 7 800001
    ∉ (Bot.check_new_block
         (fold_left Bot.step [Bot.Text other_txid 7 None; Bot.NotifyBlocks 8]
                    (Bot.stopblocks sample_state 7).1)
         (tip_at 800001)).2.
Proof.
  apply (no_block_alerts_after_stopblocks sample_state 7
           [Bot.Text other_txid 7 None; Bot.NotifyBlocks 8] (tip_at 800001) 800001).
  - apply (bool_decide_unpack _). vm_compute. reflexivity.
  - repeat apply Forall_cons_2; [| |apply Forall_nil_2]; discriminate.
Defined.
